(** * Extraction and collection of performance metrics

    A shallow embedding of the two scripts [analyze_results.py] (the
    simpler variant) and [analyze_results_report.py] (the report variant):
    the text extractors [parse_avg_cpu_file], [convert_to_seconds] and
    [parse_wrk_file], the directory walk [collect_results], the display
    ordering [custom_order] and the escaping [html_escape] of the report.

    Conventions of the embedding.
    - A Python [str] is a list of characters; a character is a code point
      below 256 (type [ascii], read as Latin-1).  The classes [\s], [\d],
      [\w], [str.strip], [str.lower] and case-insensitive comparison are
      the restrictions of the Python ones to these code points.
    - A Python [float] is an IEEE binary64 number, type [spec_float] with
      precision 53 and maximal exponent 1024; [float(s)], [/], [-] and
      [round(x, 2)] are correctly rounded.
    - A Python [int] is a [Z]; [int(s)] refuses a string of more than
      4300 digits, as CPython does by default.
    - A [pathlib] path is its anchor and its components; [Path(s)] and
      [str(p)] normalise as [pathlib] does on a POSIX system.
    - A function that may raise returns in the [exc] monad.
    - [re] patterns are terms of type [regex]; [re.search] and [re.match]
      are a backtracking matcher that lists the matches at a position in
      the order in which Python tries them. *)

From Stdlib Require Import Ascii String List ZArith NArith Bool Lia Arith.
From Stdlib Require Import Floats.SpecFloat.
From Stdlib Require Import Sorting.Permutation.
Import ListNotations.

Set Implicit Arguments.

(* ================================================================== *)
(** * Strings and characters *)
(* ================================================================== *)

Definition str := list ascii.

(** A string literal of the source. *)
Definition L (s : string) : str := list_ascii_of_string s.

Definition code (c : ascii) : N := N_of_ascii c.

Definition in_range (lo hi : N) (c : ascii) : bool :=
  (lo <=? code c)%N && (code c <=? hi)%N.

Definition newline : ascii := ascii_of_N 10.

(** [[0-9]] *)
Definition is_digit09 (c : ascii) : bool := in_range 48 57 c.

(** [\d]: the decimal digits below 256 are the ASCII ones. *)
Definition is_d (c : ascii) : bool := is_digit09 c.

(** [\s] and the characters removed by [str.strip()]. *)
Definition is_space (c : ascii) : bool :=
  in_range 9 13 c || in_range 28 32 c
  || (code c =? 133)%N || (code c =? 160)%N.

(** [\w]: alphanumeric characters and the underscore. *)
Definition is_word (c : ascii) : bool :=
  in_range 48 57 c || in_range 65 90 c || (code c =? 95)%N
  || in_range 97 122 c || (code c =? 170)%N || in_range 178 179 c
  || (code c =? 181)%N || in_range 185 186 c || in_range 188 190 c
  || in_range 192 214 c || in_range 216 246 c || in_range 248 255 c.

(** [[^\d]] and [[^\n]] *)
Definition not_d (c : ascii) : bool := negb (is_d c).
Definition not_nl (c : ascii) : bool := negb (Ascii.eqb c newline).

(** [str.lower()] on one character. *)
Definition lower_char (c : ascii) : ascii :=
  if in_range 65 90 c || in_range 192 214 c || in_range 216 222 c
  then ascii_of_N (code c + 32) else c.

Definition lower (s : str) : str := map lower_char s.

Fixpoint lstrip (s : str) : str :=
  match s with
  | c :: s' => if is_space c then lstrip s' else s
  | [] => []
  end.

Definition rstrip (s : str) : str := rev (lstrip (rev s)).

(** [str.strip()] *)
Definition strip (s : str) : str := rstrip (lstrip s).

Fixpoint str_eqb (a b : str) : bool :=
  match a, b with
  | [], [] => true
  | x :: a', y :: b' => Ascii.eqb x y && str_eqb a' b'
  | _, _ => false
  end.

(** [s.startswith(p)] *)
Fixpoint startswith (p s : str) : bool :=
  match p, s with
  | [], _ => true
  | x :: p', y :: s' => Ascii.eqb x y && startswith p' s'
  | _ :: _, [] => false
  end.

(** [p in s] for strings: [p] occurs in [s]. *)
Fixpoint contains (p s : str) : bool :=
  startswith p s ||
  match s with
  | [] => false
  | _ :: s' => contains p s'
  end.

(** Lexicographic comparison of strings by code point, as [<] on [str]. *)
Fixpoint str_ltb (a b : str) : bool :=
  match a, b with
  | [], [] => false
  | [], _ :: _ => true
  | _ :: _, [] => false
  | x :: a', y :: b' =>
      (code x <? code y)%N || ((code x =? code y)%N && str_ltb a' b')
  end.

(* ================================================================== *)
(** * Exceptions *)
(* ================================================================== *)

Inductive exn := ValueError | TypeError | AttributeError | IsADirectoryError.

Inductive exc (A : Type) : Type :=
| Ret (a : A)
| Raise (e : exn).
Arguments Ret {A} a.
Arguments Raise {A} e.

Definition bind {A B} (m : exc A) (k : A -> exc B) : exc B :=
  match m with
  | Ret a => k a
  | Raise e => Raise e
  end.

Notation "x <- m ;; k" := (bind m (fun x => k))
  (at level 61, m at next level, right associativity).
Notation "' pat <- m ;; k" :=
  (bind m (fun x => match x with pat => k end))
  (at level 61, pat pattern, m at next level, right associativity).

(** [try: m except: handler] *)
Definition try_except {A} (m : exc A) (handler : A) : A :=
  match m with
  | Ret a => a
  | Raise _ => handler
  end.

(* ================================================================== *)
(** * Numbers: [int] and binary64 [float] *)
(* ================================================================== *)

Definition float := spec_float.
Definition prec : Z := 53.
Definition emax : Z := 1024.

Definition digit_val (c : ascii) : N := (code c - 48)%N.

(** Value of a string of decimal digits. *)
Definition digits_val (w : str) : N :=
  fold_left (fun acc c => (10 * acc + digit_val c)%N) w 0%N.

(** The binary64 number nearest to [m * 10^e] (ties to even), with the
    sign [neg]: what the C library's [strtod] returns. *)
Definition dec_to_float (neg : bool) (m : N) (e : Z) : float :=
  match m with
  | N0 => S754_zero neg
  | Npos p =>
      match e with
      | Zneg k =>
          let '(mz, ez, lz) :=
            SFdiv_core_binary prec emax (Zpos p) 0 (10 ^ Zpos k) 0 in
          binary_round_aux prec emax neg mz ez lz
      | _ =>
          match (Zpos p * 10 ^ e)%Z with
          | Zpos q => binary_round prec emax neg q 0
          | _ => S754_zero neg
          end
      end
  end.

(** The float of an [int] literal of the source, such as [1000.0]. *)
Definition float_of_Z (z : Z) : float := binary_normalize prec emax z 0 false.

(** [x / y] on floats; the divisors of the source are non-zero constants. *)
Definition fdiv (x y : float) : float := SFdiv prec emax x y.
Definition fsub (x y : float) : float := SFsub prec emax x y.
Definition fmul (x y : float) : float := SFmul prec emax x y.

(** [round(x, 2)]: the exact value of [x] is rounded to two decimals, ties
    to even, and the decimal result converted back to a float; infinities
    and NaN are returned unchanged. *)
Definition round_half_even (n d : Z) : Z :=
  let q := (n / d)%Z in
  let r := (n mod d)%Z in
  match (2 * r ?= d)%Z with
  | Lt => q
  | Gt => (q + 1)%Z
  | Eq => if Z.even q then q else (q + 1)%Z
  end.

Definition round2 (x : float) : float :=
  match x with
  | S754_finite s m e =>
      let hundredths :=
        match e with
        | Zneg k => round_half_even (Zpos m * 100) (2 ^ Zpos k)
        | _ => (Zpos m * 2 ^ e * 100)%Z
        end in
      dec_to_float s (Z.to_N hundredths) (-2)
  | _ => x
  end.

(** ** Parsing numbers: [float(s)] and [int(s)] *)

(** Longest prefix of [s] whose characters satisfy [f], and the rest. *)
Fixpoint span (f : ascii -> bool) (s : str) : str * str :=
  match s with
  | c :: s' =>
      if f c then let '(a, b) := span f s' in (c :: a, b) else ([], s)
  | [] => ([], [])
  end.

(** An underscore is accepted only between two digits. *)
Fixpoint underscores_ok (prev : option ascii) (s : str) : bool :=
  match s with
  | [] => match prev with
          | Some p => negb (Ascii.eqb p "_")
          | None => true
          end
  | c :: s' =>
      (if Ascii.eqb c "_"
       then match prev with Some p => is_digit09 p | None => false end
       else match prev with
            | Some p => negb (Ascii.eqb p "_") || is_digit09 c
            | None => true
            end)
      && underscores_ok (Some c) s'
  end.

Definition remove_underscores (s : str) : str :=
  filter (fun c => negb (Ascii.eqb c "_")) s.

(** An optional sign: [true] for a minus. *)
Definition take_sign (s : str) : bool * str :=
  match s with
  | c :: s' =>
      if Ascii.eqb c "-" then (true, s')
      else if Ascii.eqb c "+" then (false, s')
      else (false, s)
  | [] => (false, [])
  end.

Definition is_e (c : ascii) : bool := Ascii.eqb c "e" || Ascii.eqb c "E".

(** The decimal part of the grammar of [float]: digits, an optional point
    and digits, with a digit somewhere, and an optional exponent. *)
Definition float_of_number (neg : bool) (r : str) : exc float :=
  let '(ip, r1) := span is_digit09 r in
  let '(fp, r2) :=
    match r1 with
    | c :: r1' => if Ascii.eqb c "." then span is_digit09 r1' else ([], r1)
    | [] => ([], [])
    end in
  let shift := Z.of_nat (length fp) in
  match ip ++ fp with
  | [] => Raise ValueError
  | _ :: _ =>
      match r2 with
      | [] => Ret (dec_to_float neg (digits_val (ip ++ fp)) (- shift))
      | c :: r3 =>
          if is_e c then
            let '(eneg, r4) := take_sign r3 in
            let '(ed, r5) := span is_digit09 r4 in
            match ed, r5 with
            | _ :: _, [] =>
                let e := Z.of_N (digits_val ed) in
                Ret (dec_to_float neg (digits_val (ip ++ fp))
                       ((if eneg then - e else e) - shift))
            | _, _ => Raise ValueError
            end
          else Raise ValueError
      end
  end.

(** [float(s)] for a string [s]. *)
Definition py_float (s : str) : exc float :=
  if underscores_ok None s then
    let '(neg, r) := take_sign (remove_underscores (strip s)) in
    let lr := lower r in
    if str_eqb lr (L "inf") || str_eqb lr (L "infinity")
    then Ret (S754_infinity neg)
    else if str_eqb lr (L "nan") then Ret S754_nan
    else float_of_number neg r
  else Raise ValueError.

(** A non-empty string of the digits 0 to 9. *)
Definition digits (w : str) : Prop := w <> [] /\ forallb is_digit09 w = true.

(** A decimal number: digits, or digits, a point and digits. *)
Definition decimal (w : str) : Prop :=
  digits w \/ exists ip fp, w = ip ++ L "." ++ fp /\ digits ip /\ digits fp.

(** The characters of a decimal number. *)
Definition num_char (c : ascii) : bool := is_digit09 c || Ascii.eqb c ".".

(** The float that a decimal number denotes. *)
Definition number_value (w : str) : float :=
  let '(ip, r) := span is_digit09 w in
  let fp := tl r in
  dec_to_float false (digits_val (ip ++ fp)) (- Z.of_nat (length fp)).

(** The integer that a string of digits denotes. *)
Definition digits_value (w : str) : Z := Z.of_N (digits_val w).

(** [float(x)] where [x] is a group of a match, which is [None] when the
    group did not take part in the match. *)
Definition float_of (x : option str) : exc float :=
  match x with
  | Some s => py_float s
  | None => Raise TypeError
  end.

(** The bound of [int] on the number of digits of a string,
    [sys.int_max_str_digits], with its default value. *)
Definition int_max_str_digits : nat := 4300.

(** [int(s)] for a string [s], in base 10.  A string with more digits than
    the bound is refused; the sign, the underscores and the white space
    around the number do not count. *)
Definition py_int (s : str) : exc Z :=
  if underscores_ok None s then
    let '(neg, r) := take_sign (remove_underscores (strip s)) in
    match r with
    | [] => Raise ValueError
    | _ :: _ =>
        if forallb is_digit09 r
        then
          if int_max_str_digits <? length r then Raise ValueError
          else let n := Z.of_N (digits_val r) in
               Ret (if neg then (- n)%Z else n)
        else Raise ValueError
    end
  else Raise ValueError.

(** A captured string of digits that [int] refuses for its length. *)
Definition over_limit (g : option str) : bool :=
  match g with
  | Some w => int_max_str_digits <? length w
  | None => false
  end.

(** The longest run of decimal digits of a string. *)
Fixpoint digit_run_from (cur : nat) (s : str) : nat :=
  match s with
  | [] => cur
  | c :: s' =>
      if is_digit09 c then digit_run_from (S cur) s'
      else Nat.max cur (digit_run_from 0 s')
  end.



Definition int_of (x : option str) : exc Z :=
  match x with
  | Some s => py_int s
  | None => Raise TypeError
  end.

(* ================================================================== *)
(** * Regular expressions: the fragment of [re] used by the scripts *)
(* ================================================================== *)

Record flags := mkFlags { IGNORECASE : bool; DOTALL : bool; MULTILINE : bool }.

Definition no_flags : flags := mkFlags false false false.

(** One-character patterns. *)
Inductive atom :=
| AAny                          (** [.] *)
| ASet (f : ascii -> bool).     (** a class: [\s], [\d], [[0-9]], [[^\n]] *)

Inductive regex :=
| Lit (s : str)                 (** a literal string *)
| Rep (a : atom) (lo : nat) (hi : option nat)
                                (** greedy repetition [a{lo,hi}] *)
| Opt (r : regex)               (** greedy [r?] *)
| Alt (r1 r2 : regex)           (** [r1|r2] *)
| Seq (r1 r2 : regex)
| Group (n : nat) (r : regex)   (** capturing group number [n] *)
| Bol                           (** [^] *)
| NotBehind (f : ascii -> bool) (** [(?<!c)] for a class [c] *)
| NotAhead (f : ascii -> bool). (** [(?!c)] for a class [c] *)

Definition Star (a : atom) : regex := Rep a 0 None.
Definition Plus (a : atom) : regex := Rep a 1 None.

(** The concatenation of the pieces of a pattern, in order. *)
Fixpoint cat (l : list regex) : regex :=
  match l with
  | [] => Lit []
  | [r] => r
  | r :: l' => Seq r (cat l')
  end.

(** A position in the subject: the text before it (reversed), the text
    after it, and the groups captured so far (most recent first). *)
Record mstate := mkState {
  s_left : str;
  s_rest : str;
  s_caps : list (nat * str)
}.

Definition consume (n : nat) (st : mstate) : mstate :=
  mkState (rev (firstn n (s_rest st)) ++ s_left st)
          (skipn n (s_rest st)) (s_caps st).

Definition set_cap (n : nat) (w : str) (st : mstate) : mstate :=
  mkState (s_left st) (s_rest st) ((n, w) :: s_caps st).

Fixpoint assoc (n : nat) (l : list (nat * str)) : option str :=
  match l with
  | (k, w) :: l' => if Nat.eqb k n then Some w else assoc n l'
  | [] => None
  end.

(** [m.group(n)] *)
Definition group (m : mstate) (n : nat) : option str := assoc n (s_caps m).

Section Matcher.
Variable fl : flags.

(** Comparison of a pattern character with a subject character. *)
Definition chr_eq (p c : ascii) : bool :=
  if IGNORECASE fl then Ascii.eqb (lower_char p) (lower_char c)
  else Ascii.eqb p c.

Definition atom_ok (a : atom) (c : ascii) : bool :=
  match a with
  | AAny => DOTALL fl || negb (Ascii.eqb c newline)
  | ASet f => f c
  end.

Fixpoint lit_prefix (p s : str) : bool :=
  match p, s with
  | [], _ => true
  | x :: p', y :: s' => chr_eq x y && lit_prefix p' s'
  | _ :: _, [] => false
  end.

(** Number of leading characters of [s] accepted by [a], at most [hi]. *)
Fixpoint run_length (a : atom) (hi : option nat) (s : str) : nat :=
  match s with
  | c :: s' =>
      if atom_ok a c then
        match hi with
        | Some 0 => 0
        | Some (S h) => S (run_length a (Some h) s')
        | None => S (run_length a None s')
        end
      else 0
  | [] => 0
  end.

(** The counts [k, k-1, ..., lo]: a greedy repetition tries the longest
    first. *)
Definition counts_down (lo k : nat) : list nat := rev (seq lo (S k - lo)).

Definition at_bol (st : mstate) : bool :=
  match s_left st with
  | [] => true
  | c :: _ => MULTILINE fl && Ascii.eqb c newline
  end.

(** All the ways [r] matches at [st], in the order of the backtracking
    search. *)
Fixpoint run (r : regex) (st : mstate) : list mstate :=
  match r with
  | Lit p => if lit_prefix p (s_rest st) then [consume (length p) st] else []
  | Rep a lo hi =>
      map (fun n => consume n st)
          (counts_down lo (run_length a hi (s_rest st)))
  | Opt r1 => run r1 st ++ [st]
  | Alt r1 r2 => run r1 st ++ run r2 st
  | Seq r1 r2 => flat_map (run r2) (run r1 st)
  | Group n r1 =>
      map (fun st' =>
             set_cap n (firstn (length (s_rest st) - length (s_rest st'))
                               (s_rest st)) st')
          (run r1 st)
  | Bol => if at_bol st then [st] else []
  | NotBehind f =>
      match s_left st with
      | c :: _ => if f c then [] else [st]
      | [] => [st]
      end
  | NotAhead f =>
      match s_rest st with
      | c :: _ => if f c then [] else [st]
      | [] => [st]
      end
  end.

(** The first match of [r] that starts at the current position or at a
    later one. *)
Fixpoint search_from (r : regex) (left rest : str) : option mstate :=
  match run r (mkState left rest []) with
  | m :: _ => Some m
  | [] =>
      match rest with
      | c :: rest' => search_from r (c :: left) rest'
      | [] => None
      end
  end.
(** ** What a match is

    [Matches r left w rest c c']: the pattern [r] matches the string [w]
    between the text [left] (reversed) and the text [rest], and turns the
    captured groups [c] into [c']. *)

Fixpoint lit_eq (p w : str) : bool :=
  match p, w with
  | [], [] => true
  | x :: p', y :: w' => chr_eq x y && lit_eq p' w'
  | _, _ => false
  end.

Definition within (hi : option nat) (n : nat) : Prop :=
  match hi with
  | Some h => n <= h
  | None => True
  end.

(** The first character of [s], if any, is not in the class [f]. *)
Definition not_first (f : ascii -> bool) (s : str) : Prop :=
  match s with
  | c :: _ => f c = false
  | [] => True
  end.

Fixpoint Matches (r : regex) (left w rest : str) (c c' : list (nat * str))
  : Prop :=
  match r with
  | Lit p => lit_eq p w = true /\ c' = c
  | Rep a lo hi =>
      forallb (atom_ok a) w = true /\ lo <= length w /\ within hi (length w)
      /\ c' = c
  | Opt r1 => Matches r1 left w rest c c' \/ (w = [] /\ c' = c)
  | Alt r1 r2 => Matches r1 left w rest c c' \/ Matches r2 left w rest c c'
  | Seq r1 r2 =>
      exists w1 w2 c1,
        w = w1 ++ w2
        /\ Matches r1 left w1 (w2 ++ rest) c c1
        /\ Matches r2 (rev w1 ++ left) w2 rest c1 c'
  | Group n r1 => exists c1, Matches r1 left w rest c c1 /\ c' = (n, w) :: c1
  | Bol => w = [] /\ at_bol (mkState left rest c) = true /\ c' = c
  | NotBehind f => w = [] /\ not_first f left /\ c' = c
  | NotAhead f => w = [] /\ not_first f rest /\ c' = c
  end.

(** A match of [r] in [text] that starts after [pre]. *)
Definition match_at (r : regex) (text pre w rest : str) (c' : list (nat * str))
  : Prop :=
  text = pre ++ w ++ rest /\ Matches r (rev pre) w rest [] c'.

(** All the matches of [r] in the text [rest] that follows [left], by
    starting position. *)
Fixpoint matches_from (r : regex) (left rest : str) : list mstate :=
  run r (mkState left rest []) ++
  match rest with
  | c :: rest' => matches_from r (c :: left) rest'
  | [] => []
  end.

End Matcher.

(** [re.search(r, text, flags)]; group 0 is the whole match. *)
Definition re_search (fl : flags) (r : regex) (text : str) : option mstate :=
  search_from fl (Group 0 r) [] text.

(** [re.match(r, text, flags)] *)
Definition re_match (fl : flags) (r : regex) (text : str) : option mstate :=
  hd_error (run fl (Group 0 r) (mkState [] text [])).

(* ================================================================== *)
(** * The patterns of the scripts *)
(* ================================================================== *)

Definition digit : atom := ASet is_digit09.
Definition ws : regex := Star (ASet is_space).

(** [[0-9]+(?:\.[0-9]+)?] *)
Definition NUM : regex := cat [Plus digit; Opt (cat [Lit (L "."); Plus digit])].

(** [ms|s|us] *)
Definition UNIT : regex := Alt (Lit (L "ms")) (Alt (Lit (L "s")) (Lit (L "us"))).

(** [[0-9]+(?:\.[0-9]+)?\s*(?:ms|s|us)?] *)
Definition DUR : regex := cat [NUM; ws; Opt UNIT].

Definition I_S : flags := mkFlags true true false.   (* re.IGNORECASE | re.DOTALL *)
Definition I_ : flags := mkFlags true false false.   (* re.IGNORECASE *)
Definition M_I : flags := mkFlags true false true.   (* re.MULTILINE | re.IGNORECASE *)

(** [AVG busy.*=\s*(NUM)\s*%.*avg idle\s*=\s*(NUM)\s*%.*over\s*([0-9]+)\s*samples] *)
Definition re_cpu_full : regex :=
  cat [Lit (L "AVG busy"); Star AAny; Lit (L "="); ws; Group 1 NUM; ws;
       Lit (L "%"); Star AAny; Lit (L "avg idle"); ws; Lit (L "="); ws;
       Group 2 NUM; ws; Lit (L "%"); Star AAny; Lit (L "over"); ws;
       Group 3 (Plus digit); ws; Lit (L "samples")].

(** [AVG busy.*=\s*(NUM)\s*%.*over\s*([0-9]+)\s*samples] *)
Definition re_cpu_noidle : regex :=
  cat [Lit (L "AVG busy"); Star AAny; Lit (L "="); ws; Group 1 NUM; ws;
       Lit (L "%"); Star AAny; Lit (L "over"); ws;
       Group 2 (Plus digit); ws; Lit (L "samples")].

(** [AVG busy.*=\s*(NUM)\s*%] *)
Definition re_cpu_min : regex :=
  cat [Lit (L "AVG busy"); Star AAny; Lit (L "="); ws; Group 1 NUM; ws;
       Lit (L "%")].

(** [avg idle\s*=\s*(NUM)\s*%] *)
Definition re_idle : regex :=
  cat [Lit (L "avg idle"); ws; Lit (L "="); ws; Group 1 NUM; ws; Lit (L "%")].

(** [([0-9]+(?:\.[0-9]+)?)\s*(ms|s|us)?] *)
Definition re_duration : regex := cat [Group 1 NUM; ws; Opt (Group 2 UNIT)].

(** [Requests/sec:\s*(NUM)] *)
Definition re_rps : regex := cat [Lit (L "Requests/sec:"); ws; Group 1 NUM].

(** [Transfer/sec:\s*(NUM)(\w+)?] *)
Definition re_transfer : regex :=
  cat [Lit (L "Transfer/sec:"); ws; Group 1 NUM;
       Opt (Group 2 (Plus (ASet is_word)))].

(** [^\s*P%\s+(DUR)] for a percentile [P] *)
Definition re_perc (perc : str) : regex :=
  cat [Bol; ws; Lit (perc ++ L "%"); Plus (ASet is_space); Group 1 DUR].

(** [50%[^\d]*(DUR)[^\n]*75%[^\d]*(DUR)[^\n]*90%[^\d]*(DUR)] *)
Definition re_inline : regex :=
  cat [Lit (L "50%"); Star (ASet not_d); Group 1 DUR; Star (ASet not_nl);
       Lit (L "75%"); Star (ASet not_d); Group 2 DUR; Star (ASet not_nl);
       Lit (L "90%"); Star (ASet not_d); Group 3 DUR].

(** [99%[^\d]*(DUR)] *)
Definition re_p99 : regex := cat [Lit (L "99%"); Star (ASet not_d); Group 1 DUR].

(** [Socket errors:[^\n]*] *)
Definition re_errors_line : regex :=
  cat [Lit (L "Socket errors:"); Star (ASet not_nl)].

(** [Socket errors:\s*([^\n]+)] *)
Definition re_errors_rest : regex :=
  cat [Lit (L "Socket errors:"); ws; Group 1 (Plus (ASet not_nl))].

(** [(?<!\d)(\d{2,5})(?!\d)] *)
Definition re_standalone_number : regex :=
  cat [NotBehind is_d; Group 1 (Rep (ASet is_d) 2 (Some 5)); NotAhead is_d].

(** [(\d{2,5})] *)
Definition re_number : regex := Group 1 (Rep (ASet is_d) 2 (Some 5)).

(** [c(\d+)] *)
Definition re_c_number : regex := cat [Lit (L "c"); Group 1 (Plus (ASet is_d))].

(** [len(m.groups())]: the number of capturing groups of the pattern. *)
Fixpoint ngroups (r : regex) : nat :=
  match r with
  | Opt r1 => ngroups r1
  | Alt r1 r2 | Seq r1 r2 => ngroups r1 + ngroups r2
  | Group _ r1 => S (ngroups r1)
  | _ => 0
  end.

Definition fmap {A B} (f : A -> B) (m : exc A) : exc B :=
  x <- m ;; Ret (f x).

(** [x or d] for a group [x]: [d] when the group is [None] or empty. *)
Definition or_else (x : option str) (d : str) : str :=
  match x with
  | Some (c :: w) => c :: w
  | _ => d
  end.

(** [x.strip()] where [x] is a group of a match. *)
Definition strip_of (x : option str) : exc str :=
  match x with
  | Some w => Ret (strip w)
  | None => Raise AttributeError
  end.

(** The metrics of one CPU log: the dictionary with the keys [busy],
    [idle] and [samples]. *)
Record cpu_metric := mkCpu {
  busy : option float;
  idle : option float;
  samples : option Z
}.

(** ** The shapes of the CPU logs *)

(** [w] is [p] up to the case of its letters. *)
Definition same_nocase (p w : str) : Prop := lit_eq I_ p w = true.

(** [w] consists of white space. *)
Definition spaces (w : str) : Prop := forallb is_space w = true.

(** The text embeds the richest pattern,
    [AVG busy ... = B % ... avg idle = I % ... over S samples],
    with any text before it, after it and at the three ellipses. *)
Definition cpu_full_text (text B I S : str) : Prop :=
  exists pre a n1 s1 s2 n2 b s3 s4 s5 n3 o s6 s7 e post,
    text = pre ++ a ++ n1 ++ L "=" ++ s1 ++ B ++ s2 ++ L "%" ++ n2
               ++ b ++ s3 ++ L "=" ++ s4 ++ I ++ s5 ++ L "%" ++ n3
               ++ o ++ s6 ++ S ++ s7 ++ e ++ post
    /\ same_nocase (L "AVG busy") a /\ same_nocase (L "avg idle") b
    /\ same_nocase (L "over") o /\ same_nocase (L "samples") e
    /\ spaces s1 /\ spaces s2 /\ spaces s3 /\ spaces s4 /\ spaces s5
    /\ spaces s6 /\ spaces s7
    /\ decimal B /\ decimal I /\ digits S.

(** An embedding of the richest pattern, with the text [pre] before it
    and the texts [n1], [n2] and [n3] at its three ellipses. *)
Definition cpu_full_embedding (text pre n1 n2 n3 B I S : str) : Prop :=
  exists a s1 s2 b s3 s4 s5 o s6 s7 e post,
    text = pre ++ a ++ n1 ++ L "=" ++ s1 ++ B ++ s2 ++ L "%" ++ n2
               ++ b ++ s3 ++ L "=" ++ s4 ++ I ++ s5 ++ L "%" ++ n3
               ++ o ++ s6 ++ S ++ s7 ++ e ++ post
    /\ same_nocase (L "AVG busy") a /\ same_nocase (L "avg idle") b
    /\ same_nocase (L "over") o /\ same_nocase (L "samples") e
    /\ spaces s1 /\ spaces s2 /\ spaces s3 /\ spaces s4 /\ spaces s5
    /\ spaces s6 /\ spaces s7
    /\ decimal B /\ decimal I /\ digits S.

(** The embedding that a search prefers to every other: it starts first
    and, among those that start there, has the longest first ellipsis,
    then the longest second one, then the longest third one. *)
Definition preferred (text pre n1 n2 n3 : str) : Prop :=
  forall pre' n1' n2' n3' B' I' S',
    cpu_full_embedding text pre' n1' n2' n3' B' I' S' ->
    length pre < length pre'
    \/ (length pre' = length pre
        /\ (length n1' < length n1
            \/ (length n1' = length n1
                /\ (length n2' < length n2
                    \/ (length n2' = length n2
                        /\ length n3' <= length n3))))).

(** The parts of the richest pattern: [=\s*(NUM)\s*%] followed by [r],
    and what follows the third, the second and the first [.*]. *)
Definition num_segment (n : nat) (r : regex) : regex :=
  Seq (Lit (L "=")) (Seq ws (Seq (Group n NUM) (Seq ws (Seq (Lit (L "%")) r)))).

Definition cpu_after3 : regex :=
  cat [Lit (L "over"); ws; Group 3 (Plus digit); ws; Lit (L "samples")].

Definition cpu_after2 : regex :=
  Seq (Lit (L "avg idle"))
      (Seq ws (num_segment 2 (Seq (Star AAny) cpu_after3))).

Definition cpu_after1 : regex := num_segment 1 (Seq (Star AAny) cpu_after2).

(** The text embeds [avg idle = I %]. *)
Definition idle_text (text I : str) : Prop :=
  exists pre a s1 s2 s3 post,
    text = pre ++ a ++ s1 ++ L "=" ++ s2 ++ I ++ s3 ++ L "%" ++ post
    /\ same_nocase (L "avg idle") a
    /\ spaces s1 /\ spaces s2 /\ spaces s3 /\ decimal I.

(** The spellings of the units of a duration. *)
Definition unit_spellings : list str :=
  [L "ms"; L "mS"; L "Ms"; L "MS"; L "s"; L "S";
   L "us"; L "uS"; L "Us"; L "US"].

(** The usual line of a CPU log. *)
Definition cpu_line : str :=
  L "AVG busy (all cpus) = 11.75 % (avg idle=88.25%) over 1990 samples".

(** The record of the first of the three patterns of the busy percentage
    that matches; the second and the third are searched with the flags
    [f]. *)
Definition busy_record (f : flags) (text : str) : option cpu_metric :=
  match re_search I_S re_cpu_full text with
  | Some m =>
      Some (mkCpu (option_map number_value (group m 1))
                  (option_map number_value (group m 2))
                  (option_map digits_value (group m 3)))
  | None =>
  match re_search f re_cpu_noidle text with
  | Some m =>
      Some (mkCpu (option_map number_value (group m 1)) None
                  (option_map digits_value (group m 2)))
  | None =>
  match re_search f re_cpu_min text with
  | Some m => Some (mkCpu (option_map number_value (group m 1)) None None)
  | None => None
  end end end.

(** The sample count that the first or the second pattern captures, the
    second being searched with the flags [f]. *)
Definition samples_group (f : flags) (text : str) : option str :=
  match re_search I_S re_cpu_full text with
  | Some m => group m 3
  | None =>
      match re_search f re_cpu_noidle text with
      | Some m => group m 2
      | None => None
      end
  end.

(* ================================================================== *)
(** * The extractors of [analyze_results.py] *)
(* ================================================================== *)

Module AnalyzeResults.

Definition patterns : list regex := [re_cpu_full; re_cpu_noidle; re_cpu_min].

(** The loop [for pat in patterns] of [parse_avg_cpu_file], followed by
    the search for the idle percentage alone. *)
Fixpoint parse_avg_cpu_loop (pats : list regex) (text : str)
  : exc (option cpu_metric) :=
  match pats with
  | pat :: pats' =>
      match re_search I_S pat text with
      | Some m =>
          if ngroups pat =? 3 then
            b <- float_of (group m 1) ;;
            i <- float_of (group m 2) ;;
            s <- int_of (group m 3) ;;
            Ret (Some (mkCpu (Some b) (Some i) (Some s)))
          else if ngroups pat =? 2 then
            b <- float_of (group m 1) ;;
            s <- int_of (group m 2) ;;
            Ret (Some (mkCpu (Some b) None (Some s)))
          else
            b <- float_of (group m 1) ;;
            Ret (Some (mkCpu (Some b) None None))
      | None => parse_avg_cpu_loop pats' text
      end
  | [] =>
      match re_search I_ re_idle text with
      | Some m2 =>
          i <- float_of (group m2 1) ;;
          Ret (Some (mkCpu None (Some i) None))
      | None => Ret None
      end
  end.

(** [parse_avg_cpu_file], on the text of the file. *)
Definition parse_avg_cpu_file (text : str) : exc (option cpu_metric) :=
  parse_avg_cpu_loop patterns text.

Definition convert_to_seconds (val_str : option str) : exc (option float) :=
  match val_str with
  | None => Ret None
  | Some v =>
      let v := strip v in
      match re_match I_ re_duration v with
      | None => Ret (try_except (fmap Some (py_float v)) None)
      | Some m =>
          val <- float_of (group m 1) ;;
          let unit := lower (or_else (group m 2) (L "s")) in
          if str_eqb unit (L "ms") then
            Ret (Some (fdiv val (float_of_Z 1000)))
          else if str_eqb unit (L "us") then
            Ret (Some (fdiv val (float_of_Z 1000000)))
          else Ret (Some val)
      end
  end.

(** The dictionary [res] of [parse_wrk_file]. *)
Record wrk_metric := mkWrk {
  requests_per_sec : option float;
  p50 : option float;
  p75 : option float;
  p90 : option float;
  p99 : option float;
  raw_errors : option str
}.

Definition set_requests_per_sec v r :=
  mkWrk v (p50 r) (p75 r) (p90 r) (p99 r) (raw_errors r).
Definition set_p50 v r :=
  mkWrk (requests_per_sec r) v (p75 r) (p90 r) (p99 r) (raw_errors r).
Definition set_p75 v r :=
  mkWrk (requests_per_sec r) (p50 r) v (p90 r) (p99 r) (raw_errors r).
Definition set_p90 v r :=
  mkWrk (requests_per_sec r) (p50 r) (p75 r) v (p99 r) (raw_errors r).
Definition set_p99 v r :=
  mkWrk (requests_per_sec r) (p50 r) (p75 r) (p90 r) v (raw_errors r).
Definition set_raw_errors v r :=
  mkWrk (requests_per_sec r) (p50 r) (p75 r) (p90 r) (p99 r) v.

(** [res['p' + perc] = val] *)
Definition set_percentile (perc : str) (val : option float) (r : wrk_metric)
  : wrk_metric :=
  let key := L "p" ++ perc in
  if str_eqb key (L "p50") then set_p50 val r
  else if str_eqb key (L "p75") then set_p75 val r
  else if str_eqb key (L "p90") then set_p90 val r
  else if str_eqb key (L "p99") then set_p99 val r
  else r.

(** The loop [for perc in ('50','75','90','99')]. *)
Fixpoint percentile_loop (percs : list str) (text : str) (res : wrk_metric)
  : exc wrk_metric :=
  match percs with
  | perc :: percs' =>
      match re_search M_I (re_perc perc) text with
      | Some mm =>
          val <- convert_to_seconds (group mm 1) ;;
          percentile_loop percs' text (set_percentile perc val res)
      | None => percentile_loop percs' text res
      end
  | [] => Ret res
  end.

(** The search for [Requests/sec:]. *)
Definition step_requests (text : str) (res : wrk_metric) : exc wrk_metric :=
  match re_search no_flags re_rps text with
  | Some m =>
      v <- float_of (group m 1) ;;
      Ret (set_requests_per_sec (Some v) res)
  | None => Ret res
  end.

(** The seconds of a captured duration, [None] when there is none. *)
Definition seconds_of (v : option str) : option float :=
  try_except (convert_to_seconds v) None.

(** The value of the percentile [perc] found at the start of a line, or
    [old] when no line starts with it. *)
Definition per_line (text perc : str) (old : option float) : option float :=
  match re_search M_I (re_perc perc) text with
  | Some mm => seconds_of (group mm 1)
  | None => old
  end.

(** The inline pattern with the three percentiles on one line. *)
Definition step_inline (text : str) (res : wrk_metric) : exc wrk_metric :=
  match re_search I_ re_inline text with
  | Some inline =>
      v50 <- convert_to_seconds (group inline 1) ;;
      v75 <- convert_to_seconds (group inline 2) ;;
      v90 <- convert_to_seconds (group inline 3) ;;
      Ret (set_p90 v90 (set_p75 v75 (set_p50 v50 res)))
  | None => Ret res
  end.

(** The separate search for [99%]. *)
Definition step_p99 (text : str) (res : wrk_metric) : exc wrk_metric :=
  match re_search I_ re_p99 text with
  | Some m99 =>
      v99 <- convert_to_seconds (group m99 1) ;;
      Ret (set_p99 v99 res)
  | None => Ret res
  end.

(** The search for the socket errors. *)
Definition step_errors (text : str) (res : wrk_metric) : exc wrk_metric :=
  match re_search no_flags re_errors_line text with
  | Some m_err =>
      e <- strip_of (group m_err 0) ;;
      Ret (set_raw_errors (Some e) res)
  | None => Ret res
  end.

Definition percentiles : list str := [L "50"; L "75"; L "90"; L "99"].

(** [parse_wrk_file], on the text of the file: the steps in the order of
    the source. *)
Definition parse_wrk_file (text : str) : exc wrk_metric :=
  let res := mkWrk None None None None None None in
  res <- step_requests text res ;;
  res <- percentile_loop percentiles text res ;;
  res <- step_inline text res ;;
  res <- step_p99 text res ;;
  step_errors text res.

End AnalyzeResults.

(* ================================================================== *)
(** * The extractors of [analyze_results_report.py] *)
(* ================================================================== *)

Module AnalyzeResultsReport.

(** [parse_avg_cpu_file], on the text of the file. *)
Definition parse_avg_cpu_file (text : str) : exc (option cpu_metric) :=
  match re_search I_S re_cpu_full text with
  | Some m =>
      b <- float_of (group m 1) ;;
      i <- float_of (group m 2) ;;
      s <- int_of (group m 3) ;;
      Ret (Some (mkCpu (Some b) (Some i) (Some s)))
  | None =>
  match re_search I_ re_cpu_noidle text with
  | Some m2 =>
      b <- float_of (group m2 1) ;;
      s <- int_of (group m2 2) ;;
      Ret (Some (mkCpu (Some b) None (Some s)))
  | None =>
  match re_search I_ re_cpu_min text with
  | Some m3 =>
      b <- float_of (group m3 1) ;;
      Ret (Some (mkCpu (Some b) None None))
  | None =>
  match re_search I_ re_idle text with
  | Some m4 =>
      i <- float_of (group m4 1) ;;
      let b := round2 (fsub (float_of_Z 100) i) in
      Ret (Some (mkCpu (Some b) (Some i) None))
  | None => Ret None
  end end end end.

Definition convert_to_seconds (val_str : option str) : exc (option float) :=
  match val_str with
  | None => Ret None
  | Some v =>
      let s := lower (strip v) in
      match re_match no_flags re_duration s with
      | None => Ret (try_except (fmap Some (py_float s)) None)
      | Some m =>
          val <- float_of (group m 1) ;;
          let unit := or_else (group m 2) (L "s") in
          if str_eqb unit (L "ms") then
            Ret (Some (fdiv val (float_of_Z 1000)))
          else if str_eqb unit (L "us") then
            Ret (Some (fdiv val (float_of_Z 1000000)))
          else Ret (Some val)
      end
  end.

(** The dictionary [res] of [parse_wrk_file]. *)
Record wrk_metric := mkWrk {
  requests_per_sec : option float;
  p50 : option float;
  p75 : option float;
  p90 : option float;
  p99 : option float;
  socket_errors : option str;
  transfer_per_sec : option float
}.

Definition set_requests_per_sec v r :=
  mkWrk v (p50 r) (p75 r) (p90 r) (p99 r) (socket_errors r)
        (transfer_per_sec r).
Definition set_p50 v r :=
  mkWrk (requests_per_sec r) v (p75 r) (p90 r) (p99 r) (socket_errors r)
        (transfer_per_sec r).
Definition set_p75 v r :=
  mkWrk (requests_per_sec r) (p50 r) v (p90 r) (p99 r) (socket_errors r)
        (transfer_per_sec r).
Definition set_p90 v r :=
  mkWrk (requests_per_sec r) (p50 r) (p75 r) v (p99 r) (socket_errors r)
        (transfer_per_sec r).
Definition set_p99 v r :=
  mkWrk (requests_per_sec r) (p50 r) (p75 r) (p90 r) v (socket_errors r)
        (transfer_per_sec r).
Definition set_socket_errors v r :=
  mkWrk (requests_per_sec r) (p50 r) (p75 r) (p90 r) (p99 r) v
        (transfer_per_sec r).
Definition set_transfer_per_sec v r :=
  mkWrk (requests_per_sec r) (p50 r) (p75 r) (p90 r) (p99 r)
        (socket_errors r) v.

(** [res['p' + perc] = val] *)
Definition set_percentile (perc : str) (val : option float) (r : wrk_metric)
  : wrk_metric :=
  let key := L "p" ++ perc in
  if str_eqb key (L "p50") then set_p50 val r
  else if str_eqb key (L "p75") then set_p75 val r
  else if str_eqb key (L "p90") then set_p90 val r
  else if str_eqb key (L "p99") then set_p99 val r
  else r.

(** The loop [for perc in ('50','75','90','99')]. *)
Fixpoint percentile_loop (percs : list str) (text : str) (res : wrk_metric)
  : exc wrk_metric :=
  match percs with
  | perc :: percs' =>
      match re_search M_I (re_perc perc) text with
      | Some mm =>
          val <- convert_to_seconds (group mm 1) ;;
          percentile_loop percs' text (set_percentile perc val res)
      | None => percentile_loop percs' text res
      end
  | [] => Ret res
  end.

(** [unit in (a, b)] *)
Definition unit_in (unit a b : str) : bool := str_eqb unit a || str_eqb unit b.

(** The search for [Requests/sec:]. *)
Definition step_requests (text : str) (res : wrk_metric) : exc wrk_metric :=
  match re_search no_flags re_rps text with
  | Some m =>
      v <- float_of (group m 1) ;;
      Ret (set_requests_per_sec (Some v) res)
  | None => Ret res
  end.

(** The seconds of a captured duration, [None] when there is none. *)
Definition seconds_of (v : option str) : option float :=
  try_except (convert_to_seconds v) None.

(** The value of the percentile [perc] found at the start of a line, or
    [old] when no line starts with it. *)
Definition per_line (text perc : str) (old : option float) : option float :=
  match re_search M_I (re_perc perc) text with
  | Some mm => seconds_of (group mm 1)
  | None => old
  end.

(** The transfer rate in kilobytes that [step_transfer] sets. *)
Definition transfer_value (m2 : mstate) : option float :=
  let val := option_map number_value (group m2 1) in
  let unit := lower (or_else (group m2 2) []) in
  if unit_in unit (L "kb") (L "k") then val
  else if unit_in unit (L "mb") (L "m") then
    option_map (fun v => fmul v (float_of_Z 1024)) val
  else val.

(** The search for [Transfer/sec:], in kilobytes. *)
Definition step_transfer (text : str) (res : wrk_metric) : exc wrk_metric :=
  match re_search no_flags re_transfer text with
  | Some m2 =>
      val <- float_of (group m2 1) ;;
      let unit := lower (or_else (group m2 2) []) in
      if unit_in unit (L "kb") (L "k") then
        Ret (set_transfer_per_sec (Some val) res)
      else if unit_in unit (L "mb") (L "m") then
        Ret (set_transfer_per_sec (Some (fmul val (float_of_Z 1024))) res)
      else Ret (set_transfer_per_sec (Some val) res)
  | None => Ret res
  end.

(** The inline pattern with the three percentiles on one line. *)
Definition step_inline (text : str) (res : wrk_metric) : exc wrk_metric :=
  match re_search I_ re_inline text with
  | Some inline =>
      v50 <- convert_to_seconds (group inline 1) ;;
      v75 <- convert_to_seconds (group inline 2) ;;
      v90 <- convert_to_seconds (group inline 3) ;;
      Ret (set_p90 v90 (set_p75 v75 (set_p50 v50 res)))
  | None => Ret res
  end.

(** The search for the socket errors. *)
Definition step_errors (text : str) (res : wrk_metric) : exc wrk_metric :=
  match re_search no_flags re_errors_rest text with
  | Some m_err =>
      e <- strip_of (group m_err 1) ;;
      Ret (set_socket_errors (Some e) res)
  | None => Ret res
  end.

Definition percentiles : list str := [L "50"; L "75"; L "90"; L "99"].

(** [parse_wrk_file], on the text of the file: the steps in the order of
    the source. *)
Definition parse_wrk_file (text : str) : exc wrk_metric :=
  let res := mkWrk None None None None None None None in
  res <- step_requests text res ;;
  res <- step_transfer text res ;;
  res <- percentile_loop percentiles text res ;;
  res <- step_inline text res ;;
  step_errors text res.

End AnalyzeResultsReport.

(* ================================================================== *)
(** * The directory tree *)
(* ================================================================== *)

(** What a path of a run directory refers to: a regular file with its
    text, a directory, or a symbolic link without target. *)
Inductive node :=
| File (content : str)
| Directory
| Dangling.

(** An entry of a run directory, as listed by [run_dir.iterdir()]. *)
Record entry := mkEntry { name : str; target : node }.

Definition is_file (f : entry) : bool :=
  match target f with File _ => true | _ => false end.

Definition exists_ (f : entry) : bool :=
  match target f with Dangling => false | _ => true end.

(** [Path(path).read_text(errors='ignore')] *)
Definition read_text (f : entry) : exc str :=
  match target f with
  | File content => Ret content
  | _ => Raise IsADirectoryError
  end.

(** An entry of the root or of a scenario directory: a subdirectory with
    its listing, or anything else. *)
Inductive child (A : Type) : Type :=
| SubDir (n : str) (listing : A)
| NotDir (n : str).
Arguments SubDir {A} n listing.
Arguments NotDir {A} n.

Definition child_name {A} (c : child A) : str :=
  match c with SubDir n _ => n | NotDir n => n end.

Definition run_listing := list entry.
Definition scenario_listing := list (child run_listing).
Definition root_listing := list (child scenario_listing).

(** [sorted(d.iterdir())]: the entries of one directory by name. *)
Fixpoint insert_sorted {A} (c : child A) (l : list (child A)) : list (child A) :=
  match l with
  | [] => [c]
  | d :: l' =>
      if str_ltb (child_name c) (child_name d) then c :: l
      else d :: insert_sorted c l'
  end.

Definition sorted {A} (l : list (child A)) : list (child A) :=
  fold_right insert_sorted [] l.

(** ** Paths

    A path of [pathlib] on a POSIX system: its anchor, which is [/], [//]
    or empty, and its components. *)
Record posix_path := mkPath { anchor : str; parts : list str }.

Definition slash : ascii := "/"%char.

(** [s.split(sep)] for a separator of one character. *)
Fixpoint split_on (sep : ascii) (s : str) : list str :=
  match s with
  | [] => [[]]
  | c :: s' =>
      if Ascii.eqb c sep then [] :: split_on sep s'
      else match split_on sep s' with
           | p :: ps => (c :: p) :: ps
           | [] => [[c]]
           end
  end.

(** [sep.join(l)] *)
Fixpoint join_with (sep : str) (l : list str) : str :=
  match l with
  | [] => []
  | p :: ps =>
      match ps with
      | [] => p
      | _ :: _ => p ++ sep ++ join_with sep ps
      end
  end.

(** [s.lstrip('/')] *)
Fixpoint lstrip_slashes (s : str) : str :=
  match s with
  | c :: s' => if Ascii.eqb c slash then lstrip_slashes s' else s
  | [] => []
  end.

(** [Path(s)]: two leading slashes exactly are kept as the anchor [//],
    any other number of them is the anchor [/]; the empty components and
    the components [.] are dropped. *)
Definition Path (s : str) : posix_path :=
  let stripped := lstrip_slashes s in
  let n := length s - length stripped in
  mkPath (if n =? 0 then [] else if n =? 2 then L "//" else L "/")
         (filter (fun x => negb (str_eqb x []) && negb (str_eqb x (L ".")))
                 (split_on slash stripped)).

(** [str(p)] *)
Definition path_str (p : posix_path) : str :=
  match anchor p ++ join_with (L "/") (parts p) with
  | [] => L "."
  | c :: s => c :: s
  end.

(** [p / n] for an entry [n] of the directory [p], as [p.iterdir()] makes
    it: the name is one more component. *)
Definition joinpath (p : posix_path) (n : str) : posix_path :=
  mkPath (anchor p) (parts p ++ [n]).

(** [Path.suffix]: the part of the name from its last dot, unless the dot
    is the first or the last character. *)
Fixpoint rfind_dot (s : str) (i : nat) (found : option nat) : option nat :=
  match s with
  | [] => found
  | c :: s' => rfind_dot s' (S i) (if Ascii.eqb c "." then Some i else found)
  end.

Definition suffix (n : str) : str :=
  match rfind_dot n 0 None with
  | Some i => if (0 <? i) && (i <? length n - 1) then skipn i n else []
  | None => []
  end.

(** [int(m.group(1))] of the first match of [r] in the name [n]. *)
Definition number_in (r : regex) (n : str) : option (exc Z) :=
  match re_search no_flags r n with
  | Some m => Some (int_of (group m 1))
  | None => None
  end.

(** [num in (c1, c2, ...)] *)
Definition num_in (num : Z) (l : list Z) : bool := existsb (Z.eqb num) l.







(** A tree with two runs of one scenario: the first holds a directory
    named like a CPU file and no load-test file, the second the usual
    three files. *)
Definition tree_with_cpu_directory : root_listing :=
  [SubDir (L "INJ_WEB")
     [SubDir (L "run 1") [mkEntry (L "summary_ips") Directory];
      SubDir (L "run 2")
        [mkEntry (L "AVG_CPU_ips_500.txt") (File cpu_line);
         mkEntry (L "AVG_CPU_waf_500.txt") (File cpu_line);
         mkEntry (L "wrk_via_waf_c500.txt") (File (L "Requests/sec: 523.40"))]]].


(** ** Slots and concurrency, as the specification words them *)



(** The number that the pattern [r] finds in a name. *)
Definition name_number (r : regex) (n : str) : option Z :=
  match re_search no_flags r n with
  | Some m => option_map digits_value (group m 1)
  | None => None
  end.

(** A number is accepted as a concurrency when it is one of the canonical
    values or is greater than 100. *)
Definition accepted (canon : list Z) (num : Z) : bool :=
  num_in num canon || (100 <? num)%Z.

(** The standalone numbers of the names of a listing, one per name that
    has one. *)
Definition standalone_numbers (files : run_listing) : list Z :=
  flat_map (fun f =>
              match name_number re_standalone_number (name f) with
              | Some n => [n]
              | None => []
              end) files.

(** The concurrency of a run as the specification derives it: the first
    accepted standalone number of the names, then the number in the name
    of the CPU file, then the [c<digits>] of the name of the load-test
    file. *)
Definition spec_concurrency (canon : list Z) (files : run_listing)
           (cpu_file wrk_file : option entry) : option Z :=
  match find (accepted canon) (standalone_numbers files) with
  | Some c => Some c
  | None =>
      match cpu_file with
      | Some f =>
          match name_number re_number (name f) with
          | Some c => Some c
          | None =>
              match wrk_file with
              | Some f => name_number re_c_number (name f)
              | None => None
              end
          end
      | None =>
          match wrk_file with
          | Some f => name_number re_c_number (name f)
          | None => None
          end
      end
  end.

(** The digits of the [c<digits>] of the name of the load-test file are
    too many for [int]. *)
Definition c_number_over_limit (wrk_file : option entry) : bool :=
  match wrk_file with
  | Some f =>
      match re_search no_flags re_c_number (name f) with
      | Some m => over_limit (group m 1)
      | None => false
      end
  | None => false
  end.

(** The derivation of the concurrency reaches its last step, the name of
    the load-test file. *)
Definition reaches_wrk_name (canon : list Z) (files : run_listing)
           (cpu_file : option entry) : bool :=
  match find (accepted canon) (standalone_numbers files) with
  | Some _ => false
  | None =>
      match cpu_file with
      | Some f =>
          match name_number re_number (name f) with
          | Some _ => false
          | None => true
          end
      | None => true
      end
  end.

(* ================================================================== *)
(** * The walk of [analyze_results.py] *)
(* ================================================================== *)

Module Collect.
Import AnalyzeResults.

(** One row of the table: the dictionary [data]. *)
Record row := mkRow {
  scenario : str;
  run : str;
  concurrency : option Z;
  path : str;
  avg_busy_ips : option float;
  avg_idle_ips : option float;
  avg_busy_waf : option float;
  avg_idle_waf : option float;
  samples_ips : option Z;
  samples_waf : option Z;
  requests_per_sec : option float;
  p50 : option float;
  p75 : option float;
  p90 : option float;
  p99 : option float;
  raw_errors : option str
}.

(** The first loop: the first file with [wrk] in its name and the
    extension [.txt] or [.log]. *)
Fixpoint find_wrk (files : run_listing) : option entry :=
  match files with
  | f :: files' =>
      if is_file f && contains (L "wrk") (name f)
         && (str_eqb (suffix (name f)) (L ".txt")
             || str_eqb (suffix (name f)) (L ".log"))
      then Some f
      else find_wrk files'
  | [] => None
  end.

(** A loop that assigns [avg_ips] and [avg_waf] from the files whose
    lowercased names start with the two prefixes. *)
Fixpoint find_cpu (p_ips p_waf : str) (files : run_listing)
         (avg : option entry * option entry) : option entry * option entry :=
  match files with
  | f :: files' =>
      let avg_ips :=
        if is_file f && startswith p_ips (lower (name f))
        then Some f else fst avg in
      let avg_waf :=
        if is_file f && startswith p_waf (lower (name f))
        then Some f else snd avg in
      find_cpu p_ips p_waf files' (avg_ips, avg_waf)
  | [] => avg
  end.

(** The two loops over the CPU files: [avg_cpu_*] and then [summary_*]. *)
Definition cpu_files (files : run_listing) : option entry * option entry :=
  find_cpu (L "summary_ips") (L "summary_waf") files
    (find_cpu (L "avg_cpu_ips") (L "avg_cpu_waf") files (None, None)).

(** The candidates of the load-test slot and of a CPU slot. *)
Definition wrk_candidate (f : entry) : bool :=
  is_file f && contains (L "wrk") (name f)
  && (str_eqb (suffix (name f)) (L ".txt")
      || str_eqb (suffix (name f)) (L ".log")).

Definition cpu_candidate (prefix : str) (f : entry) : bool :=
  is_file f && startswith prefix (lower (name f)).

Definition canonical : list Z := [50; 100; 200; 300; 500; 1000; 2000; 4000]%Z.

(** The loop of the concurrency detection over the file names. *)
Fixpoint scan_names (files : run_listing) : exc (option Z) :=
  match files with
  | f :: files' =>
      match number_in re_standalone_number (name f) with
      | Some n =>
          num <- n ;;
          if num_in num canonical || (100 <=? num)%Z
          then Ret (Some num)
          else scan_names files'
      | None => scan_names files'
      end
  | [] => Ret None
  end.

(** The concurrency of a run: the scan of the names, then the name of
    the IPS file, then the [c<digits>] of the name of the wrk file. *)
Definition detect_concurrency (files : run_listing)
           (avg_ips wrk_file : option entry) : exc (option Z) :=
  concurrency <- scan_names files ;;
  concurrency <-
    match concurrency, avg_ips with
    | None, Some f =>
        match number_in re_number (name f) with
        | Some n => num <- n ;; Ret (Some num)
        | None => Ret concurrency
        end
    | _, _ => Ret concurrency
    end ;;
  match concurrency, wrk_file with
  | None, Some f =>
      match number_in re_c_number (name f) with
      | Some n => num <- n ;; Ret (Some num)
      | None => Ret concurrency
      end
  | _, _ => Ret concurrency
  end.

(** The metrics of one CPU file and what it appends to [missing]. *)
Definition cpu_of (run_dir : posix_path) (pattern : str) (f : option entry)
  : exc (option cpu_metric * list str) :=
  match f with
  | Some f =>
      text <- read_text f ;;
      parsed <- parse_avg_cpu_file text ;;
      match parsed with
      | Some p => Ret (Some p, [])
      | None => Ret (None, [path_str (joinpath run_dir (name f))])
      end
  | None => Ret (None, [path_str run_dir ++ pattern])
  end.

Definition get {A} (p : option cpu_metric) (field : cpu_metric -> option A)
  : option A :=
  match p with Some m => field m | None => None end.

(** The body of the loop over the run directories: the row of the run
    and the entries it appends to [missing]. *)
Definition collect_run (scenario : str) (run_dir : posix_path) (runname : str)
           (files : run_listing) : exc (row * list str) :=
  let wrk_file := find_wrk files in
  let '(avg_ips, avg_waf) := cpu_files files in
  concurrency <- detect_concurrency files avg_ips wrk_file ;;
  '(ips, missing_ips) <- cpu_of run_dir (L "/AVG_CPU_ips_*.txt") avg_ips ;;
  '(waf, missing_waf) <- cpu_of run_dir (L "/AVG_CPU_waf_*.txt") avg_waf ;;
  '(w, missing_wrk) <-
    match wrk_file with
    | Some f =>
        text <- read_text f ;;
        parsed <- parse_wrk_file text ;;
        Ret (Some parsed, [])
    | None => Ret (None, [path_str run_dir ++ L "/*wrk*.txt"])
    end ;;
  let getw {A} (field : wrk_metric -> option A) : option A :=
    match w with Some m => field m | None => None end in
  Ret (mkRow scenario runname concurrency (path_str run_dir)
             (get ips busy) (get ips idle) (get waf busy) (get waf idle)
             (get ips samples) (get waf samples)
             (getw AnalyzeResults.requests_per_sec)
             (getw AnalyzeResults.p50) (getw AnalyzeResults.p75)
             (getw AnalyzeResults.p90) (getw AnalyzeResults.p99)
             (getw AnalyzeResults.raw_errors),
       missing_ips ++ missing_waf ++ missing_wrk).

(** The loop over the entries of a scenario directory. *)
Fixpoint collect_runs (scenario : str) (scenario_dir : posix_path)
         (runs : scenario_listing) (acc : list row * list str)
  : exc (list row * list str) :=
  match runs with
  | SubDir runname files :: runs' =>
      '(data, missing) <-
        collect_run scenario (joinpath scenario_dir runname) runname files ;;
      collect_runs scenario scenario_dir runs'
                   (fst acc ++ [data], snd acc ++ missing)
  | NotDir _ :: runs' => collect_runs scenario scenario_dir runs' acc
  | [] => Ret acc
  end.

(** The loop over the entries of the root. *)
Fixpoint collect_scenarios (root : posix_path) (scenarios : root_listing)
         (acc : list row * list str) : exc (list row * list str) :=
  match scenarios with
  | SubDir scenario runs :: scenarios' =>
      acc' <- collect_runs scenario (joinpath root scenario) (sorted runs) acc ;;
      collect_scenarios root scenarios' acc'
  | NotDir _ :: scenarios' => collect_scenarios root scenarios' acc
  | [] => Ret acc
  end.

(** [collect_results]: the rows of the table and the list [missing];
    [root_path] is parsed by [Path(root_path)]. *)
Definition collect_results (root_path : str) (tree : root_listing)
  : exc (list row * list str) :=
  collect_scenarios (Path root_path) (sorted tree) ([], []).

End Collect.


(* ================================================================== *)
(** * The walk and the ordering of [analyze_results_report.py] *)
(* ================================================================== *)

Module CollectReport.
Import AnalyzeResultsReport.

Section Walk.
(** The description of a scenario, [SCENARIO_DESCRIPTIONS.get(scenario,
    describe_scenario(scenario))], is a text with characters above 255;
    no property below depends on it and it is kept abstract. *)
Variable description : Type.
Variable scenario_description : str -> description.

(** One row of the table: the dictionary [data]. *)
Record row := mkRow {
  scenario : str;
  scenario_desc : description;
  run : str;
  concurrency : option Z;
  path : str;
  avg_busy_ips : option float;
  avg_idle_ips : option float;
  samples_ips : option Z;
  avg_busy_waf : option float;
  avg_idle_waf : option float;
  samples_waf : option Z;
  requests_per_sec : option float;
  p50 : option float;
  p75 : option float;
  p90 : option float;
  p99 : option float;
  socket_errors : option str;
  transfer_per_sec : option float;
  wrk_file : option str
}.

(** The first loop: the first file with [wrk] in its lowercased name. *)
Fixpoint find_wrk (files : run_listing) : option entry :=
  match files with
  | f :: files' =>
      if is_file f && contains (L "wrk") (lower (name f))
      then Some f
      else find_wrk files'
  | [] => None
  end.

(** The loop that assigns [avg_ips] and [avg_waf]. *)
Fixpoint find_cpu (files : run_listing)
         (avg : option entry * option entry)
  : option entry * option entry :=
  match files with
  | f :: files' =>
      let n := lower (name f) in
      let avg_ips :=
        if contains (L "avg_cpu_ips") n || contains (L "summary_ips") n
        then Some f else fst avg in
      let avg_waf :=
        if contains (L "avg_cpu_waf") n || contains (L "summary_waf") n
        then Some f else snd avg in
      find_cpu files' (avg_ips, avg_waf)
  | [] => avg
  end.

Definition cpu_files (files : run_listing) : option entry * option entry :=
  find_cpu files (None, None).

(** The candidates of the load-test slot and of the CPU slot of a role. *)
Definition wrk_candidate (f : entry) : bool :=
  is_file f && contains (L "wrk") (lower (name f)).

Definition cpu_candidate (role : str) (f : entry) : bool :=
  contains (L "avg_cpu_" ++ role) (lower (name f))
  || contains (L "summary_" ++ role) (lower (name f)).

Definition canonical : list Z := [50; 100; 200; 300; 500; 1000; 2000]%Z.

(** The loop of the concurrency detection over the file names. *)
Fixpoint scan_names (files : run_listing) : exc (option Z) :=
  match files with
  | f :: files' =>
      match number_in re_standalone_number (name f) with
      | Some n =>
          num <- n ;;
          if num_in num canonical || (100 <? num)%Z
          then Ret (Some num)
          else scan_names files'
      | None => scan_names files'
      end
  | [] => Ret None
  end.

(** The concurrency of a run: the scan of the names, then the
    [c<digits>] of the name of the wrk file. *)
Definition detect_concurrency (files : run_listing)
           (wrk : option entry) : exc (option Z) :=
  concurrency <- scan_names files ;;
  match concurrency, wrk with
  | None, Some f =>
      match number_in re_c_number (name f) with
      | Some n => num <- n ;; Ret (Some num)
      | None => Ret concurrency
      end
  | _, _ => Ret concurrency
  end.

(** The metrics of one CPU file and what it appends to [missing]. *)
Definition cpu_of (run_dir : posix_path) (pattern : str) (f : option entry)
  : exc (option cpu_metric * list str) :=
  match f with
  | Some f =>
      if exists_ f then
        text <- read_text f ;;
        p <- parse_avg_cpu_file text ;;
        match p with
        | Some p => Ret (Some p, [])
        | None => Ret (None, [path_str (joinpath run_dir (name f))])
        end
      else Ret (None, [path_str run_dir ++ pattern])
  | None => Ret (None, [path_str run_dir ++ pattern])
  end.

Definition get {A} (p : option cpu_metric) (field : cpu_metric -> option A)
  : option A :=
  match p with Some m => field m | None => None end.

(** The body of the loop over the run directories: the row of the run
    and the entries it appends to [missing]. *)
Definition collect_run (scenario : str) (run_dir : posix_path) (runname : str)
           (files : run_listing) : exc (row * list str) :=
  let wrk := find_wrk files in
  let '(avg_ips, avg_waf) := cpu_files files in
  concurrency <- detect_concurrency files wrk ;;
  '(ips, missing_ips) <- cpu_of run_dir (L "/AVG_CPU_ips_*.txt") avg_ips ;;
  '(waf, missing_waf) <- cpu_of run_dir (L "/AVG_CPU_waf_*.txt") avg_waf ;;
  '(w, missing_wrk) <-
    match wrk with
    | Some f =>
        if exists_ f then
          text <- read_text f ;;
          w <- parse_wrk_file text ;;
          Ret (Some w, [])
        else Ret (None, [path_str run_dir ++ L "/*wrk*.txt"])
    | None => Ret (None, [path_str run_dir ++ L "/*wrk*.txt"])
    end ;;
  let getw {A} (field : wrk_metric -> option A) : option A :=
    match w with Some m => field m | None => None end in
  Ret (mkRow scenario (scenario_description scenario) runname concurrency
             (path_str run_dir)
             (get ips busy) (get ips idle) (get ips samples)
             (get waf busy) (get waf idle) (get waf samples)
             (getw AnalyzeResultsReport.requests_per_sec)
             (getw AnalyzeResultsReport.p50)
             (getw AnalyzeResultsReport.p75)
             (getw AnalyzeResultsReport.p90)
             (getw AnalyzeResultsReport.p99)
             (getw AnalyzeResultsReport.socket_errors)
             (getw AnalyzeResultsReport.transfer_per_sec)
             (match wrk with
              | Some f => Some (path_str (joinpath run_dir (name f)))
              | None => None
              end),
       missing_ips ++ missing_waf ++ missing_wrk).

(** The loop over the entries of a scenario directory. *)
Fixpoint collect_runs (scenario : str) (scenario_dir : posix_path)
         (runs : scenario_listing) (acc : list row * list str)
  : exc (list row * list str) :=
  match runs with
  | SubDir runname files :: runs' =>
      '(data, missing) <-
        collect_run scenario (joinpath scenario_dir runname) runname files ;;
      collect_runs scenario scenario_dir runs'
                   (fst acc ++ [data], snd acc ++ missing)
  | NotDir _ :: runs' => collect_runs scenario scenario_dir runs' acc
  | [] => Ret acc
  end.

(** The loop over the entries of the root. *)
Fixpoint collect_scenarios (root : posix_path) (scenarios : root_listing)
         (acc : list row * list str) : exc (list row * list str) :=
  match scenarios with
  | SubDir scenario runs :: scenarios' =>
      acc' <- collect_runs scenario (joinpath root scenario) (sorted runs) acc ;;
      collect_scenarios root scenarios' acc'
  | NotDir _ :: scenarios' => collect_scenarios root scenarios' acc
  | [] => Ret acc
  end.

(** [collect_results]: the rows of the table and the list [missing];
    [root_path] is parsed by [Path(root_path)]. *)
Definition collect_results (root_path : str) (tree : root_listing)
  : exc (list row * list str) :=
  collect_scenarios (Path root_path) (sorted tree) ([], []).

(** ** The table and its display order *)

(** A [DataFrame]: the rows with their index labels, in order. *)
Definition data_frame := list (nat * row).

(** [pd.DataFrame(rows)]: the labels are the positions. *)
Definition DataFrame (rows : list row) : data_frame :=
  combine (seq 0 (length rows)) rows.

Definition NO_INJECTION : str := L "NO INJECTION".

(** [df['scenario'] == 'NO INJECTION'] on one row *)
Definition is_noinj (r : row) : bool := str_eqb (scenario r) NO_INJECTION.

(** [df['concurrency'] == c] on one row; a missing value equals nothing. *)
Definition concurrency_is (c : Z) (r : row) : bool :=
  match concurrency r with
  | Some n => Z.eqb n c
  | None => false
  end.

(** [df[mask]] *)
Definition select (mask : row -> bool) (df : data_frame) : data_frame :=
  filter (fun ir => mask (snd ir)) df.

(** [d.index.tolist()] *)
Definition index (df : data_frame) : list nat := map fst df.

(** [df[~df.index.isin(labels)]] *)
Definition not_isin (labels : list nat) (df : data_frame) : data_frame :=
  filter (fun ir => negb (existsb (Nat.eqb (fst ir)) labels)) df.

Definition custom_order (df : data_frame) : data_frame :=
  let noinj := select is_noinj df in
  let c300 := select (fun r => concurrency_is 300 r && negb (is_noinj r)) df in
  let c500 := select (fun r => concurrency_is 500 r && negb (is_noinj r)) df in
  let c1000 := select (fun r => concurrency_is 1000 r && negb (is_noinj r)) df in
  let rest :=
    not_isin (index noinj ++ index c300 ++ index c500 ++ index c1000) df in
  noinj ++ c300 ++ c500 ++ c1000 ++ rest.

(** The rows that belong to none of the four named buckets. *)
Definition in_rest (r : row) : bool :=
  negb (is_noinj r)
  && negb (concurrency_is 300 r)
  && negb (concurrency_is 500 r)
  && negb (concurrency_is 1000 r).


End Walk.


(** A row with a scenario and a concurrency, and nothing else. *)
Definition sample_row (scenario : str) (concurrency : option Z) : row unit :=
  mkRow scenario tt [] concurrency [] None None None None None None
        None None None None None None None None.

(** The table of the example of the specification, with one more row of
    the scenario [NO INJECTION] at the concurrency 300 and a row at the
    concurrency 200. *)
Definition sample_frame : data_frame unit :=
  DataFrame [sample_row (L "INJ_WEB") (Some 1000%Z);
             sample_row (L "INJ_WEB") (Some 300%Z);
             sample_row (L "NO INJECTION") None;
             sample_row (L "INJ_WAF_WEB") (Some 200%Z);
             sample_row (L "INJ_WEB") (Some 500%Z);
             sample_row (L "NO INJECTION") (Some 300%Z);
             sample_row (L "INJ_WAF_WEB") (Some 300%Z)].

Arguments is_noinj {description} r.
Arguments concurrency_is {description} c r.
Arguments in_rest {description} r.
End CollectReport.

(* ================================================================== *)
(** * The texts of the report of [analyze_results_report.py]

    The texts of the report hold characters above 255 (an arrow, a
    dash).  A text that may hold them is the list of its code points;
    the literals of the source are read in UTF-8, the encoding of the
    source file. *)
(* ================================================================== *)

Definition ustr := list N.

(** The code points of a sequence of bytes in UTF-8. *)
Fixpoint utf8 (b : list N) : ustr :=
  match b with
  | [] => []
  | x :: r =>
      if (x <? 128)%N then x :: utf8 r
      else if (x <? 224)%N then
        match r with
        | y :: r' => ((x - 192) * 64 + (y - 128))%N :: utf8 r'
        | [] => []
        end
      else if (x <? 240)%N then
        match r with
        | y :: z :: r' =>
            ((x - 224) * 4096 + (y - 128) * 64 + (z - 128))%N :: utf8 r'
        | _ => []
        end
      else
        match r with
        | y :: z :: t :: r' =>
            ((x - 240) * 262144 + (y - 128) * 4096 + (z - 128) * 64
             + (t - 128))%N :: utf8 r'
        | _ => []
        end
  end.

(** A string literal of the source, as a text. *)
Definition T (s : string) : ustr := utf8 (map code (list_ascii_of_string s)).

(** ** The methods of [str] on the characters of any type *)

Module Str.
Section Sequences.
Variable A : Type.
Variable eqb : A -> A -> bool.

(** [s.startswith(p)] *)
Fixpoint startswith (p s : list A) : bool :=
  match p, s with
  | [], _ => true
  | x :: p', y :: s' => eqb x y && startswith p' s'
  | _ :: _, [] => false
  end.

(** [s.replace(old, new)] for a non-empty [old], as in every call of the
    script: the occurrences of [old] are replaced from the left and do
    not overlap.  [skip] is the number of characters of the occurrence
    just replaced that are still to be dropped. *)
Fixpoint replace_from (old new : list A) (skip : nat) (s : list A) : list A :=
  match s with
  | [] => []
  | c :: s' =>
      match skip with
      | S k => replace_from old new k s'
      | O =>
          if startswith old s
          then new ++ replace_from old new (length old - 1) s'
          else c :: replace_from old new 0 s'
      end
  end.

Definition replace (old new s : list A) : list A := replace_from old new 0 s.

End Sequences.
Arguments startswith {A} eqb p s.
Arguments replace_from {A} eqb old new skip s.
Arguments replace {A} eqb old new s.
End Str.

Module ReportText.

(** ** [html_escape] *)

(** The argument is [None], the empty string or a string; the first two
    are false in a condition. *)
Definition html_escape (s : option ustr) : ustr :=
  match s with
  | Some (c :: w) =>
      Str.replace N.eqb (T ">") (T "&gt;")
        (Str.replace N.eqb (T "<") (T "&lt;")
           (Str.replace N.eqb (T "&") (T "&amp;") (c :: w)))
  | _ => []
  end.

(** The text that stands for one character in an escaped text. *)
Definition entity (c : N) : ustr :=
  if (c =? 38)%N then T "&amp;"
  else if (c =? 60)%N then T "&lt;"
  else if (c =? 62)%N then T "&gt;"
  else [c].

End ReportText.

(* ================================================================== *)
(** * Properties

    From here on every argument of a lemma is written out. *)
(* ================================================================== *)

Unset Implicit Arguments.

(* ================================================================== *)
(** * The matcher finds exactly the matches *)
(* ================================================================== *)

Section MatcherSpec.
Variable fl : flags.

Lemma consume_app (w l s : str) c :
  consume (length w) (mkState l (w ++ s) c) = mkState (rev w ++ l) s c.
Proof.
  unfold consume; cbn [s_rest s_left s_caps].
  rewrite firstn_app, skipn_app, Nat.sub_diag, firstn_all, skipn_all.
  cbn. now rewrite app_nil_r.
Qed.

Lemma lit_eq_length (p w : str) : lit_eq fl p w = true -> length w = length p.
Proof.
  revert w; induction p as [|x p IH]; intros [|y w]; cbn; try discriminate; auto.
  intros H; apply andb_prop in H as [_ H]. f_equal; auto.
Qed.

Lemma lit_prefix_app (p w s : str) :
  lit_eq fl p w = true -> lit_prefix fl p (w ++ s) = true.
Proof.
  revert w; induction p as [|x p IH]; intros [|y w]; cbn; try discriminate; auto.
  intros H; apply andb_prop in H as [H1 H2]. rewrite H1; cbn; auto.
Qed.

Lemma lit_prefix_split (p s : str) :
  lit_prefix fl p s = true ->
  lit_eq fl p (firstn (length p) s) = true.
Proof.
  revert s; induction p as [|x p IH]; intros [|y s]; cbn; try discriminate; auto.
  intros H; apply andb_prop in H as [H1 H2]. rewrite H1; cbn; auto.
Qed.

Lemma run_length_le a hi s : run_length fl a hi s <= length s.
Proof.
  revert hi; induction s as [|c s IH]; intros hi; cbn; [lia|].
  destruct (atom_ok fl a c); [|lia].
  destruct hi as [[|h]|]; [lia| |]; specialize (IH (Some h)) || specialize (IH None);
    try (specialize (IH None)); lia.
Qed.

Lemma run_length_spec a hi s n :
  n <= run_length fl a hi s <->
  n <= length s /\ forallb (atom_ok fl a) (firstn n s) = true /\ within hi n.
Proof.
  revert hi n; induction s as [|c s IH]; intros hi n; cbn.
  - split.
    + intros H. assert (n = 0) by lia; subst. cbn.
      repeat split; auto. destruct hi; cbn; lia.
    + intros [H _]; lia.
  - destruct n as [|n].
    { cbn. split; [|lia]. intros _. repeat split; [lia|]. destruct hi; cbn; lia. }
    cbn [firstn forallb].
    destruct (atom_ok fl a c); cbn [andb].
    + destruct hi as [[|h]|].
      * split; [lia|]. intros (_ & _ & H). cbn in H. lia.
      * rewrite <- Nat.succ_le_mono, IH. cbn. split; intros (? & ? & ?); repeat split; auto; lia.
      * rewrite <- Nat.succ_le_mono, IH. cbn. split; intros (? & ? & ?); repeat split; auto; lia.
    + split; [lia|]. intros (_ & H & _); discriminate.
Qed.

Lemma in_counts_down lo k n : In n (counts_down lo k) <-> lo <= n <= k.
Proof.
  unfold counts_down. rewrite <- in_rev, in_seq. lia.
Qed.

Lemma forallb_firstn_app (f : ascii -> bool) (w s : str) :
  forallb f (firstn (length w) (w ++ s)) = forallb f w.
Proof.
  now rewrite firstn_app, Nat.sub_diag, firstn_all, firstn_O, app_nil_r.
Qed.

(** The results of [run] are the matches of [r] at the position. *)
Theorem run_spec (r : regex) :
  forall (l s : str) c (st' : mstate),
    In st' (run fl r (mkState l s c)) <->
    exists w rest c',
      s = w ++ rest /\ st' = mkState (rev w ++ l) rest c'
      /\ Matches fl r l w rest c c'.
Proof.
  induction r as [p | a lo hi | r1 IH1 | r1 IH1 r2 IH2 | r1 IH1 r2 IH2
                 | n r1 IH1 | | f | f]; intros l s c st'; cbn [run Matches].
  - (* Lit *)
    cbn [s_rest]. split.
    + destruct (lit_prefix fl p s) eqn:E; [|contradiction].
      intros [<-|[]].
      exists (firstn (length p) s), (skipn (length p) s), c.
      rewrite firstn_skipn. repeat split; auto using lit_prefix_split.
    + intros (w & rest & c' & -> & -> & H & ->).
      rewrite (lit_prefix_app _ _ rest H). left.
      rewrite <- (lit_eq_length _ _ H). apply consume_app.
  - (* Rep *)
    cbn [s_rest]. rewrite in_map_iff. split.
    + intros (n & <- & Hn). apply in_counts_down in Hn. destruct Hn as [Hlo Hk].
      apply run_length_spec in Hk. destruct Hk as (Hlen & Hall & Hhi).
      exists (firstn n s), (skipn n s), c.
      rewrite firstn_skipn, length_firstn, Nat.min_l by assumption.
      repeat split; auto.
    + intros (w & rest & c' & -> & -> & Hall & Hlo & Hhi & ->).
      exists (length w). split; [apply consume_app|].
      apply in_counts_down. split; [assumption|].
      apply run_length_spec. rewrite forallb_firstn_app, length_app.
      repeat split; auto; lia.
  - (* Opt *)
    rewrite in_app_iff, IH1. cbn [In]. split.
    + intros [(w & rest & c' & H1 & H2 & H3) | [<- | []]].
      * exists w, rest, c'; auto.
      * exists [], s, c; cbn; auto.
    + intros (w & rest & c' & H1 & H2 & [H3 | [-> ->]]).
      * left; exists w, rest, c'; auto.
      * right; left. cbn in *. now subst.
  - (* Alt *)
    rewrite in_app_iff, IH1, IH2. split.
    + intros [(w & rest & c' & H1 & H2 & H3) | (w & rest & c' & H1 & H2 & H3)];
        exists w, rest, c'; auto.
    + intros (w & rest & c' & H1 & H2 & [H3 | H3]);
        [left | right]; exists w, rest, c'; auto.
  - (* Seq *)
    rewrite in_flat_map. split.
    + intros (mid & Hmid & Hst').
      apply IH1 in Hmid. destruct Hmid as (w1 & rest1 & c1 & -> & -> & M1).
      apply IH2 in Hst'. destruct Hst' as (w2 & rest & c' & -> & -> & M2).
      exists (w1 ++ w2), rest, c'.
      rewrite <- app_assoc, rev_app_distr, <- app_assoc.
      repeat split; auto. exists w1, w2, c1; auto.
    + intros (w & rest & c' & -> & -> & w1 & w2 & c1 & -> & M1 & M2).
      exists (mkState (rev w1 ++ l) (w2 ++ rest) c1). split.
      * apply IH1. exists w1, (w2 ++ rest), c1. rewrite app_assoc; auto.
      * apply IH2. exists w2, rest, c'.
        rewrite rev_app_distr, <- app_assoc; auto.
  - (* Group *)
    rewrite in_map_iff. split.
    + intros (st1 & <- & H1). apply IH1 in H1.
      destruct H1 as (w & rest & c1 & -> & -> & M1).
      exists w, rest, ((n, w) :: c1). cbn [s_rest].
      rewrite length_app, Nat.add_sub, firstn_app, Nat.sub_diag, firstn_all,
        firstn_O, app_nil_r.
      repeat split; auto. exists c1; auto.
    + intros (w & rest & c' & -> & -> & c1 & M1 & ->).
      exists (mkState (rev w ++ l) rest c1). split.
      * cbn [s_rest]. unfold set_cap; cbn.
        now rewrite length_app, Nat.add_sub, firstn_app, Nat.sub_diag, firstn_all,
          firstn_O, app_nil_r.
      * apply IH1. exists w, rest, c1; auto.
  - (* Bol *)
    split.
    + destruct (at_bol fl (mkState l s c)) eqn:E; [|contradiction].
      intros [<- | []]. exists [], s, c; cbn; repeat split; auto.
    + intros (w & rest & c' & -> & -> & -> & E & ->). cbn in *.
      unfold at_bol in *. cbn in *. rewrite E. now left.
  - (* NotBehind *)
    cbn [s_left]. split.
    + destruct l as [|x l]; [|destruct (f x) eqn:E; [contradiction|]];
        intros [<- | []]; exists [], s, c; cbn; repeat split; auto.
    + intros (w & rest & c' & -> & -> & -> & E & ->). cbn in *.
      destruct l as [|x l]; [now left|]. rewrite E. now left.
  - (* NotAhead *)
    cbn [s_rest]. split.
    + destruct s as [|x s]; [|destruct (f x) eqn:E; [contradiction|]];
        intros [<- | []]; [exists [], [], c | exists [], (x :: s), c];
        cbn; repeat split; auto.
    + intros (w & rest & c' & -> & -> & -> & E & ->). cbn in *.
      destruct rest as [|x s]; [now left|]. rewrite E. now left.
Qed.

End MatcherSpec.

(* ================================================================== *)
(** * Searching *)
(* ================================================================== *)

Section SearchSpec.
Variable fl : flags.

Lemma search_from_sound r : forall rest0 left0 m,
  search_from fl r left0 rest0 = Some m ->
  exists skipped w rest,
    rest0 = skipped ++ w ++ rest
    /\ m = mkState (rev w ++ rev skipped ++ left0) rest (s_caps m)
    /\ Matches fl r (rev skipped ++ left0) w rest [] (s_caps m).
Proof.
  induction rest0 as [|x rest0 IH]; intros left0 m; cbn [search_from].
  - destruct (run fl r (mkState left0 [] [])) as [|m0 ms] eqn:E; [discriminate|].
    intros [= <-].
    assert (H : In m0 (run fl r (mkState left0 [] []))) by (rewrite E; now left).
    apply run_spec in H. destruct H as (w & rest & c' & Hs & -> & M).
    exists [], w, rest. cbn. auto.
  - destruct (run fl r (mkState left0 (x :: rest0) [])) as [|m0 ms] eqn:E.
    + intros H. apply IH in H. destruct H as (sk & w & rest & -> & Hm & M).
      exists (x :: sk), w, rest. cbn [rev app].
      rewrite <- !app_assoc. cbn. auto.
    + intros [= <-].
      assert (H : In m0 (run fl r (mkState left0 (x :: rest0) [])))
        by (rewrite E; now left).
      apply run_spec in H. destruct H as (w & rest & c' & Hs & -> & M).
      exists [], w, rest. cbn. auto.
Qed.

Lemma search_from_complete r : forall skipped left0 w rest c',
  Matches fl r (rev skipped ++ left0) w rest [] c' ->
  exists m, search_from fl r left0 (skipped ++ w ++ rest) = Some m.
Proof.
  induction skipped as [|x sk IH]; intros left0 w rest c' M.
  - cbn [app rev] in *.
    assert (H : In (mkState (rev w ++ left0) rest c')
                   (run fl r (mkState left0 (w ++ rest) []))).
    { apply run_spec. exists w, rest, c'. auto. }
    destruct (w ++ rest) as [|y s]; cbn [search_from];
      destruct (run fl r _) as [|m0 ms]; try contradiction; eauto.
  - cbn [app search_from].
    destruct (run fl r _) as [|m0 ms]; [|eauto].
    apply IH with (c' := c'). cbn [rev] in M. now rewrite <- app_assoc in M.
Qed.

(** [re.search] returns a match of the pattern in the text. *)
Theorem re_search_sound r text m :
  re_search fl r text = Some m ->
  exists pre w c',
    match_at fl r text pre w (s_rest m) c'
    /\ s_caps m = (0, w) :: c'.
Proof.
  unfold re_search. intros H. apply search_from_sound in H.
  destruct H as (sk & w & rest & -> & Hm & M).
  rewrite app_nil_r in *. cbn [Matches] in M. destruct M as (c1 & M & Hc).
  exists sk, w, c1. rewrite Hm at 1. cbn [s_rest]. unfold match_at. auto.
Qed.

(** [re.search] finds a match whenever there is one. *)
Theorem re_search_complete r text pre w rest c' :
  match_at fl r text pre w rest c' ->
  exists m, re_search fl r text = Some m.
Proof.
  intros [-> M]. unfold re_search.
  apply search_from_complete with (c' := (0, w) :: c').
  rewrite app_nil_r. cbn [Matches]. eauto.
Qed.

Corollary re_search_none r text :
  re_search fl r text = None ->
  forall pre w rest c', ~ match_at fl r text pre w rest c'.
Proof.
  intros H pre w rest c' M. apply re_search_complete in M.
  destruct M as [m Hm]. congruence.
Qed.

End SearchSpec.

(* ================================================================== *)
(** * Characters *)
(* ================================================================== *)

(** A fact about every character, checked on the 256 of them. *)
Ltac all_chars c :=
  destruct c as [[] [] [] [] [] [] [] []]; try reflexivity; try discriminate.

Lemma digit_not_space c : is_digit09 c = true -> is_space c = false.
Proof. all_chars c. Qed.

Lemma digit_not_underscore c : is_digit09 c = true -> Ascii.eqb c "_" = false.
Proof. all_chars c. Qed.

Lemma digit_not_sign c :
  is_digit09 c = true -> Ascii.eqb c "-" = false /\ Ascii.eqb c "+" = false.
Proof. all_chars c; intros _; split; reflexivity. Qed.

Lemma digit_not_point c : is_digit09 c = true -> Ascii.eqb c "." = false.
Proof. all_chars c. Qed.

Lemma digit_lower c : is_digit09 c = true -> lower_char c = c.
Proof. all_chars c. Qed.

Lemma digit_not_letter c :
  is_digit09 c = true -> Ascii.eqb c "i" = false /\ Ascii.eqb c "n" = false.
Proof. all_chars c; intros _; split; reflexivity. Qed.

(* ================================================================== *)
(** * [float] and [int] succeed on the numbers the patterns capture *)
(* ================================================================== *)

Lemma span_digits (w r : str) :
  forallb is_digit09 w = true ->
  match r with c :: _ => is_digit09 c = false | [] => True end ->
  span is_digit09 (w ++ r) = (w, r).
Proof.
  intros Hw Hr. induction w as [|c w IH]; cbn [span forallb app] in *.
  - destruct r as [|c r]; [reflexivity|]. cbn [span]. now rewrite Hr.
  - apply andb_prop in Hw as [Hc Hw]. rewrite Hc, (IH Hw). reflexivity.
Qed.

Lemma lstrip_digit (w : str) :
  match w with c :: _ => is_space c = false | [] => True end -> lstrip w = w.
Proof. destruct w as [|c w]; cbn; [reflexivity|]. now intros ->. Qed.

Lemma strip_no_space_ends (w : str) :
  match w with c :: _ => is_space c = false | [] => True end ->
  match rev w with c :: _ => is_space c = false | [] => True end ->
  strip w = w.
Proof.
  intros H1 H2. unfold strip, rstrip.
  rewrite (lstrip_digit w H1), (lstrip_digit (rev w) H2). apply rev_involutive.
Qed.

Lemma underscores_ok_none (w : str) (prev : option ascii) :
  forallb (fun c => negb (Ascii.eqb c "_")) w = true ->
  match prev with Some p => Ascii.eqb p "_" = false | None => True end ->
  underscores_ok prev w = true.
Proof.
  revert prev; induction w as [|c w IH]; intros prev Hw Hp; cbn in *.
  - destruct prev; [now rewrite Hp | reflexivity].
  - apply andb_prop in Hw as [Hc Hw]. apply negb_true_iff in Hc.
    rewrite Hc. rewrite IH by (cbn; auto).
    destruct prev; [rewrite Hp|]; reflexivity.
Qed.

Lemma remove_underscores_none (w : str) :
  forallb (fun c => negb (Ascii.eqb c "_")) w = true ->
  remove_underscores w = w.
Proof.
  unfold remove_underscores. induction w as [|c w IH]; cbn; [reflexivity|].
  intros H. apply andb_prop in H as [Hc Hw]. rewrite Hc. now rewrite IH.
Qed.

Lemma num_char_no_underscore (w : str) :
  forallb num_char w = true ->
  forallb (fun c => negb (Ascii.eqb c "_")) w = true.
Proof.
  intros H. rewrite forallb_forall in *. intros c Hc. specialize (H c Hc).
  revert H. clear. unfold num_char. all_chars c.
Qed.

Lemma digits_num_chars (w : str) :
  forallb is_digit09 w = true -> forallb num_char w = true.
Proof.
  intros H. rewrite forallb_forall in *. intros c Hc. unfold num_char.
  now rewrite (H c Hc).
Qed.

Lemma decimal_num_chars (w : str) : decimal w -> forallb num_char w = true.
Proof.
  intros [[_ H] | (ip & fp & -> & [_ Hi] & [_ Hf])].
  - now apply digits_num_chars.
  - rewrite !forallb_app. rewrite (digits_num_chars _ Hi), (digits_num_chars _ Hf).
    reflexivity.
Qed.

Lemma digits_first (w : str) :
  digits w -> exists c w', w = c :: w' /\ is_digit09 c = true.
Proof.
  intros [Hne H]. destruct w as [|c w']; [congruence|].
  cbn in H. apply andb_prop in H as [Hc _]. eauto.
Qed.

Lemma digits_last (w : str) :
  digits w -> exists c w', rev w = c :: w' /\ is_digit09 c = true.
Proof.
  intros [Hne H]. destruct (rev w) as [|c w'] eqn:E.
  - apply (f_equal (@rev ascii)) in E. rewrite rev_involutive in E. now subst.
  - exists c, w'. split; [reflexivity|].
    rewrite forallb_forall in H. apply H. apply in_rev. rewrite E. now left.
Qed.

Lemma decimal_first (w : str) :
  decimal w -> exists c w', w = c :: w' /\ is_digit09 c = true.
Proof.
  intros [H | (ip & fp & -> & Hi & _)].
  - now apply digits_first.
  - destruct (digits_first _ Hi) as (c & w' & -> & Hc). cbn. eauto.
Qed.

Lemma decimal_last (w : str) :
  decimal w -> exists c w', rev w = c :: w' /\ is_digit09 c = true.
Proof.
  intros [H | (ip & fp & -> & _ & Hf)].
  - now apply digits_last.
  - destruct (digits_last _ Hf) as (c & w' & E & Hc).
    rewrite !rev_app_distr, E. cbn. eauto.
Qed.

Lemma str_eqb_first_differs (c d : ascii) (w v : str) :
  Ascii.eqb c d = false -> str_eqb (c :: w) (d :: v) = false.
Proof. cbn. now intros ->. Qed.

(** The plain part of [float]: no underscore, no surrounding space, no
    sign, and not an infinity or a NaN. *)
Lemma py_float_plain (w : str) :
  decimal w -> py_float w = float_of_number false w.
Proof.
  intros Hd. unfold py_float.
  pose proof (num_char_no_underscore _ (decimal_num_chars _ Hd)) as Hu.
  rewrite (underscores_ok_none _ None Hu I).
  destruct (decimal_first _ Hd) as (c & w' & E & Hc).
  destruct (decimal_last _ Hd) as (d & v' & E' & Hd').
  rewrite strip_no_space_ends
    by (first [rewrite E' | rewrite E]; now apply digit_not_space).
  rewrite (remove_underscores_none _ Hu). subst w.
  destruct (digit_not_sign _ Hc) as [Hm Hp].
  destruct (digit_not_letter _ Hc) as [Hi Hn].
  cbn [take_sign]. rewrite Hm, Hp. cbn [lower map].
  rewrite (digit_lower _ Hc).
  unfold L; cbn [list_ascii_of_string].
  rewrite !(str_eqb_first_differs _ _ _ _ Hi), (str_eqb_first_differs _ _ _ _ Hn).
  reflexivity.
Qed.

Lemma app_not_nil_l (A : Type) (a b : list A) : a <> [] -> a ++ b <> [].
Proof. destruct a; cbn; congruence. Qed.

(** [float] succeeds on a decimal number. *)
Theorem py_float_decimal (w : str) :
  decimal w -> py_float w = Ret (number_value w).
Proof.
  intros Hd. rewrite (py_float_plain _ Hd). unfold float_of_number, number_value.
  destruct Hd as [[Hne H] | (ip & fp & -> & [Hine Hi] & [Hfne Hf])].
  - pose proof (span_digits w [] H I) as Hs. rewrite app_nil_r in Hs.
    rewrite Hs. cbn [tl length]. rewrite app_nil_r.
    destruct w; [congruence | reflexivity].
  - unfold L; cbn [list_ascii_of_string app].
    rewrite (span_digits ip ("."%char :: fp) Hi eq_refl).
    cbn [tl]. rewrite Ascii.eqb_refl.
    pose proof (span_digits fp [] Hf I) as Hs. rewrite app_nil_r in Hs.
    rewrite Hs.
    destruct (ip ++ fp) eqn:E.
    + apply app_eq_nil in E. tauto.
    + reflexivity.
Qed.

(** [int] on a string of digits: the number, unless the digits are more
    than the bound. *)
Theorem py_int_digits (w : str) :
  digits w ->
  py_int w = if int_max_str_digits <? length w then Raise ValueError
             else Ret (digits_value w).
Proof.
  intros Hd. unfold py_int.
  pose proof (num_char_no_underscore _ (digits_num_chars _ (proj2 Hd))) as Hu.
  rewrite (underscores_ok_none _ None Hu I).
  destruct (digits_first _ Hd) as (c & w' & E & Hc).
  destruct (digits_last _ Hd) as (d & v' & E' & Hd').
  rewrite strip_no_space_ends
    by (first [rewrite E' | rewrite E]; now apply digit_not_space).
  rewrite (remove_underscores_none _ Hu).
  destruct Hd as [_ Hall]. subst w.
  destruct (digit_not_sign _ Hc) as [Hm Hp].
  cbn [take_sign]. rewrite Hm, Hp. rewrite Hall.
  destruct (int_max_str_digits <? length (c :: w')); reflexivity.
Qed.


Lemma digit_run_from_le (s : str) :
  forall cur cur', cur <= cur' -> digit_run_from cur s <= digit_run_from cur' s.
Proof.
  induction s as [|c s IH]; intros cur cur' H; cbn [digit_run_from]; [lia|].
  destruct (is_digit09 c).
  - apply IH. lia.
  - lia.
Qed.




(* ================================================================== *)
(** * The pieces of the patterns *)
(* ================================================================== *)

Section Pieces.
Variable fl : flags.
Implicit Types (l w rest : str) (c : list (nat * str)).

(** A pattern without group leaves the captured groups as they are. *)
Lemma matches_nogroup r : forall l w rest c c',
  ngroups r = 0 -> Matches fl r l w rest c c' -> c' = c.
Proof.
  induction r as [p | a lo hi | r1 IH1 | r1 IH1 r2 IH2 | r1 IH1 r2 IH2
                 | n r1 IH1 | | f | f]; intros l w rest c c' Hn; cbn in *.
  - tauto.
  - tauto.
  - intros [H | [_ H]]; eauto.
  - intros [H | H]; [eapply IH1 | eapply IH2]; eauto; lia.
  - intros (w1 & w2 & c1 & _ & H1 & H2).
    apply IH1 in H1; [|lia]. apply IH2 in H2; [|lia]. congruence.
  - discriminate.
  - tauto.
  - tauto.
  - tauto.
Qed.

Lemma matches_group n r l w rest c c' :
  ngroups r = 0 ->
  Matches fl (Group n r) l w rest c c' ->
  Matches fl r l w rest c c /\ c' = (n, w) :: c.
Proof.
  intros Hn (c1 & M & ->).
  pose proof (matches_nogroup _ _ _ _ _ _ Hn M) as ->. auto.
Qed.

Lemma matches_star a l w rest c c' :
  Matches fl (Star a) l w rest c c' <->
  forallb (atom_ok fl a) w = true /\ c' = c.
Proof. cbn. intuition lia. Qed.

Lemma matches_plus a l w rest c c' :
  Matches fl (Plus a) l w rest c c' <->
  forallb (atom_ok fl a) w = true /\ w <> [] /\ c' = c.
Proof.
  cbn. destruct w; cbn [length]; intuition (try lia; try congruence).
Qed.

Lemma matches_ws l w rest c c' :
  Matches fl ws l w rest c c' <-> forallb is_space w = true /\ c' = c.
Proof. unfold ws. rewrite matches_star. reflexivity. Qed.

Lemma matches_digits l w rest c c' :
  Matches fl (Plus digit) l w rest c c' <-> digits w /\ c' = c.
Proof. rewrite matches_plus. unfold digits. cbn. tauto. Qed.

Lemma chr_eq_nocase (p y : ascii) :
  lower_char p = p -> (forall z, lower_char z = p -> z = p) ->
  chr_eq fl p y = true -> y = p.
Proof.
  intros Hp Hz. unfold chr_eq. destruct (IGNORECASE fl); intros H.
  - apply Ascii.eqb_eq in H. rewrite Hp in H. symmetry in H. auto.
  - apply Ascii.eqb_eq in H. auto.
Qed.

Lemma chr_eq_refl (p : ascii) : chr_eq fl p p = true.
Proof. unfold chr_eq. destruct (IGNORECASE fl); apply Ascii.eqb_refl. Qed.

Lemma lit_eq_refl (p : str) : lit_eq fl p p = true.
Proof. induction p; cbn; [reflexivity|]. now rewrite chr_eq_refl. Qed.

Lemma lower_point z : lower_char z = "."%char -> z = "."%char.
Proof. all_chars z. Qed.

Lemma lit_eq_point w : lit_eq fl (L ".") w = true <-> w = L ".".
Proof.
  split.
  - intros H.
    destruct w as [|y [|z w]]; cbn in H; try discriminate.
    + rewrite andb_true_r in H.
      apply chr_eq_nocase in H; [now subst| reflexivity | apply lower_point].
    + now rewrite andb_false_r in H.
  - intros ->. apply (lit_eq_refl (L ".")).
Qed.

(** [NUM] matches the decimal numbers. *)
Lemma matches_NUM l w rest c c' :
  Matches fl NUM l w rest c c' <-> decimal w /\ c' = c.
Proof.
  unfold NUM. cbn [cat Matches]. split.
  - intros (w1 & w2 & c1 & -> & M1 & M2).
    apply (proj1 (matches_digits _ _ _ _ _)) in M1. destruct M1 as [D1 ->].
    destruct M2 as [(w3 & w4 & c2 & -> & [M3 ->] & M4) | [-> ->]].
    + apply lit_eq_point in M3. subst w3.
      apply (proj1 (matches_digits _ _ _ _ _)) in M4. destruct M4 as [D4 ->].
      split; [|reflexivity]. right. exists w1, w4. auto.
    + rewrite app_nil_r. split; [now left | reflexivity].
  - intros [[D | (ip & fp & -> & Di & Df)] ->].
    + exists w, [], c. rewrite app_nil_r.
      split; [reflexivity | split; [now apply matches_digits | now right]].
    + exists ip, (L "." ++ fp), c.
      split; [reflexivity | split; [now apply matches_digits |]].
      left. exists (L "."), fp, c.
      split; [reflexivity | split; [|now apply matches_digits]].
      split; [now apply lit_eq_point | reflexivity].
Qed.

End Pieces.

(* ================================================================== *)
(** * What the groups of the patterns capture *)
(* ================================================================== *)

(** Takes a hypothesis [Matches fl (cat [...]) ...] apart, piece by piece. *)
Ltac break_match :=
  repeat match goal with
  | H : exists _, _ |- _ => destruct H as [? H]
  | H : _ /\ _ |- _ => destruct H as [? ?]
  | H : Matches _ ws _ _ _ _ _ |- _ =>
      apply (proj1 (matches_ws _ _ _ _ _ _)) in H
  | H : Matches _ NUM _ _ _ _ _ |- _ =>
      apply (proj1 (matches_NUM _ _ _ _ _ _)) in H
  | H : Matches _ (Plus digit) _ _ _ _ _ |- _ =>
      apply (proj1 (matches_digits _ _ _ _ _ _)) in H
  | H : Matches _ (Star _) _ _ _ _ _ |- _ =>
      apply (proj1 (matches_star _ _ _ _ _ _ _)) in H
  | H : Matches _ (Plus _) _ _ _ _ _ |- _ =>
      apply (proj1 (matches_plus _ _ _ _ _ _ _)) in H
  | H : Matches _ UNIT _ _ _ _ _ |- _ =>
      apply matches_nogroup in H; [|reflexivity]
  end; subst.

Ltac search_sound H :=
  apply re_search_sound in H;
  let pre := fresh "pre" in let w := fresh "w" in let c := fresh "c" in
  let M := fresh "M" in let Hc := fresh "Hc" in
  destruct H as (pre & w & c & [? M] & Hc);
  unfold group; rewrite Hc; clear Hc.

Lemma is_d_digits (w : str) :
  forallb (atom_ok no_flags (ASet is_d)) w = true -> w <> [] -> digits w.
Proof. intros H Hne. split; assumption. Qed.

Lemma group_rps text m :
  re_search no_flags re_rps text = Some m ->
  exists g, group m 1 = Some g /\ decimal g.
Proof.
  intros H. search_sound H. unfold re_rps in M. cbn [cat Matches] in M.
  break_match. eexists. split; [reflexivity | assumption].
Qed.

Lemma group_transfer text m :
  re_search no_flags re_transfer text = Some m ->
  exists g, group m 1 = Some g /\ decimal g.
Proof.
  intros H. search_sound H. unfold re_transfer in M. cbn [cat Matches] in M.
  break_match.
  match goal with H : _ \/ _ |- _ => destruct H end; break_match;
    eexists; (split; [reflexivity | assumption]).
Qed.

Lemma group_duration fl v m :
  re_match fl re_duration v = Some m ->
  exists g, group m 1 = Some g /\ decimal g.
Proof.
  unfold re_match. intros H.
  destruct (run fl (Group 0 re_duration) (mkState [] v [])) as [|m0 ms] eqn:E;
    [discriminate|]. injection H as ->.
  assert (Hin : In m (run fl (Group 0 re_duration) (mkState [] v [])))
    by (rewrite E; now left).
  apply run_spec in Hin. destruct Hin as (w & rest & c' & _ & -> & M).
  unfold re_duration in M. cbn [cat Matches] in M. break_match.
  match goal with H : _ \/ _ |- _ => destruct H end; break_match;
    eexists; (split; [reflexivity | assumption]).
Qed.

Lemma groups_cpu_full text m :
  re_search I_S re_cpu_full text = Some m ->
  exists B I S, group m 1 = Some B /\ group m 2 = Some I /\ group m 3 = Some S
                /\ decimal B /\ decimal I /\ digits S.
Proof.
  intros H. search_sound H. unfold re_cpu_full in M. cbn [cat Matches] in M.
  break_match. do 3 eexists. repeat (split; [reflexivity|]). auto.
Qed.

Lemma groups_cpu_noidle fl text m :
  re_search fl re_cpu_noidle text = Some m ->
  exists B S, group m 1 = Some B /\ group m 2 = Some S
              /\ decimal B /\ digits S.
Proof.
  intros H. search_sound H. unfold re_cpu_noidle in M. cbn [cat Matches] in M.
  break_match. do 2 eexists. repeat (split; [reflexivity|]). auto.
Qed.

Lemma group_cpu_min fl text m :
  re_search fl re_cpu_min text = Some m ->
  exists B, group m 1 = Some B /\ decimal B.
Proof.
  intros H. search_sound H. unfold re_cpu_min in M. cbn [cat Matches] in M.
  break_match. eexists. split; [reflexivity | assumption].
Qed.

Lemma group_idle text m :
  re_search I_ re_idle text = Some m ->
  exists I, group m 1 = Some I /\ decimal I.
Proof.
  intros H. search_sound H. unfold re_idle in M. cbn [cat Matches] in M.
  break_match. eexists. split; [reflexivity | assumption].
Qed.

Lemma group_errors_line text m :
  re_search no_flags re_errors_line text = Some m ->
  exists g, group m 0 = Some g.
Proof. intros H. search_sound H. eexists. reflexivity. Qed.

Lemma group_errors_rest text m :
  re_search no_flags re_errors_rest text = Some m ->
  exists g, group m 1 = Some g.
Proof.
  intros H. search_sound H. unfold re_errors_rest in M. cbn [cat Matches] in M.
  break_match. eexists. reflexivity.
Qed.

Lemma rep_digits lo (w : str) :
  forallb (atom_ok no_flags (ASet is_d)) w = true -> lo <= length w -> 0 < lo ->
  digits w.
Proof.
  intros H Hlo Hpos. split; [|exact H]. destruct w; cbn in *; [lia | congruence].
Qed.

Lemma group_standalone_number n m :
  re_search no_flags re_standalone_number n = Some m ->
  exists g, group m 1 = Some g /\ digits g /\ length g <= 5.
Proof.
  intros H. search_sound H. unfold re_standalone_number in M.
  cbn [cat Matches] in M. break_match.
  eexists. split; [reflexivity|]. split; [eapply rep_digits; eauto|].
  assumption.
Qed.

Lemma group_number n m :
  re_search no_flags re_number n = Some m ->
  exists g, group m 1 = Some g /\ digits g /\ length g <= 5.
Proof.
  intros H. search_sound H. unfold re_number in M.
  cbn [cat Matches] in M. break_match.
  eexists. split; [reflexivity|]. split; [eapply rep_digits; eauto|].
  assumption.
Qed.

(** The digits of a [c<digits>] are a part of the name. *)
Lemma group_c_number n m :
  re_search no_flags re_c_number n = Some m ->
  exists g, group m 1 = Some g /\ digits g /\ length g < length n.
Proof.
  intros H. search_sound H. unfold re_c_number in M.
  cbn [cat Matches] in M. break_match.
  eexists. split; [reflexivity|]. split; [split; assumption|].
  match goal with
  | H : lit_eq _ (L "c") _ = true |- _ => apply lit_eq_length in H; cbn in H
  end.
  rewrite !length_app. lia.
Qed.

(* ================================================================== *)
(** * A captured group is a part of the text *)
(* ================================================================== *)







(* ================================================================== *)
(** * The extractors in closed form *)
(* ================================================================== *)

Lemma float_of_decimal g w :
  g = Some w -> decimal w -> float_of g = Ret (number_value w).
Proof. intros -> D. now apply py_float_decimal. Qed.

Lemma int_of_digits g w :
  g = Some w -> digits w ->
  int_of g = if over_limit g then Raise ValueError else Ret (digits_value w).
Proof. intros -> D. now apply py_int_digits. Qed.

Section SimpleTotal.
Import AnalyzeResults.

Lemma simple_convert_to_seconds_total v :
  convert_to_seconds v = Ret (seconds_of v).
Proof.
  unfold seconds_of. destruct v as [v|]; [|reflexivity].
  unfold convert_to_seconds.
  destruct (re_match I_ re_duration (strip v)) as [m|] eqn:E; [|reflexivity].
  destruct (group_duration _ _ _ E) as (g & Hg & D).
  rewrite (float_of_decimal _ _ Hg D). cbn [bind].
  destruct (str_eqb _ (L "ms")); [reflexivity|].
  destruct (str_eqb _ (L "us")); reflexivity.
Qed.

Lemma simple_percentile_loop_eq text res :
  percentile_loop percentiles text res =
  Ret (mkWrk (requests_per_sec res)
             (per_line text (L "50") (p50 res))
             (per_line text (L "75") (p75 res))
             (per_line text (L "90") (p90 res))
             (per_line text (L "99") (p99 res))
             (raw_errors res)).
Proof.
  unfold percentiles, per_line. cbn [percentile_loop].
  repeat match goal with
  | |- context [re_search M_I (re_perc ?p) text] =>
      destruct (re_search M_I (re_perc p) text);
      rewrite ?simple_convert_to_seconds_total; cbn [bind]
  end; destruct res; reflexivity.
Qed.

Lemma simple_step_requests_eq text res :
  step_requests text res =
  Ret (match re_search no_flags re_rps text with
       | Some m => set_requests_per_sec
                     (option_map number_value (group m 1)) res
       | None => res
       end).
Proof.
  unfold step_requests.
  destruct (re_search no_flags re_rps text) as [m|] eqn:E; [|reflexivity].
  destruct (group_rps _ _ E) as (g & Hg & D).
  rewrite (float_of_decimal _ _ Hg D), Hg. reflexivity.
Qed.

Lemma simple_step_inline_eq text res :
  step_inline text res =
  Ret (match re_search I_ re_inline text with
       | Some inline =>
           set_p90 (seconds_of (group inline 3))
             (set_p75 (seconds_of (group inline 2))
                (set_p50 (seconds_of (group inline 1)) res))
       | None => res
       end).
Proof.
  unfold step_inline. destruct (re_search I_ re_inline text); [|reflexivity].
  now rewrite !simple_convert_to_seconds_total.
Qed.

Lemma simple_step_p99_eq text res :
  step_p99 text res =
  Ret (match re_search I_ re_p99 text with
       | Some m99 => set_p99 (seconds_of (group m99 1)) res
       | None => res
       end).
Proof.
  unfold step_p99. destruct (re_search I_ re_p99 text); [|reflexivity].
  now rewrite !simple_convert_to_seconds_total.
Qed.

Lemma simple_step_errors_eq text res :
  step_errors text res =
  Ret (match re_search no_flags re_errors_line text with
       | Some m_err => set_raw_errors (option_map strip (group m_err 0)) res
       | None => res
       end).
Proof.
  unfold step_errors.
  destruct (re_search no_flags re_errors_line text) as [m|] eqn:E; [|reflexivity].
  destruct (group_errors_line _ _ E) as (g & Hg). rewrite Hg. reflexivity.
Qed.

(** [parse_wrk_file] returns, and each field of its result is the value
    of the last search that sets it. *)
Lemma simple_parse_wrk_file_eq text :
  parse_wrk_file text =
  Ret (mkWrk
         (match re_search no_flags re_rps text with
          | Some m => option_map number_value (group m 1)
          | None => None
          end)
         (match re_search I_ re_inline text with
          | Some inline => seconds_of (group inline 1)
          | None => per_line text (L "50") None
          end)
         (match re_search I_ re_inline text with
          | Some inline => seconds_of (group inline 2)
          | None => per_line text (L "75") None
          end)
         (match re_search I_ re_inline text with
          | Some inline => seconds_of (group inline 3)
          | None => per_line text (L "90") None
          end)
         (match re_search I_ re_p99 text with
          | Some m99 => seconds_of (group m99 1)
          | None => per_line text (L "99") None
          end)
         (match re_search no_flags re_errors_line text with
          | Some m_err => option_map strip (group m_err 0)
          | None => None
          end)).
Proof.
  unfold parse_wrk_file.
  rewrite simple_step_requests_eq. cbn [bind].
  rewrite simple_percentile_loop_eq. cbn [bind].
  rewrite simple_step_inline_eq. cbn [bind].
  rewrite simple_step_p99_eq. cbn [bind].
  rewrite simple_step_errors_eq.
  destruct (re_search no_flags re_rps text), (re_search I_ re_inline text),
    (re_search I_ re_p99 text), (re_search no_flags re_errors_line text);
    reflexivity.
Qed.

End SimpleTotal.

Section ReportTotal.
Import AnalyzeResultsReport.

Lemma report_convert_to_seconds_total v :
  convert_to_seconds v = Ret (seconds_of v).
Proof.
  unfold seconds_of. destruct v as [v|]; [|reflexivity].
  unfold convert_to_seconds.
  destruct (re_match no_flags re_duration (lower (strip v))) as [m|] eqn:E;
    [|reflexivity].
  destruct (group_duration _ _ _ E) as (g & Hg & D).
  rewrite (float_of_decimal _ _ Hg D). cbn [bind].
  destruct (str_eqb _ (L "ms")); [reflexivity|].
  destruct (str_eqb _ (L "us")); reflexivity.
Qed.

Lemma report_percentile_loop_eq text res :
  percentile_loop percentiles text res =
  Ret (mkWrk (requests_per_sec res)
             (per_line text (L "50") (p50 res))
             (per_line text (L "75") (p75 res))
             (per_line text (L "90") (p90 res))
             (per_line text (L "99") (p99 res))
             (socket_errors res) (transfer_per_sec res)).
Proof.
  unfold percentiles, per_line. cbn [percentile_loop].
  repeat match goal with
  | |- context [re_search M_I (re_perc ?p) text] =>
      destruct (re_search M_I (re_perc p) text);
      rewrite ?report_convert_to_seconds_total; cbn [bind]
  end; destruct res; reflexivity.
Qed.

Lemma report_step_requests_eq text res :
  step_requests text res =
  Ret (match re_search no_flags re_rps text with
       | Some m => set_requests_per_sec
                     (option_map number_value (group m 1)) res
       | None => res
       end).
Proof.
  unfold step_requests.
  destruct (re_search no_flags re_rps text) as [m|] eqn:E; [|reflexivity].
  destruct (group_rps _ _ E) as (g & Hg & D).
  rewrite (float_of_decimal _ _ Hg D), Hg. reflexivity.
Qed.

Lemma report_step_inline_eq text res :
  step_inline text res =
  Ret (match re_search I_ re_inline text with
       | Some inline =>
           set_p90 (seconds_of (group inline 3))
             (set_p75 (seconds_of (group inline 2))
                (set_p50 (seconds_of (group inline 1)) res))
       | None => res
       end).
Proof.
  unfold step_inline. destruct (re_search I_ re_inline text); [|reflexivity].
  now rewrite !report_convert_to_seconds_total.
Qed.

Lemma report_step_transfer_eq text res :
  step_transfer text res =
  Ret (match re_search no_flags re_transfer text with
       | Some m2 =>
           let val := option_map number_value (group m2 1) in
           let unit := lower (or_else (group m2 2) []) in
           if unit_in unit (L "kb") (L "k") then set_transfer_per_sec val res
           else if unit_in unit (L "mb") (L "m") then
             set_transfer_per_sec
               (option_map (fun v => fmul v (float_of_Z 1024)) val) res
           else set_transfer_per_sec val res
       | None => res
       end).
Proof.
  unfold step_transfer.
  destruct (re_search no_flags re_transfer text) as [m|] eqn:E; [|reflexivity].
  destruct (group_transfer _ _ E) as (g & Hg & D).
  rewrite (float_of_decimal _ _ Hg D), Hg. cbn [bind option_map].
  destruct (unit_in _ (L "kb") (L "k")); [reflexivity|].
  destruct (unit_in _ (L "mb") (L "m")); reflexivity.
Qed.

Lemma report_step_errors_eq text res :
  step_errors text res =
  Ret (match re_search no_flags re_errors_rest text with
       | Some m_err => set_socket_errors (option_map strip (group m_err 1)) res
       | None => res
       end).
Proof.
  unfold step_errors.
  destruct (re_search no_flags re_errors_rest text) as [m|] eqn:E; [|reflexivity].
  destruct (group_errors_rest _ _ E) as (g & Hg). rewrite Hg. reflexivity.
Qed.

(** [parse_wrk_file] returns, and each field of its result is the value
    of the last search that sets it. *)
Lemma report_parse_wrk_file_eq text :
  parse_wrk_file text =
  Ret (mkWrk
         (match re_search no_flags re_rps text with
          | Some m => option_map number_value (group m 1)
          | None => None
          end)
         (match re_search I_ re_inline text with
          | Some inline => seconds_of (group inline 1)
          | None => per_line text (L "50") None
          end)
         (match re_search I_ re_inline text with
          | Some inline => seconds_of (group inline 2)
          | None => per_line text (L "75") None
          end)
         (match re_search I_ re_inline text with
          | Some inline => seconds_of (group inline 3)
          | None => per_line text (L "90") None
          end)
         (per_line text (L "99") None)
         (match re_search no_flags re_errors_rest text with
          | Some m_err => option_map strip (group m_err 1)
          | None => None
          end)
         (match re_search no_flags re_transfer text with
          | Some m2 => transfer_value m2
          | None => None
          end)).
Proof.
  unfold parse_wrk_file, transfer_value.
  rewrite report_step_requests_eq. cbn [bind].
  rewrite report_step_transfer_eq. cbn [bind].
  rewrite report_percentile_loop_eq. cbn [bind].
  rewrite report_step_inline_eq. cbn [bind].
  rewrite report_step_errors_eq.
  destruct (re_search no_flags re_rps text), (re_search I_ re_inline text),
    (re_search no_flags re_transfer text) as [m2|],
    (re_search no_flags re_errors_rest text);
    try reflexivity;
    cbn zeta;
    destruct (unit_in _ (L "kb") (L "k"));
    try reflexivity;
    destruct (unit_in _ (L "mb") (L "m")); reflexivity.
Qed.

End ReportTotal.

(* ================================================================== *)
(** * The CPU extractor in closed form *)
(* ================================================================== *)

(** The CPU extractors in closed form: [int] refuses a sample count of
    more digits than its bound; otherwise the record is the one of the
    first of the three patterns of the busy percentage that matches, or
    the one of the idle percentage alone. *)
Lemma simple_parse_avg_cpu_file_eq text :
  AnalyzeResults.parse_avg_cpu_file text =
  if over_limit (samples_group I_S text) then Raise ValueError
  else
  Ret (match busy_record I_S text with
       | Some r => Some r
       | None =>
           match re_search I_ re_idle text with
           | Some m2 =>
               Some (mkCpu None (option_map number_value (group m2 1)) None)
           | None => None
           end
       end).
Proof.
  unfold AnalyzeResults.parse_avg_cpu_file, AnalyzeResults.patterns, busy_record,
    samples_group.
  cbn [AnalyzeResults.parse_avg_cpu_loop].
  destruct (re_search I_S re_cpu_full text) as [m|] eqn:E1.
  { destruct (groups_cpu_full _ _ E1) as (B & I & S & HB & HI & HS & DB & DI & DS).
    cbn [ngroups re_cpu_full cat Nat.eqb Nat.add].
    rewrite (float_of_decimal _ _ HB DB), (float_of_decimal _ _ HI DI),
      (int_of_digits _ _ HS DS), HB, HI, HS. cbn [bind].
    destruct (over_limit (Some S)); reflexivity. }
  destruct (re_search I_S re_cpu_noidle text) as [m|] eqn:E2.
  { destruct (groups_cpu_noidle _ _ _ E2) as (B & S & HB & HS & DB & DS).
    cbn [ngroups re_cpu_noidle cat Nat.eqb Nat.add].
    rewrite (float_of_decimal _ _ HB DB), (int_of_digits _ _ HS DS), HB, HS.
    cbn [bind]. destruct (over_limit (Some S)); reflexivity. }
  cbn [over_limit].
  destruct (re_search I_S re_cpu_min text) as [m|] eqn:E3.
  { destruct (group_cpu_min _ _ _ E3) as (B & HB & DB).
    cbn [ngroups re_cpu_min cat Nat.eqb Nat.add].
    rewrite (float_of_decimal _ _ HB DB), HB. reflexivity. }
  destruct (re_search I_ re_idle text) as [m|] eqn:E4; [|reflexivity].
  destruct (group_idle _ _ E4) as (I & HI & DI).
  rewrite (float_of_decimal _ _ HI DI), HI. reflexivity.
Qed.

Lemma report_parse_avg_cpu_file_eq text :
  AnalyzeResultsReport.parse_avg_cpu_file text =
  if over_limit (samples_group I_ text) then Raise ValueError
  else
  Ret (match busy_record I_ text with
       | Some r => Some r
       | None =>
           match re_search I_ re_idle text with
           | Some m4 =>
               let i := option_map number_value (group m4 1) in
               Some (mkCpu (option_map (fun i => round2 (fsub (float_of_Z 100) i)) i)
                           i None)
           | None => None
           end
       end).
Proof.
  unfold AnalyzeResultsReport.parse_avg_cpu_file, busy_record, samples_group.
  destruct (re_search I_S re_cpu_full text) as [m|] eqn:E1.
  { destruct (groups_cpu_full _ _ E1) as (B & I & S & HB & HI & HS & DB & DI & DS).
    rewrite (float_of_decimal _ _ HB DB), (float_of_decimal _ _ HI DI),
      (int_of_digits _ _ HS DS), HB, HI, HS. cbn [bind].
    destruct (over_limit (Some S)); reflexivity. }
  destruct (re_search I_ re_cpu_noidle text) as [m|] eqn:E2.
  { destruct (groups_cpu_noidle _ _ _ E2) as (B & S & HB & HS & DB & DS).
    rewrite (float_of_decimal _ _ HB DB), (int_of_digits _ _ HS DS), HB, HS.
    cbn [bind]. destruct (over_limit (Some S)); reflexivity. }
  cbn [over_limit].
  destruct (re_search I_ re_cpu_min text) as [m|] eqn:E3.
  { destruct (group_cpu_min _ _ _ E3) as (B & HB & DB).
    rewrite (float_of_decimal _ _ HB DB), HB. reflexivity. }
  destruct (re_search I_ re_idle text) as [m|] eqn:E4; [|reflexivity].
  destruct (group_idle _ _ E4) as (I & HI & DI).
  rewrite (float_of_decimal _ _ HI DI), HI. reflexivity.
Qed.

(* ================================================================== *)
(** * The CPU patterns and the shape of the text *)
(* ================================================================== *)

Lemma lit_eq_char fl (p : ascii) (w : str) :
  lower_char p = p -> (forall z, lower_char z = p -> z = p) ->
  lit_eq fl [p] w = true <-> w = [p].
Proof.
  intros Hp Hz. split.
  - intros H.
    destruct w as [|y [|z w]]; cbn in H; try discriminate.
    + rewrite andb_true_r in H.
      apply chr_eq_nocase in H; [now subst | assumption | assumption].
    + now rewrite andb_false_r in H.
  - intros ->. apply (lit_eq_refl fl [p]).
Qed.

Lemma lower_equals z : lower_char z = "="%char -> z = "="%char.
Proof. all_chars z. Qed.

Lemma lower_percent z : lower_char z = "%"%char -> z = "%"%char.
Proof. all_chars z. Qed.

Lemma lit_eq_equals fl w : lit_eq fl (L "=") w = true <-> w = L "=".
Proof. apply lit_eq_char; [reflexivity | apply lower_equals]. Qed.

Lemma lit_eq_percent fl w : lit_eq fl (L "%") w = true <-> w = L "%".
Proof. apply lit_eq_char; [reflexivity | apply lower_percent]. Qed.

Lemma lit_eq_I_S p w : lit_eq I_S p w = lit_eq I_ p w.
Proof. reflexivity. Qed.

Lemma forallb_dotall (w : str) : forallb (atom_ok I_S AAny) w = true.
Proof. induction w; cbn; auto. Qed.

(** Literal equalities produced by [break_match], turned into equations. *)
Ltac literals :=
  repeat match goal with
  | H : lit_eq _ (L "=") _ = true |- _ => apply lit_eq_equals in H
  | H : lit_eq _ (L "%") _ = true |- _ => apply lit_eq_percent in H
  end; subst.

(** A match of the richest pattern is an embedding of its shape, with the
    three groups as the three numbers. *)
Lemma cpu_full_match_shape text pre w rest c' :
  match_at I_S re_cpu_full text pre w rest c' ->
  exists B I S,
    c' = [(3, S); (2, I); (1, B)] /\ cpu_full_text text B I S.
Proof.
  intros [-> M]. unfold re_cpu_full in M. cbn [cat Matches] in M.
  break_match. literals. rewrite <- !app_assoc.
  do 3 eexists. split; [reflexivity|].
  unfold cpu_full_text.
  exists pre. do 14 eexists. exists rest.
  split; [reflexivity|].
  unfold same_nocase, spaces.
  repeat match goal with
  | |- decimal _ => assumption
  | |- digits _ => assumption
  | |- forallb _ _ = true => assumption
  | |- lit_eq I_ ?p ?w = true =>
      match goal with H : lit_eq I_S p w = true |- _ => exact H end
  | |- _ /\ _ => split
  end.
Qed.

(** An embedding of the shape is a match of the richest pattern. *)
Lemma cpu_full_shape_match text B I S :
  cpu_full_text text B I S ->
  exists pre w rest,
    match_at I_S re_cpu_full text pre w rest [(3, S); (2, I); (1, B)].
Proof.
  intros (pre & a & n1 & s1 & s2 & n2 & b & s3 & s4 & s5 & n3 & o & s6 & s7
          & e & post & -> & Ha & Hb & Ho & He & H1 & H2 & H3 & H4 & H5 & H6
          & H7 & DB & DI & DS).
  exists pre,
    (a ++ n1 ++ L "=" ++ s1 ++ B ++ s2 ++ L "%" ++ n2 ++ b ++ s3 ++ L "="
       ++ s4 ++ I ++ s5 ++ L "%" ++ n3 ++ o ++ s6 ++ S ++ s7 ++ e),
    post.
  split.
  - rewrite <- !app_assoc. reflexivity.
  - unfold re_cpu_full. cbn [cat Matches].
    unfold same_nocase, spaces in *.
    repeat match goal with
    | |- exists w1 w2 c1, _ ++ _ = w1 ++ w2 /\ _ /\ _ =>
        do 3 eexists; split; [reflexivity | split]
    | |- lit_eq _ _ _ = true /\ _ = _ =>
        split; [first [eassumption | apply lit_eq_equals; reflexivity
                      | apply lit_eq_percent; reflexivity] | reflexivity]
    | |- Matches _ (Star AAny) _ _ _ _ _ =>
        apply matches_star; split; [apply forallb_dotall | reflexivity]
    | |- Matches _ ws _ _ _ _ _ =>
        apply matches_ws; split; [eassumption | reflexivity]
    | |- exists c1, Matches _ NUM _ _ _ _ c1 /\ _ =>
        eexists; split; [apply matches_NUM; split; [eassumption | reflexivity]
                        | reflexivity]
    | |- exists c1, Matches _ (Plus digit) _ _ _ _ c1 /\ _ =>
        eexists; split; [apply matches_digits; split; [eassumption | reflexivity]
                        | reflexivity]
    end.
Qed.

(* ================================================================== *)
(** * The first match at a position: the greedy choices *)
(* ================================================================== *)

Section First.
Variable fl : flags.
Implicit Types (l w tail : str) (c : list (nat * str)).

Lemma run_seq r1 r2 st :
  run fl (Seq r1 r2) st = flat_map (run fl r2) (run fl r1 st).
Proof. reflexivity. Qed.

Lemma first_seq r1 r2 l w1 w2 tail c c1 c2 :
  hd_error (run fl r1 (mkState l (w1 ++ w2 ++ tail) c))
    = Some (mkState (rev w1 ++ l) (w2 ++ tail) c1) ->
  hd_error (run fl r2 (mkState (rev w1 ++ l) (w2 ++ tail) c1))
    = Some (mkState (rev w2 ++ rev w1 ++ l) tail c2) ->
  hd_error (run fl (Seq r1 r2) (mkState l ((w1 ++ w2) ++ tail) c))
    = Some (mkState (rev (w1 ++ w2) ++ l) tail c2).
Proof.
  rewrite <- app_assoc, rev_app_distr, <- app_assoc. cbn [run].
  destruct (run fl r1 _) as [|st1 l1]; [discriminate|]. intros [= ->].
  cbn [flat_map].
  destruct (run fl r2 _) as [|st2 l2]; [discriminate|]. intros [= ->].
  reflexivity.
Qed.

Lemma first_group n r l w tail c c1 :
  hd_error (run fl r (mkState l (w ++ tail) c))
    = Some (mkState (rev w ++ l) tail c1) ->
  hd_error (run fl (Group n r) (mkState l (w ++ tail) c))
    = Some (mkState (rev w ++ l) tail ((n, w) :: c1)).
Proof.
  cbn [run]. destruct (run fl r _) as [|st1 l1]; [discriminate|]. intros [= ->].
  cbn [map hd_error s_rest]. unfold set_cap. cbn [s_left s_rest s_caps].
  now rewrite length_app, Nat.add_sub, firstn_app, Nat.sub_diag, firstn_all,
    firstn_O, app_nil_r.
Qed.

Lemma run_length_all a w tail :
  forallb (atom_ok fl a) w = true ->
  not_first (atom_ok fl a) tail ->
  run_length fl a None (w ++ tail) = length w.
Proof.
  intros Hw Ht. induction w as [|x w IH]; cbn [app run_length length].
  - destruct tail as [|y tail]; [reflexivity|]. cbn in Ht.
    cbn [run_length]. now rewrite Ht.
  - cbn in Hw. apply andb_prop in Hw as [Hx Hw]. rewrite Hx. now rewrite IH.
Qed.

Lemma hd_counts_down lo k : lo <= k -> hd_error (counts_down lo k) = Some k.
Proof.
  intros H. unfold counts_down.
  replace (S k - lo) with (S (k - lo)) by lia.
  rewrite seq_S, rev_app_distr. cbn. f_equal. lia.
Qed.

(** A greedy repetition takes all the characters of its class. *)
Lemma first_rep a lo l w tail c :
  forallb (atom_ok fl a) w = true ->
  not_first (atom_ok fl a) tail ->
  lo <= length w ->
  hd_error (run fl (Rep a lo None) (mkState l (w ++ tail) c))
    = Some (mkState (rev w ++ l) tail c).
Proof.
  intros Hw Ht Hlo. cbn [run s_rest]. rewrite (run_length_all _ _ _ Hw Ht).
  pose proof (hd_counts_down _ _ Hlo) as H.
  destruct (counts_down lo (length w)) as [|k ks]; [discriminate|].
  injection H as ->. cbn [map hd_error]. now rewrite consume_app.
Qed.

Lemma first_lit p l w tail c :
  lit_eq fl p w = true ->
  hd_error (run fl (Lit p) (mkState l (w ++ tail) c))
    = Some (mkState (rev w ++ l) tail c).
Proof.
  intros H. cbn [run s_rest]. rewrite (lit_prefix_app _ _ _ tail H).
  cbn [hd_error]. rewrite <- (lit_eq_length _ _ _ H). now rewrite consume_app.
Qed.

Lemma first_then r1 r2 st st1 st2 :
  hd_error (run fl r1 st) = Some st1 ->
  hd_error (run fl r2 st1) = Some st2 ->
  hd_error (run fl (Seq r1 r2) st) = Some st2.
Proof.
  cbn [run]. destruct (run fl r1 st) as [|x l1]; [discriminate|].
  intros [= ->]. cbn [flat_map].
  destruct (run fl r2 st1) as [|y l2]; [discriminate|]. now intros [= ->].
Qed.

Lemma first_captures n r st st1 :
  hd_error (run fl r st) = Some st1 ->
  hd_error (run fl (Group n r) st)
    = Some (set_cap n (firstn (length (s_rest st) - length (s_rest st1))
                              (s_rest st)) st1).
Proof.
  cbn [run]. destruct (run fl r st) as [|x l1]; [discriminate|].
  now intros [= ->].
Qed.

Lemma firstn_prefix (w tail : str) :
  firstn (length (w ++ tail) - length tail) (w ++ tail) = w.
Proof.
  now rewrite length_app, Nat.add_sub, firstn_app, Nat.sub_diag, firstn_all,
    firstn_O, app_nil_r.
Qed.

Lemma first_opt_some r st st' :
  hd_error (run fl r st) = Some st' -> hd_error (run fl (Opt r) st) = Some st'.
Proof. cbn [run]. destruct (run fl r st); [discriminate|]. auto. Qed.

Lemma first_opt_none r st :
  run fl r st = [] -> hd_error (run fl (Opt r) st) = Some st.
Proof. cbn [run]. now intros ->. Qed.

Lemma run_point_fails l tail c :
  not_first num_char tail -> run fl (Lit (L ".")) (mkState l tail c) = [].
Proof.
  intros H. cbn [run s_rest]. destruct tail as [|x tail]; [reflexivity|].
  cbn in H. cbn [L list_ascii_of_string lit_prefix].
  destruct (chr_eq fl "." x) eqn:E; [|reflexivity].
  apply chr_eq_nocase in E; [|reflexivity | apply lower_point]. now subst.
Qed.

Lemma not_first_weaken (f g : ascii -> bool) tail :
  (forall x, f x = false -> g x = false) -> not_first f tail -> not_first g tail.
Proof. intros H. destruct tail; cbn; auto. Qed.

Lemma num_char_digit x : num_char x = false -> is_digit09 x = false.
Proof. unfold num_char. now destruct (is_digit09 x). Qed.

(** [NUM] takes a whole decimal number when what follows is neither a
    digit nor a point. *)
Lemma first_NUM d l tail c :
  decimal d -> not_first num_char tail ->
  hd_error (run fl NUM (mkState l (d ++ tail) c))
    = Some (mkState (rev d ++ l) tail c).
Proof.
  intros Hd Ht. unfold NUM. cbn [cat].
  assert (Htd : not_first (atom_ok fl digit) tail)
    by (apply (not_first_weaken num_char); [apply num_char_digit | assumption]).
  destruct Hd as [[Hne Hd] | (ip & fp & -> & [Hine Hi] & [Hfne Hf])].
  - rewrite <- (app_nil_r d) at 1 2.
    eapply first_seq; cbn [app].
    + apply first_rep; auto. destruct d; cbn; [congruence | lia].
    + cbn [rev app]. apply first_opt_none.
      cbn [cat]. rewrite run_seq. now rewrite run_point_fails.
  - eapply first_seq.
    + apply first_rep; auto.
      * reflexivity.
      * destruct ip; cbn; [congruence | lia].
    + apply first_opt_some. cbn [cat].
      eapply first_seq.
      * apply first_lit. apply lit_eq_refl.
      * apply first_rep; auto. destruct fp; cbn; [congruence | lia].
Qed.

End First.

(* ================================================================== *)
(** * Durations *)
(* ================================================================== *)

Lemma chr_eq_m x : chr_eq I_ "m" x = true -> x = "m"%char \/ x = "M"%char.
Proof. all_chars x; auto. Qed.

Lemma chr_eq_s x : chr_eq I_ "s" x = true -> x = "s"%char \/ x = "S"%char.
Proof. all_chars x; auto. Qed.

Lemma chr_eq_u x : chr_eq I_ "u" x = true -> x = "u"%char \/ x = "U"%char.
Proof. all_chars x; auto. Qed.

Lemma same_nocase_ms u :
  same_nocase (L "ms") u -> In u [L "ms"; L "mS"; L "Ms"; L "MS"].
Proof.
  unfold same_nocase. destruct u as [|x [|y [|z u]]]; cbn [L list_ascii_of_string lit_eq];
    rewrite ?andb_false_r; try discriminate.
  intros H. apply andb_prop in H as [Hx H]. apply andb_prop in H as [Hy _].
  destruct (chr_eq_m _ Hx) as [-> | ->], (chr_eq_s _ Hy) as [-> | ->]; cbn; auto.
Qed.

Lemma same_nocase_us u :
  same_nocase (L "us") u -> In u [L "us"; L "uS"; L "Us"; L "US"].
Proof.
  unfold same_nocase. destruct u as [|x [|y [|z u]]]; cbn [L list_ascii_of_string lit_eq];
    rewrite ?andb_false_r; try discriminate.
  intros H. apply andb_prop in H as [Hx H]. apply andb_prop in H as [Hy _].
  destruct (chr_eq_u _ Hx) as [-> | ->], (chr_eq_s _ Hy) as [-> | ->]; cbn; auto.
Qed.

Lemma same_nocase_s u : same_nocase (L "s") u -> In u [L "s"; L "S"].
Proof.
  unfold same_nocase. destruct u as [|x [|y u]]; cbn [L list_ascii_of_string lit_eq];
    rewrite ?andb_false_r; try discriminate.
  intros H. apply andb_prop in H as [Hx _].
  destruct (chr_eq_s _ Hx) as [-> | ->]; cbn; auto.
Qed.

(** The unit of a duration, as the pattern finds it. *)
Lemma first_unit fl u l c :
  (fl = I_ /\ In u unit_spellings) \/ (fl = no_flags /\ In u [L "ms"; L "s"; L "us"]) ->
  hd_error (run fl (Opt (Group 2 UNIT)) (mkState l u c))
    = Some (mkState (rev u ++ l) [] ((2, u) :: c)).
Proof.
  unfold unit_spellings.
  intros [[-> H] | [-> H]]; cbn [In] in H;
    repeat (destruct H as [<- | H]; [reflexivity|]); contradiction.
Qed.

Lemma spaces_not_num s u :
  spaces s -> not_first num_char u -> not_first num_char (s ++ u).
Proof.
  intros Hs Hu. destruct s as [|x s]; [exact Hu|]. cbn in *.
  apply andb_prop in Hs as [Hx _]. revert Hx. clear. unfold num_char. all_chars x.
Qed.

(** The match of the pattern of a duration on a number, white space and a
    unit. *)
Lemma first_duration fl d s u :
  decimal d -> spaces s ->
  (fl = I_ /\ In u unit_spellings) \/ (fl = no_flags /\ In u [L "ms"; L "s"; L "us"]) ->
  re_match fl re_duration (d ++ s ++ u)
    = Some (mkState (rev u ++ rev s ++ rev d) []
                    [(0, d ++ s ++ u); (2, u); (1, d)]).
Proof.
  intros Hd Hs Hu. unfold re_match.
  assert (Hu1 : not_first num_char u /\ not_first is_space u).
  { unfold unit_spellings in Hu.
    destruct Hu as [[_ H] | [_ H]]; cbn [In] in H;
      repeat (destruct H as [<- | H]; [split; reflexivity|]); contradiction. }
  destruct Hu1 as [Hun Hus].
  erewrite first_captures.
  2:{ unfold re_duration. cbn [cat]. eapply first_then.
      - eapply first_captures. apply first_NUM; auto.
        now apply spaces_not_num.
      - unfold set_cap. cbn [s_left s_rest s_caps]. eapply first_then.
        + unfold ws, Star. apply first_rep; [exact Hs | exact Hus | lia].
        + apply first_unit. exact Hu. }
  unfold set_cap. cbn [s_left s_rest s_caps length].
  rewrite firstn_prefix, Nat.sub_0_r, firstn_all, app_nil_r. reflexivity.
Qed.

(** The match of the pattern of a duration on a number alone. *)
Lemma first_duration_plain fl d :
  decimal d ->
  re_match fl re_duration d = Some (mkState (rev d) [] [(0, d); (1, d)]).
Proof.
  intros Hd. unfold re_match.
  pose proof (first_NUM fl d [] [] [] Hd I) as HN. rewrite !app_nil_r in HN.
  erewrite first_captures.
  2:{ unfold re_duration. cbn [cat]. eapply first_then.
      - eapply first_captures. exact HN.
      - unfold set_cap. cbn [s_left s_rest s_caps]. reflexivity. }
  unfold set_cap. cbn [s_left s_rest s_caps length app rev].
  rewrite !Nat.sub_0_r, !firstn_all. reflexivity.
Qed.

(** ** Stripping *)

Lemma lstrip_spaces lead x :
  spaces lead -> lstrip (lead ++ x) = lstrip x.
Proof.
  unfold spaces. induction lead as [|c lead IH]; cbn; [reflexivity|].
  intros H. apply andb_prop in H as [Hc H]. rewrite Hc. auto.
Qed.

Lemma spaces_rev s : spaces s -> spaces (rev s).
Proof.
  unfold spaces. rewrite !forallb_forall. intros H c Hc. apply H.
  now apply in_rev.
Qed.

(** [strip] removes the white space around a text that neither starts nor
    ends with white space. *)
Lemma strip_around lead x trail :
  spaces lead -> spaces trail ->
  not_first is_space x -> not_first is_space (rev x) ->
  strip (lead ++ x ++ trail) = x.
Proof.
  intros Hl Ht Hx Hr. unfold strip, rstrip.
  rewrite (lstrip_spaces _ _ Hl).
  assert (E : lstrip (x ++ trail) = x ++ trail \/ x = []).
  { destruct x as [|c x]; [now right|]. left. cbn in *. now rewrite Hx. }
  destruct E as [E | ->].
  - rewrite E, rev_app_distr, (lstrip_spaces _ _ (spaces_rev _ Ht)).
    rewrite lstrip_digit; [apply rev_involutive|].
    destruct (rev x); [exact I | exact Hr].
  - cbn [app]. clear Hx Hr.
    assert (Hs : forall t, spaces t -> lstrip t = []).
    { induction t as [|c t IH]; cbn; [reflexivity|].
      intros H. apply andb_prop in H as [Hc H]. rewrite Hc. auto. }
    rewrite (Hs _ Ht). cbn. reflexivity.
Qed.

Lemma decimal_not_space_first d : decimal d -> not_first is_space d.
Proof.
  intros H. destruct (decimal_first _ H) as (c & w & -> & Hc).
  cbn. now apply digit_not_space.
Qed.

Lemma decimal_not_space_last d : decimal d -> not_first is_space (rev d).
Proof.
  intros H. destruct (decimal_last _ H) as (c & w & -> & Hc).
  cbn. now apply digit_not_space.
Qed.

Lemma strip_duration lead d s u trail :
  spaces lead -> spaces trail -> decimal d -> In u unit_spellings ->
  strip (lead ++ (d ++ s ++ u) ++ trail) = d ++ s ++ u.
Proof.
  intros Hl Ht Hd Hu. apply strip_around; auto.
  - destruct (decimal_first _ Hd) as (c & w & -> & Hc).
    cbn. now apply digit_not_space.
  - rewrite !rev_app_distr. unfold unit_spellings in Hu. cbn [In] in Hu.
    repeat (destruct Hu as [<- | Hu]; [reflexivity|]). contradiction.
Qed.

(** ** Lower case *)

Lemma lower_char_space c : is_space c = true -> lower_char c = c.
Proof. all_chars c. Qed.

Lemma lower_char_num c : num_char c = true -> lower_char c = c.
Proof. all_chars c. Qed.

Lemma lower_char_keeps_space c : is_space (lower_char c) = is_space c.
Proof. all_chars c. Qed.

Lemma lower_decimal d : decimal d -> lower d = d.
Proof.
  intros H. apply decimal_num_chars in H. unfold lower.
  induction d as [|c d IH]; cbn in *; [reflexivity|].
  apply andb_prop in H as [Hc H]. now rewrite (lower_char_num _ Hc), IH.
Qed.

Lemma lower_spaces s : spaces s -> spaces (lower s).
Proof.
  unfold spaces, lower. induction s as [|c s IH]; cbn; [reflexivity|].
  intros H. apply andb_prop in H as [Hc H].
  now rewrite lower_char_keeps_space, Hc, IH.
Qed.

Lemma lower_app a b : lower (a ++ b) = lower a ++ lower b.
Proof. apply map_app. Qed.

(** ** [convert_to_seconds] on a number with a unit *)

Lemma simple_convert_unit lead d s u trail :
  spaces lead -> spaces trail -> decimal d -> spaces s -> In u unit_spellings ->
  AnalyzeResults.convert_to_seconds (Some (lead ++ (d ++ s ++ u) ++ trail)) =
  Ret (Some (if str_eqb (lower u) (L "ms")
             then fdiv (number_value d) (float_of_Z 1000)
             else if str_eqb (lower u) (L "us")
                  then fdiv (number_value d) (float_of_Z 1000000)
                  else number_value d)).
Proof.
  intros Hl Ht Hd Hs Hu. unfold AnalyzeResults.convert_to_seconds.
  rewrite (strip_duration _ _ _ _ _ Hl Ht Hd Hu).
  rewrite (first_duration I_ d s u Hd Hs (or_introl (conj eq_refl Hu))).
  unfold group. cbn [s_caps assoc Nat.eqb float_of].
  rewrite (py_float_decimal _ Hd). cbn [bind].
  assert (E : or_else (Some u) (L "s") = u).
  { unfold unit_spellings in Hu. cbn [In] in Hu.
    repeat (destruct Hu as [<- | Hu]; [reflexivity|]). contradiction. }
  rewrite E.
  destruct (str_eqb (lower u) (L "ms")); [reflexivity|].
  destruct (str_eqb (lower u) (L "us")); reflexivity.
Qed.

Lemma report_convert_unit lead d s u trail :
  spaces lead -> spaces trail -> decimal d -> spaces s -> In u unit_spellings ->
  AnalyzeResultsReport.convert_to_seconds (Some (lead ++ (d ++ s ++ u) ++ trail)) =
  Ret (Some (if str_eqb (lower u) (L "ms")
             then fdiv (number_value d) (float_of_Z 1000)
             else if str_eqb (lower u) (L "us")
                  then fdiv (number_value d) (float_of_Z 1000000)
                  else number_value d)).
Proof.
  intros Hl Ht Hd Hs Hu. unfold AnalyzeResultsReport.convert_to_seconds.
  rewrite (strip_duration _ _ _ _ _ Hl Ht Hd Hu).
  rewrite !lower_app, (lower_decimal _ Hd).
  assert (Hlu : In (lower u) [L "ms"; L "s"; L "us"]).
  { unfold unit_spellings in Hu. cbn [In] in Hu.
    repeat (destruct Hu as [<- | Hu]; [cbn; tauto|]). contradiction. }
  rewrite (first_duration no_flags d (lower s) (lower u) Hd (lower_spaces _ Hs)
             (or_intror (conj eq_refl Hlu))).
  unfold group. cbn [s_caps assoc Nat.eqb float_of].
  rewrite (py_float_decimal _ Hd). cbn [bind].
  assert (E : or_else (Some (lower u)) (L "s") = lower u).
  { cbn [In] in Hlu.
    repeat (destruct Hlu as [<- | Hlu]; [reflexivity|]). contradiction. }
  rewrite E.
  destruct (str_eqb (lower u) (L "ms")); [reflexivity|].
  destruct (str_eqb (lower u) (L "us")); reflexivity.
Qed.

Lemma simple_convert_plain lead d trail :
  spaces lead -> spaces trail -> decimal d ->
  AnalyzeResults.convert_to_seconds (Some (lead ++ d ++ trail))
    = Ret (Some (number_value d)).
Proof.
  intros Hl Ht Hd. unfold AnalyzeResults.convert_to_seconds.
  rewrite (strip_around _ _ _ Hl Ht (decimal_not_space_first _ Hd)
             (decimal_not_space_last _ Hd)).
  rewrite (first_duration_plain I_ d Hd).
  unfold group. cbn [s_caps assoc Nat.eqb float_of].
  rewrite (py_float_decimal _ Hd). reflexivity.
Qed.

Lemma report_convert_plain lead d trail :
  spaces lead -> spaces trail -> decimal d ->
  AnalyzeResultsReport.convert_to_seconds (Some (lead ++ d ++ trail))
    = Ret (Some (number_value d)).
Proof.
  intros Hl Ht Hd. unfold AnalyzeResultsReport.convert_to_seconds.
  rewrite (strip_around _ _ _ Hl Ht (decimal_not_space_first _ Hd)
             (decimal_not_space_last _ Hd)).
  rewrite (lower_decimal _ Hd), (first_duration_plain no_flags d Hd).
  unfold group. cbn [s_caps assoc Nat.eqb float_of].
  rewrite (py_float_decimal _ Hd). reflexivity.
Qed.

Lemma spelling_ms u : same_nocase (L "ms") u ->
  In u unit_spellings /\ lower u = L "ms".
Proof.
  intros H. apply same_nocase_ms in H. cbn [In] in H. unfold unit_spellings.
  repeat (destruct H as [<- | H]; [split; [cbn; tauto | reflexivity]|]).
  contradiction.
Qed.

Lemma spelling_us u : same_nocase (L "us") u ->
  In u unit_spellings /\ lower u = L "us".
Proof.
  intros H. apply same_nocase_us in H. cbn [In] in H. unfold unit_spellings.
  repeat (destruct H as [<- | H]; [split; [cbn; tauto | reflexivity]|]).
  contradiction.
Qed.

Lemma spelling_s u : same_nocase (L "s") u ->
  In u unit_spellings /\ lower u = L "s".
Proof.
  intros H. apply same_nocase_s in H. cbn [In] in H. unfold unit_spellings.
  repeat (destruct H as [<- | H]; [split; [cbn; tauto | reflexivity]|]).
  contradiction.
Qed.

(** C5.  In both scripts [convert_to_seconds] maps [65.54ms] to
    [0.06554], [1.04s] to [1.04], [200us] to [0.0002] and the empty string
    to nothing.  In general, for a decimal number [d] with white space
    around it and before its unit, the unit [ms] in any case divides the
    number by 1000, the unit [us] by 1,000,000, and the unit [s] or no
    unit leaves it as it is.  A value that the pattern does not match and
    that [float] rejects gives nothing; and no call raises. *)
Theorem convert_to_seconds_units :
  (AnalyzeResults.convert_to_seconds (Some (L "65.54ms"))
     = Ret (Some (number_value (L "0.06554")))
   /\ AnalyzeResults.convert_to_seconds (Some (L "1.04s"))
     = Ret (Some (number_value (L "1.04")))
   /\ AnalyzeResults.convert_to_seconds (Some (L "200us"))
     = Ret (Some (number_value (L "0.0002")))
   /\ AnalyzeResults.convert_to_seconds (Some []) = Ret None)
  /\ (AnalyzeResultsReport.convert_to_seconds (Some (L "65.54ms"))
        = Ret (Some (number_value (L "0.06554")))
      /\ AnalyzeResultsReport.convert_to_seconds (Some (L "1.04s"))
        = Ret (Some (number_value (L "1.04")))
      /\ AnalyzeResultsReport.convert_to_seconds (Some (L "200us"))
        = Ret (Some (number_value (L "0.0002")))
      /\ AnalyzeResultsReport.convert_to_seconds (Some []) = Ret None)
  /\ (forall lead d s u trail,
        spaces lead -> decimal d -> spaces s -> spaces trail ->
        (same_nocase (L "ms") u ->
         AnalyzeResults.convert_to_seconds (Some (lead ++ (d ++ s ++ u) ++ trail))
           = Ret (Some (fdiv (number_value d) (float_of_Z 1000)))
         /\ AnalyzeResultsReport.convert_to_seconds
              (Some (lead ++ (d ++ s ++ u) ++ trail))
           = Ret (Some (fdiv (number_value d) (float_of_Z 1000))))
        /\ (same_nocase (L "us") u ->
         AnalyzeResults.convert_to_seconds (Some (lead ++ (d ++ s ++ u) ++ trail))
           = Ret (Some (fdiv (number_value d) (float_of_Z 1000000)))
         /\ AnalyzeResultsReport.convert_to_seconds
              (Some (lead ++ (d ++ s ++ u) ++ trail))
           = Ret (Some (fdiv (number_value d) (float_of_Z 1000000))))
        /\ (same_nocase (L "s") u ->
         AnalyzeResults.convert_to_seconds (Some (lead ++ (d ++ s ++ u) ++ trail))
           = Ret (Some (number_value d))
         /\ AnalyzeResultsReport.convert_to_seconds
              (Some (lead ++ (d ++ s ++ u) ++ trail))
           = Ret (Some (number_value d)))
        /\ AnalyzeResults.convert_to_seconds (Some (lead ++ d ++ trail))
           = Ret (Some (number_value d))
        /\ AnalyzeResultsReport.convert_to_seconds (Some (lead ++ d ++ trail))
           = Ret (Some (number_value d)))
  /\ (forall v,
        re_match I_ re_duration (strip v) = None ->
        (forall x, py_float (strip v) <> Ret x) ->
        AnalyzeResults.convert_to_seconds (Some v) = Ret None)
  /\ (forall v,
        re_match no_flags re_duration (lower (strip v)) = None ->
        (forall x, py_float (lower (strip v)) <> Ret x) ->
        AnalyzeResultsReport.convert_to_seconds (Some v) = Ret None)
  /\ (forall v, exists r, AnalyzeResults.convert_to_seconds v = Ret r)
  /\ (forall v, exists r, AnalyzeResultsReport.convert_to_seconds v = Ret r).
Proof.
  split; [repeat split; vm_compute; reflexivity|].
  split; [repeat split; vm_compute; reflexivity|].
  split; [|split; [|split; [|split]]].
  - intros lead d s u trail Hl Hd Hs Ht.
    split; [|split; [|split; [|split]]].
    + intros Hu. destruct (spelling_ms _ Hu) as [Hin Hlow].
      rewrite (simple_convert_unit _ _ _ _ _ Hl Ht Hd Hs Hin),
        (report_convert_unit _ _ _ _ _ Hl Ht Hd Hs Hin), Hlow.
      split; reflexivity.
    + intros Hu. destruct (spelling_us _ Hu) as [Hin Hlow].
      rewrite (simple_convert_unit _ _ _ _ _ Hl Ht Hd Hs Hin),
        (report_convert_unit _ _ _ _ _ Hl Ht Hd Hs Hin), Hlow.
      split; reflexivity.
    + intros Hu. destruct (spelling_s _ Hu) as [Hin Hlow].
      rewrite (simple_convert_unit _ _ _ _ _ Hl Ht Hd Hs Hin),
        (report_convert_unit _ _ _ _ _ Hl Ht Hd Hs Hin), Hlow.
      split; reflexivity.
    + now apply simple_convert_plain.
    + now apply report_convert_plain.
  - intros v Hm Hf. unfold AnalyzeResults.convert_to_seconds. rewrite Hm.
    destruct (py_float (strip v)) as [x|e] eqn:E; [|reflexivity].
    now destruct (Hf x).
  - intros v Hm Hf. unfold AnalyzeResultsReport.convert_to_seconds. rewrite Hm.
    destruct (py_float (lower (strip v))) as [x|e] eqn:E; [|reflexivity].
    now destruct (Hf x).
  - intros v. eexists. apply simple_convert_to_seconds_total.
  - intros v. eexists. apply report_convert_to_seconds_total.
Qed.

(* ================================================================== *)
(** * The match that a search selects *)
(* ================================================================== *)

Lemma hd_error_in (A : Type) (l : list A) (m : A) :
  hd_error l = Some m -> In m l.
Proof. destruct l; cbn; [discriminate|]. intros [= ->]. now left. Qed.

(** The first result of a search that tries the elements of [l] in order
    comes from the first element that gives a result. *)
Lemma hd_flat_map (A B : Type) (f : A -> list B) (l : list A) (m : B) :
  hd_error (flat_map f l) = Some m ->
  exists x, In x l /\ hd_error (f x) = Some m.
Proof.
  induction l as [|a l IH]; cbn [flat_map]; [discriminate|].
  destruct (f a) as [|y ys] eqn:E.
  - cbn [app]. intros H. destruct (IH H) as (x & Hin & Hx).
    exists x. split; [now right | exact Hx].
  - cbn. intros [= ->]. exists a. split; [now left|]. now rewrite E.
Qed.

Lemma flat_map_of_map (A B C : Type) (f : B -> list C) (g : A -> B) (l : list A) :
  flat_map f (map g l) = flat_map (fun x => f (g x)) l.
Proof. induction l as [|a l IH]; cbn; [reflexivity|]. now rewrite IH. Qed.

Lemma counts_down_S lo k :
  lo <= S k -> counts_down lo (S k) = S k :: counts_down lo k.
Proof.
  intros H. unfold counts_down.
  replace (S (S k) - lo) with (S (S k - lo)) by lia.
  rewrite seq_S, rev_app_distr. cbn [rev app]. f_equal. lia.
Qed.

Lemma counts_down_none lo k : k < lo -> counts_down lo k = [].
Proof.
  intros H. unfold counts_down. now replace (S k - lo) with 0 by lia.
Qed.

(** A greedy repetition settles on the largest count with which the rest
    of the pattern matches: every larger count fails. *)
Lemma first_count (B : Type) (f : nat -> list B) lo k m :
  hd_error (flat_map f (counts_down lo k)) = Some m ->
  exists n, lo <= n <= k /\ hd_error (f n) = Some m
            /\ forall n', n < n' <= k -> f n' = [].
Proof.
  induction k as [|k IH].
  - destruct lo as [|lo].
    + cbn. rewrite app_nil_r. intros H. exists 0.
      split; [lia|]. split; [exact H|]. intros n' Hn'. lia.
    + rewrite counts_down_none by lia. discriminate.
  - destruct (le_lt_dec lo (S k)) as [Hle|Hlt].
    + rewrite counts_down_S by exact Hle. cbn [flat_map].
      destruct (f (S k)) as [|y ys] eqn:E.
      * cbn [app]. intros H. destruct (IH H) as (n & Hn & Hf & Hlater).
        exists n. split; [lia|]. split; [exact Hf|].
        intros n' Hn'. destruct (Nat.eq_dec n' (S k)) as [->|Hne];
          [exact E | apply Hlater; lia].
      * cbn. intros [= ->]. exists (S k). rewrite E.
        split; [lia|]. split; [reflexivity|]. intros n' Hn'. lia.
    + rewrite counts_down_none by lia. discriminate.
Qed.

Section Selected.
Variable fl : flags.
Implicit Types (l w s rest : str) (c : list (nat * str)).

Lemma first_of_seq r1 r2 l s c m :
  hd_error (run fl (Seq r1 r2) (mkState l s c)) = Some m ->
  exists w rest c1,
    s = w ++ rest /\ Matches fl r1 l w rest c c1
    /\ hd_error (run fl r2 (mkState (rev w ++ l) rest c1)) = Some m.
Proof.
  cbn [run]. intros H. apply hd_flat_map in H. destruct H as (x & Hin & Hx).
  apply run_spec in Hin. destruct Hin as (w & rest & c1 & -> & -> & M).
  exists w, rest, c1. auto.
Qed.

Lemma first_of_group n r st m :
  hd_error (run fl (Group n r) st) = Some m ->
  exists m0 w, hd_error (run fl r st) = Some m0
               /\ s_caps m = (n, w) :: s_caps m0.
Proof.
  cbn [run]. destruct (run fl r st) as [|m0 ms]; [discriminate|].
  cbn. intros [= <-]. do 2 eexists. split; reflexivity.
Qed.

(** After a greedy [a*], the rest of the pattern matches at the point
    that the first match passes through, and at no later point that the
    repetition reaches. *)
Lemma first_after_star a r2 l s c m :
  hd_error (run fl (Seq (Star a) r2) (mkState l s c)) = Some m ->
  exists w rest,
    s = w ++ rest /\ forallb (atom_ok fl a) w = true
    /\ hd_error (run fl r2 (mkState (rev w ++ l) rest c)) = Some m
    /\ forall w' rest',
         s = w' ++ rest' -> forallb (atom_ok fl a) w' = true ->
         length w < length w' ->
         run fl r2 (mkState (rev w' ++ l) rest' c) = [].
Proof.
  unfold Star. cbn [run s_rest]. rewrite flat_map_of_map. intros H.
  apply first_count in H. destruct H as (n & Hn & Hf & Hlater).
  assert (Hs : n <= run_length fl a None s) by lia.
  apply run_length_spec in Hs. destruct Hs as (Hlen & Hall & _).
  exists (firstn n s), (skipn n s). split; [symmetry; apply firstn_skipn|].
  split; [exact Hall|]. split; [exact Hf|].
  intros w' rest' -> Hw' Hlt. rewrite length_firstn in Hlt.
  rewrite <- (consume_app w' l rest' c). apply Hlater. split; [lia|].
  apply run_length_spec. rewrite forallb_firstn_app, length_app.
  split; [lia|]. split; [exact Hw' | exact I].
Qed.

(** A search settles on the first position at which the pattern matches. *)
Lemma search_from_first r : forall rest0 left0 m,
  search_from fl r left0 rest0 = Some m ->
  exists skipped rest,
    rest0 = skipped ++ rest
    /\ hd_error (run fl r (mkState (rev skipped ++ left0) rest [])) = Some m
    /\ forall sk rest',
         rest0 = sk ++ rest' -> length sk < length skipped ->
         run fl r (mkState (rev sk ++ left0) rest' []) = [].
Proof.
  induction rest0 as [|x rest0 IH]; intros left0 m; cbn [search_from];
    destruct (run fl r (mkState left0 _ [])) as [|m0 ms] eqn:E.
  - discriminate.
  - intros [= ->]. exists [], []. cbn [rev app]. rewrite E.
    split; [reflexivity|]. split; [reflexivity|]. cbn. intros; lia.
  - intros H. destruct (IH _ _ H) as (sk0 & rest & -> & Hm & Hno).
    exists (x :: sk0), rest. split; [reflexivity|]. split.
    + cbn [rev]. now rewrite <- app_assoc.
    + intros [|y sk] rest' Heq Hlt.
      * cbn [rev app] in *. now subst rest'.
      * cbn [app] in Heq. injection Heq as <- Heq. cbn [rev].
        rewrite <- app_assoc. cbn [app]. apply Hno; [exact Heq|].
        cbn [length] in Hlt. lia.
  - intros [= ->]. exists [], (x :: rest0). cbn [rev app]. rewrite E.
    split; [reflexivity|]. split; [reflexivity|]. cbn. intros; lia.
Qed.

Lemma no_run_no_match r l s c w rest c' :
  run fl r (mkState l s c) = [] -> s = w ++ rest ->
  ~ Matches fl r l w rest c c'.
Proof.
  intros E -> M.
  assert (H : In (mkState (rev w ++ l) rest c') (run fl r (mkState l (w ++ rest) c))).
  { apply run_spec. exists w, rest, c'. auto. }
  rewrite E in H. exact H.
Qed.

End Selected.

(* ================================================================== *)
(** * The numbers of a text are where they are *)
(* ================================================================== *)

Lemma app_same_length (A : Type) (a a' b b' : list A) :
  a ++ b = a' ++ b' -> length a = length a' -> a = a' /\ b = b'.
Proof.
  revert a'. induction a as [|x a IH]; intros [|y a'] H Hl; cbn in *;
    try discriminate; auto.
  injection H as -> H. injection Hl as Hl.
  destruct (IH a' H Hl) as [-> ->]. auto.
Qed.

(** A run of characters of a class that ends where the class ends is
    determined by the text. *)
Lemma class_prefix_unique (f : ascii -> bool) (a b a' b' : str) :
  forallb f a = true -> forallb f a' = true ->
  not_first f b -> not_first f b' ->
  a ++ b = a' ++ b' -> a = a' /\ b = b'.
Proof.
  revert a'. induction a as [|x a IH]; intros [|y a'] Ha Ha' Hb Hb' H;
    cbn [app forallb] in *.
  - auto.
  - subst b. cbn in Hb. apply andb_prop in Ha' as [Hy _]. congruence.
  - subst b'. cbn in Hb'. apply andb_prop in Ha as [Hx _]. congruence.
  - injection H as -> H. apply andb_prop in Ha as [_ Ha].
    apply andb_prop in Ha' as [_ Ha'].
    destruct (IH a' Ha Ha' Hb Hb' H) as [-> ->]. auto.
Qed.

Lemma space_not_num_char x : is_space x = true -> num_char x = false.
Proof. all_chars x. Qed.

Lemma space_not_digit x : is_space x = true -> is_digit09 x = false.
Proof. all_chars x. Qed.

Lemma decimal_not_space (w r : str) : decimal w -> not_first is_space (w ++ r).
Proof.
  intros H. destruct (decimal_first _ H) as (x & w' & -> & Hx). cbn.
  now apply digit_not_space.
Qed.

Lemma digits_not_space (w r : str) : digits w -> not_first is_space (w ++ r).
Proof.
  intros H. destruct (digits_first _ H) as (x & w' & -> & Hx). cbn.
  now apply digit_not_space.
Qed.

Lemma spaces_then (f : ascii -> bool) (s r : str) :
  (forall x, is_space x = true -> f x = false) ->
  spaces s -> not_first f r -> not_first f (s ++ r).
Proof.
  intros Hf Hs Hr. destruct s as [|x s]; [exact Hr|].
  cbn in *. apply andb_prop in Hs as [Hx _]. auto.
Qed.

Lemma samples_not_digit (e r : str) :
  same_nocase (L "samples") e -> not_first is_digit09 (e ++ r).
Proof.
  unfold same_nocase. destruct e as [|x e]; [discriminate|].
  cbn. intros H. apply andb_prop in H as [H _]. revert H. all_chars x.
Qed.

(** [\s*(NUM)\s*%]: the number between an equals sign and a percent sign
    is determined by the text. *)
Lemma number_percent_unique (s1 B s2 r s1' B' s2' r' : str) :
  spaces s1 -> decimal B -> spaces s2 ->
  spaces s1' -> decimal B' -> spaces s2' ->
  s1 ++ B ++ s2 ++ L "%" ++ r = s1' ++ B' ++ s2' ++ L "%" ++ r' ->
  s1 = s1' /\ B = B' /\ s2 = s2' /\ r = r'.
Proof.
  intros S1 DB S2 S1' DB' S2' H.
  apply (class_prefix_unique is_space) in H; auto using decimal_not_space.
  destruct H as [-> H].
  apply (class_prefix_unique num_char) in H;
    auto using decimal_num_chars, spaces_then, space_not_num_char.
  2, 3: apply spaces_then; auto using space_not_num_char; reflexivity.
  destruct H as [-> H].
  apply (class_prefix_unique is_space) in H; auto; try reflexivity.
  destruct H as [-> H]. injection H as ->. auto.
Qed.

(** [\s*([0-9]+)\s*samples]: so is the sample count. *)
Lemma count_samples_unique (s6 S s7 e r s6' S' s7' e' r' : str) :
  spaces s6 -> digits S -> spaces s7 -> same_nocase (L "samples") e ->
  spaces s6' -> digits S' -> spaces s7' -> same_nocase (L "samples") e' ->
  s6 ++ S ++ s7 ++ e ++ r = s6' ++ S' ++ s7' ++ e' ++ r' ->
  s6 = s6' /\ S = S'.
Proof.
  intros S6 DS S7 E S6' DS' S7' E' H.
  apply (class_prefix_unique is_space) in H; auto using digits_not_space.
  destruct H as [-> H].
  apply (class_prefix_unique is_digit09) in H;
    try (apply spaces_then; auto using space_not_digit, samples_not_digit).
  - destruct H as [-> _]. auto.
  - apply DS.
  - apply DS'.
Qed.

(* ================================================================== *)
(** * The parts of the richest pattern *)
(* ================================================================== *)

Lemma re_cpu_full_parts :
  re_cpu_full = Seq (Lit (L "AVG busy")) (Seq (Star AAny) cpu_after1).
Proof. reflexivity. Qed.

Lemma first_of_num_segment n r (l s : str) c m :
  hd_error (run I_S (num_segment n r) (mkState l s c)) = Some m ->
  exists s1 B s2 rest l',
    s = L "=" ++ s1 ++ B ++ s2 ++ L "%" ++ rest
    /\ spaces s1 /\ decimal B /\ spaces s2
    /\ hd_error (run I_S r (mkState l' rest ((n, B) :: c))) = Some m.
Proof.
  unfold num_segment. intros H.
  apply first_of_seq in H. destruct H as (w0 & r0 & c0 & -> & M0 & H).
  apply first_of_seq in H. destruct H as (w1 & r1 & c1 & -> & M1 & H).
  apply first_of_seq in H. destruct H as (w2 & r2 & c2 & -> & M2 & H).
  apply first_of_seq in H. destruct H as (w3 & r3 & c3 & -> & M3 & H).
  apply first_of_seq in H. destruct H as (w4 & r4 & c4 & -> & M4 & H).
  cbn [Matches] in M0, M4. destruct M0 as [E0 ->]. destruct M4 as [E4 ->].
  apply lit_eq_equals in E0. apply lit_eq_percent in E4. subst w0 w4.
  apply matches_ws in M1. destruct M1 as [S1 ->].
  apply matches_group in M2; [|reflexivity]. destruct M2 as [M2 ->].
  apply matches_NUM in M2. destruct M2 as [D _].
  apply matches_ws in M3. destruct M3 as [S3 ->].
  exists w1, w2, w3, r4. eexists. split; [reflexivity|].
  split; [exact S1|]. split; [exact D|]. split; [exact S3|]. exact H.
Qed.

Lemma num_segment_matches n r (l s1 B s2 w rest : str) c c' :
  spaces s1 -> decimal B -> spaces s2 ->
  (forall l', Matches I_S r l' w rest ((n, B) :: c) c') ->
  Matches I_S (num_segment n r) l (L "=" ++ s1 ++ B ++ s2 ++ L "%" ++ w)
          rest c c'.
Proof.
  intros S1 DB S2 M. unfold num_segment. cbn [Matches].
  exists (L "="), (s1 ++ B ++ s2 ++ L "%" ++ w), c.
  split; [reflexivity|]. split; [split; reflexivity|].
  exists s1, (B ++ s2 ++ L "%" ++ w), c.
  split; [reflexivity|]. split; [apply matches_ws; auto|].
  exists B, (s2 ++ L "%" ++ w), ((n, B) :: c).
  split; [reflexivity|]. split.
  { exists c. split; [apply matches_NUM; auto | reflexivity]. }
  exists s2, (L "%" ++ w), ((n, B) :: c).
  split; [reflexivity|]. split; [apply matches_ws; auto|].
  exists (L "%"), w, ((n, B) :: c).
  split; [reflexivity|]. split; [split; reflexivity|]. apply M.
Qed.

Lemma star_then_matches r (l n w rest : str) c c' :
  (forall l', Matches I_S r l' w rest c c') ->
  Matches I_S (Seq (Star AAny) r) l (n ++ w) rest c c'.
Proof.
  intros M. cbn [Matches Star]. exists n, w, c.
  split; [reflexivity|]. split; [|apply M].
  split; [apply forallb_dotall|]. split; [lia|]. split; [exact I | reflexivity].
Qed.

Lemma cpu_after3_matches (l o s6 S s7 e post : str) c :
  same_nocase (L "over") o -> spaces s6 -> digits S -> spaces s7 ->
  same_nocase (L "samples") e ->
  Matches I_S cpu_after3 l (o ++ s6 ++ S ++ s7 ++ e) post c ((3, S) :: c).
Proof.
  intros Ho S6 DS S7 He. unfold cpu_after3. cbn [cat Matches].
  exists o, (s6 ++ S ++ s7 ++ e), c.
  split; [reflexivity|]. split; [split; [exact Ho | reflexivity]|].
  exists s6, (S ++ s7 ++ e), c.
  split; [reflexivity|]. split; [apply matches_ws; auto|].
  exists S, (s7 ++ e), ((3, S) :: c).
  split; [reflexivity|]. split.
  { exists c. split; [apply matches_digits; auto | reflexivity]. }
  exists s7, e, ((3, S) :: c).
  split; [reflexivity|]. split; [apply matches_ws; auto|].
  split; [exact He | reflexivity].
Qed.

Lemma cpu_after2_matches (l b s3 s4 I s5 n3 o s6 S s7 e post : str) c :
  same_nocase (L "avg idle") b -> spaces s3 -> spaces s4 -> decimal I ->
  spaces s5 ->
  same_nocase (L "over") o -> spaces s6 -> digits S -> spaces s7 ->
  same_nocase (L "samples") e ->
  Matches I_S cpu_after2 l
    (b ++ s3 ++ L "=" ++ s4 ++ I ++ s5 ++ L "%" ++ n3 ++ o ++ s6 ++ S ++ s7 ++ e)
    post c ((3, S) :: (2, I) :: c).
Proof.
  intros Hb S3 S4 DI S5 Ho S6 DS S7 He. unfold cpu_after2. cbn [Matches].
  eexists b, _, c. split; [reflexivity|].
  split; [split; [exact Hb | reflexivity]|].
  eexists s3, _, c. split; [reflexivity|]. split; [apply matches_ws; auto|].
  apply num_segment_matches; auto. intros l'.
  apply star_then_matches. intros l''. now apply cpu_after3_matches.
Qed.

Lemma cpu_after1_matches
  (l s1 B s2 n2 b s3 s4 I s5 n3 o s6 S s7 e post : str) c :
  spaces s1 -> decimal B -> spaces s2 ->
  same_nocase (L "avg idle") b -> spaces s3 -> spaces s4 -> decimal I ->
  spaces s5 ->
  same_nocase (L "over") o -> spaces s6 -> digits S -> spaces s7 ->
  same_nocase (L "samples") e ->
  Matches I_S cpu_after1 l
    (L "=" ++ s1 ++ B ++ s2 ++ L "%" ++ n2 ++ b ++ s3 ++ L "=" ++ s4 ++ I
       ++ s5 ++ L "%" ++ n3 ++ o ++ s6 ++ S ++ s7 ++ e)
    post c ((3, S) :: (2, I) :: (1, B) :: c).
Proof.
  intros S1 DB S2 Hb S3 S4 DI S5 Ho S6 DS S7 He. unfold cpu_after1.
  apply num_segment_matches; auto. intros l'.
  apply star_then_matches. intros l''. now apply cpu_after2_matches.
Qed.

Lemma cpu_full_matches
  (l a n1 s1 B s2 n2 b s3 s4 I s5 n3 o s6 S s7 e post : str) c :
  same_nocase (L "AVG busy") a ->
  spaces s1 -> decimal B -> spaces s2 ->
  same_nocase (L "avg idle") b -> spaces s3 -> spaces s4 -> decimal I ->
  spaces s5 ->
  same_nocase (L "over") o -> spaces s6 -> digits S -> spaces s7 ->
  same_nocase (L "samples") e ->
  Matches I_S re_cpu_full l
    (a ++ n1 ++ L "=" ++ s1 ++ B ++ s2 ++ L "%" ++ n2 ++ b ++ s3 ++ L "="
       ++ s4 ++ I ++ s5 ++ L "%" ++ n3 ++ o ++ s6 ++ S ++ s7 ++ e)
    post c ((3, S) :: (2, I) :: (1, B) :: c).
Proof.
  intros Ha S1 DB S2 Hb S3 S4 DI S5 Ho S6 DS S7 He.
  rewrite re_cpu_full_parts. cbn [Matches].
  eexists a, _, c. split; [reflexivity|].
  split; [split; [exact Ha | reflexivity]|].
  apply star_then_matches. intros l'. now apply cpu_after1_matches.
Qed.

(* ================================================================== *)
(** * The embedding that the search for the richest pattern selects *)
(* ================================================================== *)

(** The first match of the richest pattern, taken apart: the text before
    it, its pieces, and the places at which the search found no match
    before it settled, that is every earlier start and, after each [.*],
    every longer stretch. *)
Lemma cpu_full_selected_path text m :
  re_search I_S re_cpu_full text = Some m ->
  exists pre a n1 s1 B s2 n2 b s3 s4 I s5 n3 o s6 S s7 e post l1 l2 l3,
    text = pre ++ a ++ n1 ++ L "=" ++ s1 ++ B ++ s2 ++ L "%" ++ n2
               ++ b ++ s3 ++ L "=" ++ s4 ++ I ++ s5 ++ L "%" ++ n3
               ++ o ++ s6 ++ S ++ s7 ++ e ++ post
    /\ (same_nocase (L "AVG busy") a /\ same_nocase (L "avg idle") b
        /\ same_nocase (L "over") o /\ same_nocase (L "samples") e
        /\ spaces s1 /\ spaces s2 /\ spaces s3 /\ spaces s4 /\ spaces s5
        /\ spaces s6 /\ spaces s7
        /\ decimal B /\ decimal I /\ digits S)
    /\ (group m 1 = Some B /\ group m 2 = Some I /\ group m 3 = Some S)
    /\ (forall sk rest',
          text = sk ++ rest' -> length sk < length pre ->
          run I_S (Group 0 re_cpu_full) (mkState (rev sk ++ []) rest' []) = [])
    /\ (forall w' rest',
          n1 ++ L "=" ++ s1 ++ B ++ s2 ++ L "%" ++ n2
             ++ b ++ s3 ++ L "=" ++ s4 ++ I ++ s5 ++ L "%" ++ n3
             ++ o ++ s6 ++ S ++ s7 ++ e ++ post = w' ++ rest' ->
          length n1 < length w' ->
          run I_S cpu_after1 (mkState (rev w' ++ l1) rest' []) = [])
    /\ (forall w' rest',
          n2 ++ b ++ s3 ++ L "=" ++ s4 ++ I ++ s5 ++ L "%" ++ n3
             ++ o ++ s6 ++ S ++ s7 ++ e ++ post = w' ++ rest' ->
          length n2 < length w' ->
          run I_S cpu_after2 (mkState (rev w' ++ l2) rest' [(1, B)]) = [])
    /\ (forall w' rest',
          n3 ++ o ++ s6 ++ S ++ s7 ++ e ++ post = w' ++ rest' ->
          length n3 < length w' ->
          run I_S cpu_after3 (mkState (rev w' ++ l3) rest' [(2, I); (1, B)])
            = []).
Proof.
  unfold re_search. intros H.
  apply search_from_first in H. destruct H as (pre & rest0 & -> & H & NL).
  apply first_of_group in H. destruct H as (m0 & w0 & H & Hcaps).
  rewrite re_cpu_full_parts in H.
  apply first_of_seq in H. destruct H as (a & r1 & c1 & -> & Ma & H).
  cbn [Matches] in Ma. destruct Ma as [Ea ->].
  apply first_after_star in H. destruct H as (n1 & r2 & -> & _ & H & NS1).
  unfold cpu_after1 in H.
  apply first_of_num_segment in H.
  destruct H as (s1 & B & s2 & r3 & l2 & -> & S1 & DB & S2 & H).
  apply first_after_star in H. destruct H as (n2 & r4 & -> & _ & H & NS2).
  unfold cpu_after2 in H.
  apply first_of_seq in H. destruct H as (b & r5 & c5 & -> & Mb & H).
  cbn [Matches] in Mb. destruct Mb as [Eb ->].
  apply first_of_seq in H. destruct H as (s3 & r6 & c6 & -> & Ms3 & H).
  apply matches_ws in Ms3. destruct Ms3 as [S3 ->].
  apply first_of_num_segment in H.
  destruct H as (s4 & I & s5 & r7 & l3 & -> & S4 & DI & S5 & H).
  apply first_after_star in H. destruct H as (n3 & r8 & -> & _ & H & NS3).
  apply hd_error_in in H. apply run_spec in H.
  destruct H as (w & post & c' & -> & Em0 & M).
  unfold cpu_after3 in M. cbn [cat Matches] in M.
  destruct M as (o & w1 & c7 & -> & [Eo ->] & M).
  destruct M as (s6 & w2 & c8 & -> & Ms6 & M).
  apply matches_ws in Ms6. destruct Ms6 as [S6 ->].
  destruct M as (S & w3 & c9 & -> & MS & M).
  apply matches_group in MS; [|reflexivity]. destruct MS as [MS ->].
  apply matches_digits in MS. destruct MS as [DS _].
  destruct M as (s7 & e & c10 & -> & Ms7 & [Ee ->]).
  apply matches_ws in Ms7. destruct Ms7 as [S7 ->].
  subst m0. cbn [s_caps] in Hcaps.
  exists pre, a, n1, s1, B, s2, n2, b, s3, s4, I, s5, n3, o, s6, S, s7, e, post.
  eexists. exists l2, l3.
  split.
  { rewrite <- !app_assoc. reflexivity. }
  split.
  { unfold same_nocase, spaces. repeat split; try assumption; try apply DS. }
  split.
  { unfold group. rewrite Hcaps. repeat split. }
  split.
  { intros sk rest' Heq Hlt. apply NL; [|exact Hlt].
    rewrite <- Heq. rewrite <- !app_assoc. reflexivity. }
  split.
  { intros w' rest' Heq Hlt. apply NS1; [| apply forallb_dotall | exact Hlt].
    rewrite <- Heq. rewrite <- !app_assoc. reflexivity. }
  split.
  { intros w' rest' Heq Hlt. apply NS2; [| apply forallb_dotall | exact Hlt].
    rewrite <- Heq. rewrite <- !app_assoc. reflexivity. }
  intros w' rest' Heq Hlt. apply NS3; [| apply forallb_dotall | exact Hlt].
  rewrite <- Heq. rewrite <- !app_assoc. reflexivity.
Qed.

Lemma literal_unique (p a r a' r' : str) :
  same_nocase p a -> same_nocase p a' -> a ++ r = a' ++ r' ->
  a = a' /\ r = r'.
Proof.
  intros H H' E. apply app_same_length; [exact E|].
  apply lit_eq_length in H, H'. congruence.
Qed.

Lemma equals_number_unique (s1 B s2 r s1' B' s2' r' : str) :
  spaces s1 -> decimal B -> spaces s2 ->
  spaces s1' -> decimal B' -> spaces s2' ->
  L "=" ++ s1 ++ B ++ s2 ++ L "%" ++ r = L "=" ++ s1' ++ B' ++ s2' ++ L "%" ++ r' ->
  s1 = s1' /\ B = B' /\ s2 = s2' /\ r = r'.
Proof.
  intros S1 DB S2 S1' DB' S2' H. injection H as H.
  now apply number_percent_unique.
Qed.

Section Embedding.
Variables a n1 s1 B s2 n2 b s3 s4 I s5 n3 o s6 S s7 e post : str.
Hypothesis Ha : same_nocase (L "AVG busy") a.
Hypothesis Hb : same_nocase (L "avg idle") b.
Hypothesis Ho : same_nocase (L "over") o.
Hypothesis He : same_nocase (L "samples") e.
Hypothesis H1 : spaces s1.
Hypothesis H2 : spaces s2.
Hypothesis H3 : spaces s3.
Hypothesis H4 : spaces s4.
Hypothesis H5 : spaces s5.
Hypothesis H6 : spaces s6.
Hypothesis H7 : spaces s7.
Hypothesis DB : decimal B.
Hypothesis DI : decimal I.
Hypothesis DS : digits S.

Lemma cpu_after3_runs (l : str) c :
  run I_S cpu_after3 (mkState l (o ++ s6 ++ S ++ s7 ++ e ++ post) c) <> [].
Proof.
  intros E.
  refine (no_run_no_match I_S _ _ _ _ _ _ _ E _
            (cpu_after3_matches l o s6 S s7 e post c Ho H6 DS H7 He)).
  rewrite <- !app_assoc. reflexivity.
Qed.

Lemma cpu_after2_runs (l : str) c :
  run I_S cpu_after2
      (mkState l (b ++ s3 ++ L "=" ++ s4 ++ I ++ s5 ++ L "%" ++ n3
                    ++ o ++ s6 ++ S ++ s7 ++ e ++ post) c) <> [].
Proof.
  intros E.
  refine (no_run_no_match I_S _ _ _ _ _ _ _ E _
            (cpu_after2_matches l b s3 s4 I s5 n3 o s6 S s7 e post c
               Hb H3 H4 DI H5 Ho H6 DS H7 He)).
  rewrite <- !app_assoc. reflexivity.
Qed.

Lemma cpu_after1_runs (l : str) c :
  run I_S cpu_after1
      (mkState l (L "=" ++ s1 ++ B ++ s2 ++ L "%" ++ n2
                    ++ b ++ s3 ++ L "=" ++ s4 ++ I ++ s5 ++ L "%" ++ n3
                    ++ o ++ s6 ++ S ++ s7 ++ e ++ post) c) <> [].
Proof.
  intros E.
  refine (no_run_no_match I_S _ _ _ _ _ _ _ E _
            (cpu_after1_matches l s1 B s2 n2 b s3 s4 I s5 n3 o s6 S s7 e post c
               H1 DB H2 Hb H3 H4 DI H5 Ho H6 DS H7 He)).
  rewrite <- !app_assoc. reflexivity.
Qed.

Lemma cpu_full_runs (l : str) :
  run I_S (Group 0 re_cpu_full)
      (mkState l (a ++ n1 ++ L "=" ++ s1 ++ B ++ s2 ++ L "%" ++ n2
                    ++ b ++ s3 ++ L "=" ++ s4 ++ I ++ s5 ++ L "%" ++ n3
                    ++ o ++ s6 ++ S ++ s7 ++ e ++ post) []) <> [].
Proof.
  intros E.
  refine (no_run_no_match I_S _ _ _ _ _ _ _ E _
            (ex_intro _ _ (conj
               (cpu_full_matches l a n1 s1 B s2 n2 b s3 s4 I s5 n3 o s6 S s7 e
                  post [] Ha H1 DB H2 Hb H3 H4 DI H5 Ho H6 DS H7 He)
               eq_refl))).
  rewrite <- !app_assoc. reflexivity.
Qed.

End Embedding.

(** The numbers of an embedding are determined by the place where it
    starts and by its three ellipses. *)
Lemma cpu_full_embedding_determined text pre n1 n2 n3 B I S B' I' S' :
  cpu_full_embedding text pre n1 n2 n3 B I S ->
  cpu_full_embedding text pre n1 n2 n3 B' I' S' ->
  B' = B /\ I' = I /\ S' = S.
Proof.
  intros (a & s1 & s2 & b & s3 & s4 & s5 & o & s6 & s7 & e & post & -> & Ha
          & Hb & Ho & He & H1 & H2 & H3 & H4 & H5 & H6 & H7 & DB & DI & DS)
         (a' & s1' & s2' & b' & s3' & s4' & s5' & o' & s6' & s7' & e' & post'
          & E & Ha' & Hb' & Ho' & He' & H1' & H2' & H3' & H4' & H5' & H6' & H7'
          & DB' & DI' & DS').
  apply app_inv_head in E.
  apply (literal_unique _ _ _ _ _ Ha Ha') in E. destruct E as [<- E].
  apply app_inv_head in E.
  apply equals_number_unique in E; auto. destruct E as (<- & <- & <- & E).
  apply app_inv_head in E.
  apply (literal_unique _ _ _ _ _ Hb Hb') in E. destruct E as [<- E].
  apply (class_prefix_unique is_space) in E; auto; try reflexivity.
  destruct E as [<- E].
  apply equals_number_unique in E; auto. destruct E as (<- & <- & <- & E).
  apply app_inv_head in E.
  apply (literal_unique _ _ _ _ _ Ho Ho') in E. destruct E as [<- E].
  apply count_samples_unique in E; auto. destruct E as [_ <-]. auto.
Qed.

(** The search for the richest pattern selects the preferred embedding. *)
Lemma cpu_full_selected text m :
  re_search I_S re_cpu_full text = Some m ->
  exists pre n1 n2 n3 B I S,
    cpu_full_embedding text pre n1 n2 n3 B I S
    /\ preferred text pre n1 n2 n3
    /\ group m 1 = Some B /\ group m 2 = Some I /\ group m 3 = Some S.
Proof.
  intros Hm. apply cpu_full_selected_path in Hm.
  destruct Hm as (pre & a & n1 & s1 & B & s2 & n2 & b & s3 & s4 & I & s5 & n3
                  & o & s6 & S & s7 & e & post & l1 & l2 & l3 & -> & Hc & Hg
                  & NL & NS1 & NS2 & NS3).
  exists pre, n1, n2, n3, B, I, S. split; [|split; [|exact Hg]].
  { exists a, s1, s2, b, s3, s4, s5, o, s6, s7, e, post.
    split; [reflexivity | exact Hc]. }
  destruct Hc as (Ha & Hb & Ho & He & H1 & H2 & H3 & H4 & H5 & H6 & H7
                  & DB & DI & DS).
  intros pre' n1' n2' n3' B' I' S'
         (a' & s1' & s2' & b' & s3' & s4' & s5' & o' & s6' & s7' & e' & post'
          & E & Ha' & Hb' & Ho' & He' & H1' & H2' & H3' & H4' & H5' & H6' & H7'
          & DB' & DI' & DS').
  destruct (lt_eq_lt_dec (length pre') (length pre)) as [[Hlt|Hel]|Hgt];
    [exfalso | | left; exact Hgt].
  { apply (cpu_full_runs a' n1' s1' B' s2' n2' b' s3' s4' I' s5' n3' o' s6' S'
             s7' e' post' Ha' Hb' Ho' He' H1' H2' H3' H4' H5' H6' H7' DB' DI' DS'
             (rev pre' ++ [])).
    apply NL; [exact E | exact Hlt]. }
  right. split; [exact Hel|].
  symmetry in Hel. apply (app_same_length _ _ _ _ _ E) in Hel.
  destruct Hel as [<- E1].
  apply (literal_unique _ _ _ _ _ Ha Ha') in E1. destruct E1 as [<- E1].
  destruct (lt_eq_lt_dec (length n1') (length n1)) as [[Hlt|Hel]|Hgt];
    [left; exact Hlt | | exfalso].
  2:{ apply (cpu_after1_runs s1' B' s2' n2' b' s3' s4' I' s5' n3' o' s6' S'
               s7' e' post' Hb' Ho' He' H1' H2' H3' H4' H5' H6' H7' DB' DI' DS'
               (rev n1' ++ l1) []).
      apply NS1; [exact E1 | exact Hgt]. }
  right. split; [exact Hel|].
  symmetry in Hel. apply (app_same_length _ _ _ _ _ E1) in Hel.
  destruct Hel as [<- E2].
  apply equals_number_unique in E2; auto. destruct E2 as (<- & <- & <- & E2).
  destruct (lt_eq_lt_dec (length n2') (length n2)) as [[Hlt|Hel]|Hgt];
    [left; exact Hlt | | exfalso].
  2:{ apply (cpu_after2_runs b' s3' s4' I' s5' n3' o' s6' S'
               s7' e' post' Hb' Ho' He' H3' H4' H5' H6' H7' DI' DS'
               (rev n2' ++ l2) [(1, B)]).
      apply NS2; [exact E2 | exact Hgt]. }
  right. split; [exact Hel|].
  symmetry in Hel. apply (app_same_length _ _ _ _ _ E2) in Hel.
  destruct Hel as [<- E3].
  apply (literal_unique _ _ _ _ _ Hb Hb') in E3. destruct E3 as [<- E3].
  apply (class_prefix_unique is_space) in E3; auto; try reflexivity.
  destruct E3 as [<- E3].
  apply equals_number_unique in E3; auto. destruct E3 as (<- & <- & <- & E3).
  destruct (le_lt_dec (length n3') (length n3)) as [Hle|Hgt];
    [exact Hle | exfalso].
  apply (cpu_after3_runs o' s6' S' s7' e' post' Ho' He' H6' H7' DS'
           (rev n3' ++ l3) [(2, I); (1, B)]).
  apply NS3; [exact E3 | exact Hgt].
Qed.

(** Two preferred embeddings have the same numbers. *)
Lemma preferred_unique text pre n1 n2 n3 B I S pre' n1' n2' n3' B' I' S' :
  cpu_full_embedding text pre n1 n2 n3 B I S ->
  preferred text pre n1 n2 n3 ->
  cpu_full_embedding text pre' n1' n2' n3' B' I' S' ->
  preferred text pre' n1' n2' n3' ->
  B' = B /\ I' = I /\ S' = S.
Proof.
  intros E P E' P'.
  pose proof (P _ _ _ _ _ _ _ E') as L1.
  pose proof (P' _ _ _ _ _ _ _ E) as L2.
  assert (Hl : length pre' = length pre /\ length n1' = length n1
               /\ length n2' = length n2 /\ length n3' = length n3) by lia.
  destruct Hl as (Lp & Ln1 & Ln2 & Ln3). clear L1 L2 P P'.
  assert (pre' = pre /\ n1' = n1 /\ n2' = n2 /\ n3' = n3) as (-> & -> & -> & ->).
  { destruct E as (a & s1 & s2 & b & s3 & s4 & s5 & o & s6 & s7 & e & post
                   & -> & Ha & Hb & Ho & He & H1 & H2 & H3 & H4 & H5 & H6 & H7
                   & DB & DI & DS).
    destruct E' as (a' & s1' & s2' & b' & s3' & s4' & s5' & o' & s6' & s7' & e'
                    & post' & E & Ha' & Hb' & Ho' & He' & H1' & H2' & H3' & H4'
                    & H5' & H6' & H7' & DB' & DI' & DS').
    symmetry in Lp. apply (app_same_length _ _ _ _ _ E) in Lp.
    destruct Lp as [<- E1].
    apply (literal_unique _ _ _ _ _ Ha Ha') in E1. destruct E1 as [<- E1].
    symmetry in Ln1. apply (app_same_length _ _ _ _ _ E1) in Ln1.
    destruct Ln1 as [<- E2].
    apply equals_number_unique in E2; auto. destruct E2 as (<- & <- & <- & E2).
    symmetry in Ln2. apply (app_same_length _ _ _ _ _ E2) in Ln2.
    destruct Ln2 as [<- E3].
    apply (literal_unique _ _ _ _ _ Hb Hb') in E3. destruct E3 as [<- E3].
    apply (class_prefix_unique is_space) in E3; auto; try reflexivity.
    destruct E3 as [<- E3].
    apply equals_number_unique in E3; auto. destruct E3 as (<- & <- & <- & E3).
    symmetry in Ln3. apply (app_same_length _ _ _ _ _ E3) in Ln3.
    destruct Ln3 as [<- _]. auto. }
  eapply cpu_full_embedding_determined; eassumption.
Qed.

Lemma embedding_is_shape text pre n1 n2 n3 B I S :
  cpu_full_embedding text pre n1 n2 n3 B I S -> cpu_full_text text B I S.
Proof.
  intros (a & s1 & s2 & b & s3 & s4 & s5 & o & s6 & s7 & e & post & H).
  exists pre, a, n1, s1, s2, n2, b, s3, s4, s5, n3, o, s6, s7, e, post.
  exact H.
Qed.

Lemma matches_from_complete fl r : forall skipped left0 w rest c',
  Matches fl r (rev skipped ++ left0) w rest [] c' ->
  In (mkState (rev w ++ rev skipped ++ left0) rest c')
     (matches_from fl r left0 (skipped ++ w ++ rest)).
Proof.
  induction skipped as [|x sk IH]; intros left0 w rest c' M.
  - cbn [app rev] in *.
    assert (H : In (mkState (rev w ++ left0) rest c')
                   (run fl r (mkState left0 (w ++ rest) []))).
    { apply run_spec. exists w, rest, c'. auto. }
    destruct (w ++ rest); cbn [matches_from]; apply in_or_app; now left.
  - cbn [app matches_from]. apply in_or_app. right.
    cbn [rev]. rewrite <- app_assoc. cbn [app].
    apply IH. cbn [rev] in M. now rewrite <- app_assoc in M.
Qed.

(** Every embedding of the richest pattern is among the matches that the
    search enumerates. *)
Lemma cpu_full_text_enumerated text B I S :
  cpu_full_text text B I S ->
  exists st, In st (matches_from I_S re_cpu_full [] text)
             /\ s_caps st = [(3, S); (2, I); (1, B)].
Proof.
  intros H. apply cpu_full_shape_match in H.
  destruct H as (pre & w & rest & -> & M).
  eexists. split.
  - apply matches_from_complete. rewrite app_nil_r. exact M.
  - reflexivity.
Qed.

Lemma cpu_full_parse text m B I S :
  re_search I_S re_cpu_full text = Some m ->
  group m 1 = Some B -> group m 2 = Some I -> group m 3 = Some S ->
  AnalyzeResults.parse_avg_cpu_file text =
    (if int_max_str_digits <? length S then Raise ValueError
     else Ret (Some (mkCpu (Some (number_value B)) (Some (number_value I))
                           (Some (digits_value S)))))
  /\ AnalyzeResultsReport.parse_avg_cpu_file text =
    (if int_max_str_digits <? length S then Raise ValueError
     else Ret (Some (mkCpu (Some (number_value B)) (Some (number_value I))
                           (Some (digits_value S))))).
Proof.
  intros Hm H1 H2 H3.
  rewrite simple_parse_avg_cpu_file_eq, report_parse_avg_cpu_file_eq.
  unfold samples_group, busy_record, over_limit.
  rewrite Hm, H1, H2, H3. split; reflexivity.
Qed.

(* ================================================================== *)
(** * The CPU extractor *)
(* ================================================================== *)

(** C1, as amended.  When the text embeds the richest pattern
    [AVG busy ... = B % ... avg idle = I % ... over S samples], the text
    has a preferred embedding of it: the one that starts first and, among
    those, has the longest first ellipsis, then the longest second one,
    then the longest third one.  Its numbers [B'], [I'] and [S'] are those
    of every preferred embedding.  When [S'] has at most 4300 digits both
    scripts return the record of [B'], [I'] and [S'], with the three
    fields present; when it has more, both raise [ValueError].  The three
    numbers are [B], [I] and [S] themselves when the text embeds the
    pattern with no other numbers. *)
Theorem parse_cpu_full_embedding (text B I S : str) :
  cpu_full_text text B I S ->
  exists pre n1 n2 n3 B' I' S',
    cpu_full_embedding text pre n1 n2 n3 B' I' S'
    /\ preferred text pre n1 n2 n3
    /\ (forall pre2 m1 m2 m3 B2 I2 S2,
          cpu_full_embedding text pre2 m1 m2 m3 B2 I2 S2 ->
          preferred text pre2 m1 m2 m3 ->
          B2 = B' /\ I2 = I' /\ S2 = S')
    /\ (length S' <= int_max_str_digits ->
        AnalyzeResults.parse_avg_cpu_file text =
          Ret (Some (mkCpu (Some (number_value B')) (Some (number_value I'))
                           (Some (digits_value S'))))
        /\ AnalyzeResultsReport.parse_avg_cpu_file text =
          Ret (Some (mkCpu (Some (number_value B')) (Some (number_value I'))
                           (Some (digits_value S')))))
    /\ (int_max_str_digits < length S' ->
        AnalyzeResults.parse_avg_cpu_file text = Raise ValueError
        /\ AnalyzeResultsReport.parse_avg_cpu_file text = Raise ValueError)
    /\ ((forall B2 I2 S2,
           cpu_full_text text B2 I2 S2 -> B2 = B /\ I2 = I /\ S2 = S) ->
        B' = B /\ I' = I /\ S' = S).
Proof.
  intros H.
  destruct (cpu_full_shape_match _ _ _ _ H) as (pre0 & w & rest & Hat).
  destruct (re_search_complete _ _ _ _ _ _ _ Hat) as [m Hm].
  destruct (cpu_full_selected _ _ Hm)
    as (pre & n1 & n2 & n3 & B' & I' & S' & E & P & G1 & G2 & G3).
  pose proof (cpu_full_parse _ _ _ _ _ Hm G1 G2 G3) as [Hs Hr].
  exists pre, n1, n2, n3, B', I', S'.
  split; [exact E|]. split; [exact P|]. split; [|split; [|split]].
  - intros pre2 m1 m2 m3 B2 I2 S2 E2 P2.
    exact (preferred_unique _ _ _ _ _ _ _ _ _ _ _ _ _ _ _ E P E2 P2).
  - intros Hle. apply Nat.ltb_ge in Hle. rewrite Hle in Hs, Hr. auto.
  - intros Hlt. apply Nat.ltb_lt in Hlt. rewrite Hlt in Hs, Hr. auto.
  - intros Huniq. exact (Huniq _ _ _ (embedding_is_shape _ _ _ _ _ _ _ _ E)).
Qed.

Lemma cpu_line_shape : cpu_full_text cpu_line (L "11.75") (L "88.25") (L "1990").
Proof.
  exists [], (L "AVG busy"), (L " (all cpus) "), (L " "), (L " "), (L " ("),
    (L "avg idle"), [], [], [], (L ") "), (L "over"), (L " "), (L " "),
    (L "samples"), [].
  repeat split; try reflexivity; try discriminate.
  - right. exists (L "11"), (L "75"). repeat split; discriminate.
  - right. exists (L "88"), (L "25"). repeat split; discriminate.
Qed.

Lemma cpu_line_unique B' I' S' :
  cpu_full_text cpu_line B' I' S' ->
  B' = L "11.75" /\ I' = L "88.25" /\ S' = L "1990".
Proof.
  intros H. apply cpu_full_text_enumerated in H. destruct H as (st & Hin & Hc).
  assert (Hall : Forall (fun st => s_caps st
                           = [(3, L "1990"); (2, L "88.25"); (1, L "11.75")])
                        (matches_from I_S re_cpu_full [] cpu_line)).
  { vm_compute. repeat constructor. }
  rewrite Forall_forall in Hall. apply Hall in Hin. rewrite Hin in Hc.
  injection Hc as E3 E2 E1. subst. auto.
Qed.

Lemma parse_cpu_full_embedding_witness :
  cpu_full_text cpu_line (L "11.75") (L "88.25") (L "1990")
  /\ AnalyzeResults.parse_avg_cpu_file cpu_line =
       Ret (Some (mkCpu (Some (number_value (L "11.75")))
                        (Some (number_value (L "88.25")))
                        (Some 1990%Z)))
  /\ AnalyzeResultsReport.parse_avg_cpu_file cpu_line =
       Ret (Some (mkCpu (Some (number_value (L "11.75")))
                        (Some (number_value (L "88.25")))
                        (Some 1990%Z))).
Proof.
  split; [exact cpu_line_shape|].
  destruct (parse_cpu_full_embedding cpu_line (L "11.75") (L "88.25")
              (L "1990") cpu_line_shape)
    as (pre & n1 & n2 & n3 & B' & I' & S' & _ & _ & _ & Hret & _ & Huniq).
  destruct (Huniq cpu_line_unique) as (-> & -> & ->).
  apply Hret. unfold int_max_str_digits. cbn [L list_ascii_of_string length].
  lia.
Defined.

(** The claim C1 as the specification states it fails: this text embeds
    the pattern with the busy percentage 1 before the noise [= 2 %], and
    both scripts return the busy percentage 2. *)
Lemma cpu_full_noise_changes_busy :
  let text := L "AVG busy = 1 % = 2 % avg idle=3% over 4 samples" in
  cpu_full_text text (L "1") (L "3") (L "4")
  /\ AnalyzeResults.parse_avg_cpu_file text =
       Ret (Some (mkCpu (Some (number_value (L "2")))
                        (Some (number_value (L "3"))) (Some 4%Z)))
  /\ AnalyzeResultsReport.parse_avg_cpu_file text =
       Ret (Some (mkCpu (Some (number_value (L "2")))
                        (Some (number_value (L "3"))) (Some 4%Z)))
  /\ number_value (L "2") <> number_value (L "1").
Proof.
  cbv zeta. split; [|split; [|split]].
  - exists [], (L "AVG busy"), (L " "), (L " "), (L " "), (L " = 2 % "),
      (L "avg idle"), [], [], [], (L " "), (L "over"), (L " "), (L " "),
      (L "samples"), [].
    repeat split; try reflexivity; try discriminate;
      left; (split; [discriminate | reflexivity]).
  - vm_compute. reflexivity.
  - vm_compute. reflexivity.
  - vm_compute. discriminate.
Qed.

(** A match of the idle pattern is an embedding of [avg idle = I %]. *)
Lemma idle_match_shape text pre w rest c' :
  match_at I_ re_idle text pre w rest c' ->
  exists I, c' = [(1, I)] /\ idle_text text I.
Proof.
  intros [-> M]. unfold re_idle in M. cbn [cat Matches] in M.
  break_match. literals. rewrite <- !app_assoc.
  eexists. split; [reflexivity|].
  unfold idle_text. exists pre. do 4 eexists. exists rest.
  split; [reflexivity|].
  unfold same_nocase, spaces. repeat (split; [assumption|]). assumption.
Qed.

Lemma idle_search text m :
  re_search I_ re_idle text = Some m ->
  exists I, group m 1 = Some I /\ idle_text text I.
Proof.
  intros Hm. apply re_search_sound in Hm.
  destruct Hm as (pre & w & c' & Hat & Hc).
  apply idle_match_shape in Hat. destruct Hat as (I & -> & Ht).
  exists I. unfold group. rewrite Hc. auto.
Qed.

Lemma busy_record_has_busy f text r :
  busy_record f text = Some r -> busy r <> None.
Proof.
  unfold busy_record.
  destruct (re_search I_S re_cpu_full text) as [m|] eqn:E1.
  { destruct (groups_cpu_full _ _ E1) as (B & I & S & HB & _).
    intros [= <-]. cbn. rewrite HB. discriminate. }
  destruct (re_search f re_cpu_noidle text) as [m|] eqn:E2.
  { destruct (groups_cpu_noidle _ _ _ E2) as (B & S & HB & _).
    intros [= <-]. cbn. rewrite HB. discriminate. }
  destruct (re_search f re_cpu_min text) as [m|] eqn:E3; [|discriminate].
  destruct (group_cpu_min _ _ _ E3) as (B & HB & _).
  intros [= <-]. cbn. rewrite HB. discriminate.
Qed.

(** C2, as amended.  A record that either script returns has its busy or
    its idle percentage.  A script returns unless the sample count that
    the first or the second pattern captures has more than 4300 digits,
    and then it raises [ValueError].  When none of the three patterns of
    the busy percentage matches and the pattern [avg idle = I %] does, the
    script returns the record with the idle percentage [I] of the text and
    no sample count; its busy percentage is [100 - I] rounded to two
    decimals in the report script, and is absent in the simpler script. *)
Theorem cpu_record_busy_or_idle (text : str) :
  (forall r, AnalyzeResults.parse_avg_cpu_file text = Ret (Some r) ->
             busy r <> None \/ idle r <> None)
  /\ (forall r, AnalyzeResultsReport.parse_avg_cpu_file text = Ret (Some r) ->
                busy r <> None \/ idle r <> None)
  /\ (if over_limit (samples_group I_S text)
      then AnalyzeResults.parse_avg_cpu_file text = Raise ValueError
      else exists o, AnalyzeResults.parse_avg_cpu_file text = Ret o)
  /\ (if over_limit (samples_group I_ text)
      then AnalyzeResultsReport.parse_avg_cpu_file text = Raise ValueError
      else exists o, AnalyzeResultsReport.parse_avg_cpu_file text = Ret o)
  /\ (re_search I_S re_cpu_full text = None ->
      re_search I_S re_cpu_noidle text = None ->
      re_search I_S re_cpu_min text = None ->
      forall m, re_search I_ re_idle text = Some m ->
      exists I,
        group m 1 = Some I /\ idle_text text I
        /\ AnalyzeResults.parse_avg_cpu_file text =
             Ret (Some (mkCpu None (Some (number_value I)) None)))
  /\ (re_search I_S re_cpu_full text = None ->
      re_search I_ re_cpu_noidle text = None ->
      re_search I_ re_cpu_min text = None ->
      forall m, re_search I_ re_idle text = Some m ->
      exists I,
        group m 1 = Some I /\ idle_text text I
        /\ AnalyzeResultsReport.parse_avg_cpu_file text =
             Ret (Some (mkCpu
                          (Some (round2 (fsub (float_of_Z 100) (number_value I))))
                          (Some (number_value I)) None))).
Proof.
  split; [|split; [|split; [|split; [|split]]]].
  - intros r. rewrite simple_parse_avg_cpu_file_eq.
    destruct (over_limit (samples_group I_S text)); [discriminate|].
    destruct (busy_record I_S text) as [r'|] eqn:E.
    + intros [= <-]. left. eapply busy_record_has_busy; eauto.
    + destruct (re_search I_ re_idle text) as [m|] eqn:E4; [|discriminate].
      destruct (idle_search _ _ E4) as (I & HI & _).
      intros [= <-]. right. cbn. rewrite HI. discriminate.
  - intros r. rewrite report_parse_avg_cpu_file_eq.
    destruct (over_limit (samples_group I_ text)); [discriminate|].
    destruct (busy_record I_ text) as [r'|] eqn:E.
    + intros [= <-]. left. eapply busy_record_has_busy; eauto.
    + destruct (re_search I_ re_idle text) as [m|] eqn:E4; [|discriminate].
      destruct (idle_search _ _ E4) as (I & HI & _).
      intros [= <-]. right. cbn. rewrite HI. discriminate.
  - rewrite simple_parse_avg_cpu_file_eq.
    destruct (over_limit (samples_group I_S text)); [reflexivity|].
    eexists. reflexivity.
  - rewrite report_parse_avg_cpu_file_eq.
    destruct (over_limit (samples_group I_ text)); [reflexivity|].
    eexists. reflexivity.
  - intros E1 E2 E3 m E4. destruct (idle_search _ _ E4) as (I & HI & Ht).
    exists I. repeat split; auto.
    rewrite simple_parse_avg_cpu_file_eq. unfold samples_group, busy_record.
    rewrite E1, E2, E3, E4, HI. reflexivity.
  - intros E1 E2 E3 m E4. destruct (idle_search _ _ E4) as (I & HI & Ht).
    exists I. repeat split; auto.
    rewrite report_parse_avg_cpu_file_eq. unfold samples_group, busy_record.
    rewrite E1, E2, E3, E4, HI. reflexivity.
Qed.

(** The claim C2 as the specification states it fails: on a text with the
    idle percentage alone the simpler script leaves the busy percentage
    absent, where the report script computes it. *)
Lemma idle_only_busy_absent :
  let text := L "avg idle=88.25%" in
  busy_record I_S text = None
  /\ idle_text text (L "88.25")
  /\ AnalyzeResults.parse_avg_cpu_file text =
       Ret (Some (mkCpu None (Some (number_value (L "88.25"))) None))
  /\ AnalyzeResultsReport.parse_avg_cpu_file text =
       Ret (Some (mkCpu (Some (number_value (L "11.75")))
                        (Some (number_value (L "88.25"))) None)).
Proof.
  cbv zeta. split; [|split; [|split]].
  - vm_compute. reflexivity.
  - exists [], (L "avg idle"), [], [], [], [].
    repeat split; try reflexivity.
    right. exists (L "88"), (L "25"). repeat split; discriminate.
  - vm_compute. reflexivity.
  - vm_compute. reflexivity.
Qed.

(* ================================================================== *)
(** * The load-test extractor *)
(* ================================================================== *)

(** C9.  For every text, [parse_wrk_file] returns a record and raises
    nothing, in both scripts; and a field of the record is absent when no
    pattern that sets it matches the text: the requests per second without
    a match of [Requests/sec:], a percentile of the trio without a line
    that starts with it and without a match of the inline pattern, the
    99th percentile without a line that starts with it (and, in the simpler
    script, without a match of the separate [99%] search), the socket
    errors without a match of [Socket errors:], and the transfer rate of
    the report script without a match of [Transfer/sec:]. *)
Theorem parse_wrk_file_always_returns (text : str) :
  (exists r,
     AnalyzeResults.parse_wrk_file text = Ret r
     /\ (re_search no_flags re_rps text = None ->
         AnalyzeResults.requests_per_sec r = None)
     /\ (re_search M_I (re_perc (L "50")) text = None ->
         re_search I_ re_inline text = None -> AnalyzeResults.p50 r = None)
     /\ (re_search M_I (re_perc (L "75")) text = None ->
         re_search I_ re_inline text = None -> AnalyzeResults.p75 r = None)
     /\ (re_search M_I (re_perc (L "90")) text = None ->
         re_search I_ re_inline text = None -> AnalyzeResults.p90 r = None)
     /\ (re_search M_I (re_perc (L "99")) text = None ->
         re_search I_ re_p99 text = None -> AnalyzeResults.p99 r = None)
     /\ (re_search no_flags re_errors_line text = None ->
         AnalyzeResults.raw_errors r = None))
  /\
  (exists r,
     AnalyzeResultsReport.parse_wrk_file text = Ret r
     /\ (re_search no_flags re_rps text = None ->
         AnalyzeResultsReport.requests_per_sec r = None)
     /\ (re_search M_I (re_perc (L "50")) text = None ->
         re_search I_ re_inline text = None -> AnalyzeResultsReport.p50 r = None)
     /\ (re_search M_I (re_perc (L "75")) text = None ->
         re_search I_ re_inline text = None -> AnalyzeResultsReport.p75 r = None)
     /\ (re_search M_I (re_perc (L "90")) text = None ->
         re_search I_ re_inline text = None -> AnalyzeResultsReport.p90 r = None)
     /\ (re_search M_I (re_perc (L "99")) text = None ->
         AnalyzeResultsReport.p99 r = None)
     /\ (re_search no_flags re_errors_rest text = None ->
         AnalyzeResultsReport.socket_errors r = None)
     /\ (re_search no_flags re_transfer text = None ->
         AnalyzeResultsReport.transfer_per_sec r = None)).
Proof.
  split; eexists;
    (split; [first [apply simple_parse_wrk_file_eq
                   | apply report_parse_wrk_file_eq] |]);
    cbn [AnalyzeResults.requests_per_sec AnalyzeResults.p50 AnalyzeResults.p75
         AnalyzeResults.p90 AnalyzeResults.p99 AnalyzeResults.raw_errors
         AnalyzeResultsReport.requests_per_sec AnalyzeResultsReport.p50
         AnalyzeResultsReport.p75 AnalyzeResultsReport.p90
         AnalyzeResultsReport.p99 AnalyzeResultsReport.socket_errors
         AnalyzeResultsReport.transfer_per_sec];
    unfold AnalyzeResults.per_line, AnalyzeResultsReport.per_line;
    repeat split; intros; repeat match goal with H : _ = None |- _ => rewrite H; clear H end;
    reflexivity.
Qed.

(** C4, as amended.  In both scripts the inline pattern is tried on every
    text, after the searches line by line, and leaves every field other
    than the trio p50, p75, p90 as it was: it never sets or alters p99.
    When it matches, its three groups give the trio (whatever the lines
    gave); when it does not, the trio keeps the values found line by line.
    The 99th percentile is the result of the separate search for [99%]
    that the simpler script runs after the inline pattern, or the value
    found line by line when that search finds nothing; the report script
    has no separate search and keeps the value found line by line. *)
Theorem inline_pattern_sets_the_trio_only (text : str) :
  (forall res, exists res',
      AnalyzeResults.step_inline text res = Ret res'
      /\ AnalyzeResults.p99 res' = AnalyzeResults.p99 res
      /\ AnalyzeResults.requests_per_sec res' = AnalyzeResults.requests_per_sec res
      /\ AnalyzeResults.raw_errors res' = AnalyzeResults.raw_errors res)
  /\ (forall res, exists res',
      AnalyzeResultsReport.step_inline text res = Ret res'
      /\ AnalyzeResultsReport.p99 res' = AnalyzeResultsReport.p99 res
      /\ AnalyzeResultsReport.requests_per_sec res'
         = AnalyzeResultsReport.requests_per_sec res
      /\ AnalyzeResultsReport.socket_errors res'
         = AnalyzeResultsReport.socket_errors res
      /\ AnalyzeResultsReport.transfer_per_sec res'
         = AnalyzeResultsReport.transfer_per_sec res)
  /\ (exists r,
      AnalyzeResults.parse_wrk_file text = Ret r
      /\ AnalyzeResults.p50 r =
           match re_search I_ re_inline text with
           | Some inline => AnalyzeResults.seconds_of (group inline 1)
           | None => AnalyzeResults.per_line text (L "50") None
           end
      /\ AnalyzeResults.p75 r =
           match re_search I_ re_inline text with
           | Some inline => AnalyzeResults.seconds_of (group inline 2)
           | None => AnalyzeResults.per_line text (L "75") None
           end
      /\ AnalyzeResults.p90 r =
           match re_search I_ re_inline text with
           | Some inline => AnalyzeResults.seconds_of (group inline 3)
           | None => AnalyzeResults.per_line text (L "90") None
           end
      /\ AnalyzeResults.p99 r =
           match re_search I_ re_p99 text with
           | Some m99 => AnalyzeResults.seconds_of (group m99 1)
           | None => AnalyzeResults.per_line text (L "99") None
           end)
  /\ (exists r,
      AnalyzeResultsReport.parse_wrk_file text = Ret r
      /\ AnalyzeResultsReport.p50 r =
           match re_search I_ re_inline text with
           | Some inline => AnalyzeResultsReport.seconds_of (group inline 1)
           | None => AnalyzeResultsReport.per_line text (L "50") None
           end
      /\ AnalyzeResultsReport.p75 r =
           match re_search I_ re_inline text with
           | Some inline => AnalyzeResultsReport.seconds_of (group inline 2)
           | None => AnalyzeResultsReport.per_line text (L "75") None
           end
      /\ AnalyzeResultsReport.p90 r =
           match re_search I_ re_inline text with
           | Some inline => AnalyzeResultsReport.seconds_of (group inline 3)
           | None => AnalyzeResultsReport.per_line text (L "90") None
           end
      /\ AnalyzeResultsReport.p99 r = AnalyzeResultsReport.per_line text (L "99") None).
Proof.
  split; [|split; [|split]].
  - intros res. eexists. split; [apply simple_step_inline_eq|].
    destruct (re_search I_ re_inline text); repeat split; reflexivity.
  - intros res. eexists. split; [apply report_step_inline_eq|].
    destruct (re_search I_ re_inline text); repeat split; reflexivity.
  - eexists. split; [apply simple_parse_wrk_file_eq|].
    repeat split; reflexivity.
  - eexists. split; [apply report_parse_wrk_file_eq|].
    repeat split; reflexivity.
Qed.

(** The claim C4 as the specification states it fails.  In the first text
    a line starts with [50%], and both scripts return the value of the
    inline pattern for p50 and not the one of that line.  In the second
    text [99%] does not start a line: the simpler script finds it with its
    separate search, and the report script, which has none, leaves p99
    absent. *)
Lemma inline_pattern_overrides_the_lines :
  let text := L "50% 1ms" ++ [newline] ++ L "x 50% 2ms 75% 3ms 90% 4ms" in
  let text99 := L "x 99% 5ms" in
  AnalyzeResults.per_line text (L "50") None
    = Some (fdiv (number_value (L "1")) (float_of_Z 1000))
  /\ fmap AnalyzeResults.p50 (AnalyzeResults.parse_wrk_file text)
     = Ret (Some (fdiv (number_value (L "2")) (float_of_Z 1000)))
  /\ fmap AnalyzeResultsReport.p50 (AnalyzeResultsReport.parse_wrk_file text)
     = Ret (Some (fdiv (number_value (L "2")) (float_of_Z 1000)))
  /\ fdiv (number_value (L "2")) (float_of_Z 1000)
     <> fdiv (number_value (L "1")) (float_of_Z 1000)
  /\ fmap AnalyzeResults.p99 (AnalyzeResults.parse_wrk_file text99)
     = Ret (Some (fdiv (number_value (L "5")) (float_of_Z 1000)))
  /\ fmap AnalyzeResultsReport.p99 (AnalyzeResultsReport.parse_wrk_file text99)
     = Ret None.
Proof.
  cbv zeta. repeat split; try (vm_compute; reflexivity).
  vm_compute. discriminate.
Qed.

(* ================================================================== *)
(** * Lists: selections and partitions *)
(* ================================================================== *)

Section ListFacts.
Variable A : Type.
Implicit Types (p q : A -> bool) (l : list A).

Lemma filter_filter p q l :
  filter p (filter q l) = filter (fun x => p x && q x) l.
Proof.
  induction l as [|x l IH]; simpl; [reflexivity|].
  destruct (q x); simpl; rewrite ?andb_true_r, ?andb_false_r;
    [destruct (p x)|]; now rewrite IH.
Qed.

Lemma filter_split_perm p l :
  Permutation l (filter p l ++ filter (fun x => negb (p x)) l).
Proof.
  induction l as [|x l IH]; simpl; [constructor|].
  destruct (p x); simpl.
  - now constructor.
  - now apply Permutation_cons_app.
Qed.
End ListFacts.

Section Order.
Variable description : Type.
Import CollectReport.

Implicit Types (df : data_frame description) (mask : row description -> bool).

Lemma DataFrame_index (rows : list (row description)) :
  index (DataFrame rows) = seq 0 (length rows).
Proof.
  unfold index, DataFrame.
  generalize 0. induction rows as [|r rows IH]; intros n; simpl;
    [reflexivity | now rewrite IH].
Qed.

Lemma DataFrame_NoDup (rows : list (row description)) : NoDup (index (DataFrame rows)).
Proof. rewrite DataFrame_index. apply seq_NoDup. Qed.

(** With distinct labels, a label of [df] is among those of a selection
    exactly when its row is selected. *)
Lemma isin_select mask df i r :
  NoDup (index df) -> In (i, r) df ->
  existsb (Nat.eqb i) (index (select mask df)) = mask r.
Proof.
  unfold index, select.
  induction df as [|[j s] df IH]; simpl; intros ND HIn; [contradiction|].
  inversion ND as [|? ? Hj ND']; subst.
  destruct HIn as [E|HIn].
  - inversion E; subst.
    destruct (mask r) eqn:Hm; simpl.
    + now rewrite Nat.eqb_refl.
    + apply not_true_is_false. intros H.
      apply existsb_exists in H. destruct H as [k [Hk Ek]].
      apply Nat.eqb_eq in Ek. subst k.
      apply Hj. apply in_map_iff in Hk. destruct Hk as [[k s'] [E' Hk]].
      simpl in E'. subst k. apply filter_In in Hk.
      apply in_map_iff. exists (i, s'). tauto.
  - assert (i <> j).
    { intros ->. apply Hj. apply in_map_iff. now exists (j, r). }
    destruct (mask s); simpl.
    + replace (i =? j) with false by (symmetry; now apply Nat.eqb_neq).
      now apply IH.
    + now apply IH.
Qed.

Lemma existsb_app_bool (f : nat -> bool) l1 l2 :
  existsb f (l1 ++ l2) = existsb f l1 || existsb f l2.
Proof. apply existsb_app. Qed.


Lemma rest_select df :
  NoDup (index df) ->
  not_isin (index (select is_noinj df)
            ++ index (select (fun r => concurrency_is 300 r && negb (is_noinj r)) df)
            ++ index (select (fun r => concurrency_is 500 r && negb (is_noinj r)) df)
            ++ index (select (fun r => concurrency_is 1000 r && negb (is_noinj r)) df))
           df
  = select in_rest df.
Proof.
  intros ND. unfold not_isin. unfold select at 5.
  apply filter_ext_in. intros [i r] HIn. cbn [fst snd].
  rewrite !existsb_app.
  rewrite !(fun m => isin_select m df i r ND HIn).
  unfold in_rest.
  destruct (is_noinj r), (concurrency_is 300 r), (concurrency_is 500 r),
    (concurrency_is 1000 r); reflexivity.
Qed.

Lemma custom_order_buckets df :
  NoDup (index df) ->
  custom_order df =
    select is_noinj df
    ++ select (fun r => concurrency_is 300 r && negb (is_noinj r)) df
    ++ select (fun r => concurrency_is 500 r && negb (is_noinj r)) df
    ++ select (fun r => concurrency_is 1000 r && negb (is_noinj r)) df
    ++ select in_rest df.
Proof.
  intros ND. unfold custom_order. now rewrite rest_select.
Qed.

Lemma concurrency_is_excl c d (r : row description) :
  c <> d -> concurrency_is c r = true -> concurrency_is d r = false.
Proof.
  unfold concurrency_is. destruct (concurrency r); [|discriminate].
  intros Hcd H. apply Z.eqb_eq in H. subst. now apply Z.eqb_neq.
Qed.

Ltac bucket_cases ir :=
  pose proof (concurrency_is_excl 300 500 (snd ir) ltac:(lia)) as H35;
  pose proof (concurrency_is_excl 300 1000 (snd ir) ltac:(lia)) as H31;
  pose proof (concurrency_is_excl 500 1000 (snd ir) ltac:(lia)) as H51;
  destruct (is_noinj (snd ir)), (concurrency_is 300 (snd ir)),
    (concurrency_is 500 (snd ir)), (concurrency_is 1000 (snd ir));
  try reflexivity;
  try (now specialize (H35 eq_refl));
  try (now specialize (H31 eq_refl));
  try (now specialize (H51 eq_refl)).

Lemma buckets_perm df :
  Permutation
    (select is_noinj df
     ++ select (fun r => concurrency_is 300 r && negb (is_noinj r)) df
     ++ select (fun r => concurrency_is 500 r && negb (is_noinj r)) df
     ++ select (fun r => concurrency_is 1000 r && negb (is_noinj r)) df
     ++ select in_rest df)
    df.
Proof.
  unfold select. symmetry.
  rewrite (filter_split_perm _ (fun ir => is_noinj (snd ir)) df) at 1.
  apply Permutation_app_head.
  rewrite (filter_split_perm _ (fun ir => concurrency_is 300 (snd ir))
             (filter _ df)) at 1.
  rewrite !filter_filter.
  apply Permutation_app; [apply Permutation_refl|].
  rewrite (filter_split_perm _ (fun ir => concurrency_is 500 (snd ir))
             (filter _ df)) at 1.
  rewrite !filter_filter.
  apply Permutation_app.
  { erewrite filter_ext; [apply Permutation_refl|].
    intros ir; cbn beta. bucket_cases ir. }
  rewrite (filter_split_perm _ (fun ir => concurrency_is 1000 (snd ir))
             (filter _ df)) at 1.
  rewrite !filter_filter.
  apply Permutation_app.
  { erewrite filter_ext; [apply Permutation_refl|].
    intros ir; cbn beta. bucket_cases ir. }
  erewrite filter_ext; [apply Permutation_refl|].
  intros ir; cbn beta. unfold in_rest. bucket_cases ir.
Qed.

(** C6.  For every table of run records, [custom_order] returns the rows
  in five buckets: the rows of the scenario [NO INJECTION], then the
  other rows at the concurrency 300, then those at 500, then those at
  1000, then every remaining row.  Each bucket is a selection of the
  table, so it keeps the rows in the order of the table. *)
Theorem custom_order_stable_partition (rows : list (row description)) :
custom_order (DataFrame rows) =
  select is_noinj (DataFrame rows)
  ++ select (fun r => concurrency_is 300 r && negb (is_noinj r)) (DataFrame rows)
  ++ select (fun r => concurrency_is 500 r && negb (is_noinj r)) (DataFrame rows)
  ++ select (fun r => concurrency_is 1000 r && negb (is_noinj r)) (DataFrame rows)
  ++ select in_rest (DataFrame rows).
Proof. apply custom_order_buckets, DataFrame_NoDup. Qed.

Lemma in_select mask df ir :
In ir (select mask df) -> mask (snd ir) = true.
Proof. unfold select. intros H. now apply filter_In in H. Qed.

(** C10.  For every table with distinct row labels, [custom_order]
  returns a permutation of the rows, and the labels stay distinct: no
  row is dropped or repeated.  The rows of the scenario [NO INJECTION]
  are the leading bucket and none of them comes after it, whatever its
  concurrency; the rows of no bucket are the trailing bucket and none of
  them comes before it. *)
Theorem custom_order_permutation (df : data_frame description) :
NoDup (index df) ->
Permutation (custom_order df) df
/\ NoDup (index (custom_order df))
/\ (exists tail,
      custom_order df = select is_noinj df ++ tail
      /\ forall ir, In ir tail -> is_noinj (snd ir) = false)
/\ (exists front,
      custom_order df = front ++ select in_rest df
      /\ forall ir, In ir front -> in_rest (snd ir) = false).
Proof.
intros ND. rewrite (custom_order_buckets df ND).
pose proof (buckets_perm df) as P.
split; [exact P|]. split.
{ unfold index in *. eapply Permutation_NoDup; [|exact ND].
  apply Permutation_map. symmetry. exact P. }
split.
- eexists. split; [reflexivity|]. intros ir Hin.
  repeat (apply in_app_or in Hin; destruct Hin as [Hin | Hin]);
    apply in_select in Hin; unfold in_rest in Hin;
    destruct (is_noinj (snd ir)); try reflexivity;
    rewrite ?andb_false_r in Hin; discriminate.
- exists (select is_noinj df
          ++ select (fun r => concurrency_is 300 r && negb (is_noinj r)) df
          ++ select (fun r => concurrency_is 500 r && negb (is_noinj r)) df
          ++ select (fun r => concurrency_is 1000 r && negb (is_noinj r)) df).
  split; [now rewrite <- !app_assoc|]. intros ir Hin.
  repeat (apply in_app_or in Hin; destruct Hin as [Hin | Hin]);
    apply in_select in Hin; unfold in_rest;
    [ rewrite Hin; reflexivity
    | apply andb_prop in Hin as [-> _]; now rewrite ?andb_false_r
    | apply andb_prop in Hin as [-> _]; now rewrite ?andb_false_r
    | apply andb_prop in Hin as [-> _]; now rewrite ?andb_false_r ].
Qed.

End Order.

Lemma sample_frame_labels : NoDup (CollectReport.index CollectReport.sample_frame).
Proof. unfold CollectReport.sample_frame. apply DataFrame_NoDup. Qed.

Lemma custom_order_permutation_witness :
  NoDup (CollectReport.index CollectReport.sample_frame)
  /\ Permutation (CollectReport.custom_order CollectReport.sample_frame) CollectReport.sample_frame
  /\ NoDup (CollectReport.index (CollectReport.custom_order CollectReport.sample_frame))
  /\ (exists tail,
        CollectReport.custom_order CollectReport.sample_frame
          = CollectReport.select CollectReport.is_noinj CollectReport.sample_frame ++ tail
        /\ forall ir, In ir tail -> CollectReport.is_noinj (snd ir) = false)
  /\ (exists front,
        CollectReport.custom_order CollectReport.sample_frame
          = front ++ CollectReport.select CollectReport.in_rest CollectReport.sample_frame
        /\ forall ir, In ir front -> CollectReport.in_rest (snd ir) = false).
Proof.
  split; [exact sample_frame_labels|].
  exact (custom_order_permutation unit CollectReport.sample_frame
           sample_frame_labels).
Defined.

(** The example of the specification: the rows of [NO INJECTION] first,
    whatever their concurrency, then 300, 500, 1000, and the rest. *)
Example custom_order_sample :
  map (fun ir => (fst ir, CollectReport.scenario (snd ir),
                  CollectReport.concurrency (snd ir)))
      (CollectReport.custom_order CollectReport.sample_frame)
  = [(2, L "NO INJECTION", None);
     (5, L "NO INJECTION", Some 300%Z);
     (1, L "INJ_WEB", Some 300%Z);
     (6, L "INJ_WAF_WEB", Some 300%Z);
     (4, L "INJ_WEB", Some 500%Z);
     (0, L "INJ_WEB", Some 1000%Z);
     (3, L "INJ_WAF_WEB", Some 200%Z)].
Proof. reflexivity. Qed.

(* ================================================================== *)
(** * The slots of a run directory *)
(* ================================================================== *)










(* ================================================================== *)
(** * The concurrency of a run *)
(* ================================================================== *)

Lemma short_within_limit (g : str) :
  length g <= 5 -> over_limit (Some g) = false.
Proof.
  intros H. unfold over_limit, int_max_str_digits. apply Nat.ltb_ge. lia.
Qed.

Lemma number_in_standalone n :
  number_in re_standalone_number n
  = option_map Ret (name_number re_standalone_number n).
Proof.
  unfold number_in, name_number.
  destruct (re_search no_flags re_standalone_number n) as [m|] eqn:E;
    [|reflexivity].
  destruct (group_standalone_number _ _ E) as (g & Hg & D & Hl).
  rewrite (int_of_digits _ _ Hg D), Hg, (short_within_limit _ Hl).
  reflexivity.
Qed.

Lemma number_in_number n :
  number_in re_number n = option_map Ret (name_number re_number n).
Proof.
  unfold number_in, name_number.
  destruct (re_search no_flags re_number n) as [m|] eqn:E; [|reflexivity].
  destruct (group_number _ _ E) as (g & Hg & D & Hl).
  rewrite (int_of_digits _ _ Hg D), Hg, (short_within_limit _ Hl).
  reflexivity.
Qed.

(** The last step of the derivation: [int] of the [c<digits>] of the name
    of the load-test file. *)
Lemma wrk_name_step (w : entry) :
  match number_in re_c_number (name w) with
  | Some n => num <- n ;; Ret (Some num)
  | None => Ret None
  end
  = if c_number_over_limit (Some w) then Raise ValueError
    else Ret (name_number re_c_number (name w)).
Proof.
  unfold number_in, name_number, c_number_over_limit.
  destruct (re_search no_flags re_c_number (name w)) as [m|] eqn:E;
    [|reflexivity].
  destruct (group_c_number _ _ E) as (g & Hg & D & _).
  rewrite (int_of_digits _ _ Hg D), Hg.
  destruct (over_limit (Some g)); reflexivity.
Qed.

(** A [c<digits>] that [int] refuses needs a name of more than 4300
    characters. *)
Lemma c_number_over_limit_name (wrk_file : option entry) :
  c_number_over_limit wrk_file = true ->
  exists f, wrk_file = Some f /\ int_max_str_digits < length (name f).
Proof.
  destruct wrk_file as [f|]; [|discriminate]. unfold c_number_over_limit.
  destruct (re_search no_flags re_c_number (name f)) as [m|] eqn:E;
    [|discriminate].
  destruct (group_c_number _ _ E) as (g & Hg & _ & Hl). rewrite Hg.
  unfold over_limit. intros H. apply Nat.ltb_lt in H.
  exists f. split; [reflexivity | lia].
Qed.

(** With 100 among the canonical values, [num >= 100] accepts the same
    numbers as [num > 100]. *)
Lemma accepted_simple num :
  num_in num Collect.canonical || (100 <=? num)%Z
  = accepted Collect.canonical num.
Proof.
  unfold accepted.
  destruct (Z.eq_dec num 100) as [-> | Hne]; [reflexivity|].
  destruct (num_in num Collect.canonical); [reflexivity|]. cbn [orb].
  destruct (Z.leb_spec 100 num), (Z.ltb_spec 100 num); auto; lia.
Qed.

Lemma simple_scan_names files :
  Collect.scan_names files
  = Ret (find (accepted Collect.canonical) (standalone_numbers files)).
Proof.
  unfold standalone_numbers.
  induction files as [|f files IH]; [reflexivity|].
  cbn [Collect.scan_names flat_map]. rewrite number_in_standalone.
  destruct (name_number re_standalone_number (name f)) as [num|];
    cbn [option_map bind app find]; [|exact IH].
  rewrite accepted_simple.
  destruct (accepted Collect.canonical num); [reflexivity | exact IH].
Qed.

Lemma report_scan_names files :
  CollectReport.scan_names files
  = Ret (find (accepted CollectReport.canonical) (standalone_numbers files)).
Proof.
  unfold standalone_numbers.
  induction files as [|f files IH]; [reflexivity|].
  cbn [CollectReport.scan_names flat_map]. rewrite number_in_standalone.
  destruct (name_number re_standalone_number (name f)) as [num|];
    cbn [option_map bind app find]; [|exact IH].
  fold (accepted CollectReport.canonical num).
  destruct (accepted CollectReport.canonical num); [reflexivity | exact IH].
Qed.

Lemma simple_detect_concurrency files avg_ips wrk_file :
  Collect.detect_concurrency files avg_ips wrk_file
  = if reaches_wrk_name Collect.canonical files avg_ips
       && c_number_over_limit wrk_file
    then Raise ValueError
    else Ret (spec_concurrency Collect.canonical files avg_ips wrk_file).
Proof.
  unfold Collect.detect_concurrency, spec_concurrency, reaches_wrk_name.
  rewrite simple_scan_names. cbn [bind].
  destruct (find _ (standalone_numbers files)) as [c|].
  { destruct avg_ips, wrk_file; reflexivity. }
  destruct avg_ips as [f|].
  - rewrite number_in_number.
    destruct (name_number re_number (name f)) as [c|]; cbn [option_map bind].
    + destruct wrk_file; reflexivity.
    + destruct wrk_file as [w|]; [|reflexivity].
      rewrite wrk_name_step. reflexivity.
  - cbn [bind]. destruct wrk_file as [w|]; [|reflexivity].
    rewrite wrk_name_step. reflexivity.
Qed.

Lemma report_detect_concurrency files wrk :
  CollectReport.detect_concurrency files wrk
  = if reaches_wrk_name CollectReport.canonical files None
       && c_number_over_limit wrk
    then Raise ValueError
    else Ret (spec_concurrency CollectReport.canonical files None wrk).
Proof.
  unfold CollectReport.detect_concurrency, spec_concurrency, reaches_wrk_name.
  rewrite report_scan_names. cbn [bind].
  destruct (find _ (standalone_numbers files)) as [c|].
  { destruct wrk; reflexivity. }
  destruct wrk as [w|]; [|reflexivity].
  rewrite wrk_name_step. reflexivity.
Qed.

(** C7, as amended.  The simpler script derives the concurrency of a run
    as the specification says, with 4000 among the canonical values and
    the IPS file as the CPU file: the first standalone number of 2 to 5
    digits of a name that is canonical or greater than 100, then the
    number of 2 to 5 digits in the name of the IPS file, then the
    [c<digits>] of the name of the load-test file, and nothing when the
    three fail.  The report script has no step for the CPU file: after the
    scan of the names it goes to the name of the load-test file.  Neither
    script raises, but for [ValueError] when the derivation reaches the
    name of the load-test file and its [c<digits>] has more than 4300
    digits; with a name of at most 4300 characters, as every file name
    is, both return what the derivation gives. *)
Theorem concurrency_of_a_run (files : run_listing)
        (avg_ips wrk_file : option entry) :
  Collect.detect_concurrency files avg_ips wrk_file
    = (if reaches_wrk_name Collect.canonical files avg_ips
          && c_number_over_limit wrk_file
       then Raise ValueError
       else Ret (spec_concurrency Collect.canonical files avg_ips wrk_file))
  /\ CollectReport.detect_concurrency files wrk_file
    = (if reaches_wrk_name CollectReport.canonical files None
          && c_number_over_limit wrk_file
       then Raise ValueError
       else Ret (spec_concurrency CollectReport.canonical files None wrk_file))
  /\ ((forall f, wrk_file = Some f -> length (name f) <= int_max_str_digits) ->
      Collect.detect_concurrency files avg_ips wrk_file
        = Ret (spec_concurrency Collect.canonical files avg_ips wrk_file)
      /\ CollectReport.detect_concurrency files wrk_file
        = Ret (spec_concurrency CollectReport.canonical files None wrk_file)).
Proof.
  split; [apply simple_detect_concurrency|].
  split; [apply report_detect_concurrency|].
  intros Hshort.
  assert (E : c_number_over_limit wrk_file = false).
  { destruct (c_number_over_limit wrk_file) eqn:E; [|reflexivity].
    apply c_number_over_limit_name in E. destruct E as (f & Hf & Hlt).
    specialize (Hshort f Hf). lia. }
  rewrite simple_detect_concurrency, report_detect_concurrency, E.
  rewrite !andb_false_r. split; reflexivity.
Qed.

(** The claim C7 as the specification states it fails for the report
    script: with the CPU file [avg_cpu_ips_64.txt] alone, the number 64 is
    neither canonical nor greater than 100, the specification falls back
    on the name of the CPU file and gives 64, as the simpler script does,
    and the report script gives nothing. *)
Lemma report_ignores_the_cpu_file_name :
  let files := [mkEntry (L "avg_cpu_ips_64.txt") (File [])] in
  spec_concurrency CollectReport.canonical files
                   (fst (CollectReport.cpu_files files))
                   (CollectReport.find_wrk files) = Some 64%Z
  /\ CollectReport.detect_concurrency files (CollectReport.find_wrk files)
     = Ret None
  /\ Collect.detect_concurrency files (fst (Collect.cpu_files files))
                                (Collect.find_wrk files)
     = Ret (Some 64%Z).
Proof.
  cbv zeta. repeat split; vm_compute; reflexivity.
Qed.

(* ================================================================== *)
(** * Paths *)
(* ================================================================== *)







(* ================================================================== *)
(** * The walk of the simpler script records every run *)
(* ================================================================== *)














(* ================================================================== *)
(** * The walk of the report script *)
(* ================================================================== *)

Section ReportWalk.
Variable description : Type.
Variable scenario_description : str -> description.








End ReportWalk.




(** C8: the failing input.  In the tree [tree_with_cpu_directory] the
    first run directory holds a directory named [summary_ips] and no
    load-test file.  The simpler script, which keeps regular files only,
    records the two runs; the report script takes the directory for the
    CPU file of the role [ips], reads it and raises: no run is recorded. *)
Theorem report_walk_raises_on_cpu_directory :
  CollectReport.collect_results (fun _ : str => tt) (L "/results")
                                tree_with_cpu_directory
    = Raise IsADirectoryError
  /\ fmap (fun r => map (fun d => (Collect.scenario d, Collect.run d,
                                  Collect.requests_per_sec d)) (fst r))
          (Collect.collect_results (L "/results") tree_with_cpu_directory)
     = Ret [(L "INJ_WEB", L "run 1", None);
            (L "INJ_WEB", L "run 2", Some (number_value (L "523.40")))].
Proof.
  split; vm_compute; reflexivity.
Qed.

(* ================================================================== *)
(** * [html_escape] *)
(* ================================================================== *)

Section StrFacts.
Variable A : Type.
Variable eqb : A -> A -> bool.

(** A character is replaced by mapping each character to its text. *)
Lemma replace_char (c : A) (new s : list A) :
  Str.replace eqb [c] new s
  = flat_map (fun x => if eqb c x then new else [x]) s.
Proof.
  unfold Str.replace. induction s as [|x s IH]; [reflexivity|].
  cbn [Str.replace_from Str.startswith flat_map length Nat.sub].
  rewrite andb_true_r. destruct (eqb c x); now rewrite IH.
Qed.

End StrFacts.

Section Escape.
Import ReportText.

Lemma text_amp : T "&amp;" = [38; 97; 109; 112; 59]%N.
Proof. reflexivity. Qed.

Lemma text_lt : T "&lt;" = [38; 108; 116; 59]%N.
Proof. reflexivity. Qed.

Lemma text_gt : T "&gt;" = [38; 103; 116; 59]%N.
Proof. reflexivity. Qed.

Ltac codes :=
  repeat match goal with
         | H : (_ =? _)%N = true |- _ => apply N.eqb_eq in H
         | H : (_ =? _)%N = false |- _ => apply N.eqb_neq in H
         end.

(** The three replacements, one after the other, on the text of one
    character. *)
Lemma escape_one (c : N) :
  flat_map (fun x => if (62 =? x)%N then T "&gt;" else [x])
    (flat_map (fun x => if (60 =? x)%N then T "&lt;" else [x])
       (if (38 =? c)%N then T "&amp;" else [c]))
  = entity c.
Proof.
  unfold entity. rewrite (N.eqb_sym c 38), (N.eqb_sym c 60), (N.eqb_sym c 62).
  destruct (38 =? c)%N eqn:E1; [reflexivity|].
  cbn [flat_map app]. destruct (60 =? c)%N eqn:E2; [reflexivity|].
  cbn [flat_map app]. destruct (62 =? c)%N eqn:E3; reflexivity.
Qed.

Lemma html_escape_flat_map (s : ustr) :
  html_escape (Some s) = flat_map entity s.
Proof.
  destruct s as [|c w]; [reflexivity|]. unfold html_escape.
  change (T ">") with [62%N]. change (T "<") with [60%N].
  change (T "&") with [38%N].
  rewrite !(replace_char N N.eqb).
  generalize (c :: w). clear c w. intros s.
  induction s as [|x s IH]; [reflexivity|].
  cbn [flat_map]. rewrite !flat_map_app, escape_one. now rewrite IH.
Qed.

Lemma entity_plain (c : N) :
  c <> 38%N -> c <> 60%N -> c <> 62%N -> entity c = [c].
Proof.
  intros H1 H2 H3. unfold entity.
  apply N.eqb_neq in H1, H2, H3. now rewrite H1, H2, H3.
Qed.

Lemma entity_cases (c : N) :
  (c = 38%N /\ entity c = [38; 97; 109; 112; 59]%N)
  \/ (c = 60%N /\ entity c = [38; 108; 116; 59]%N)
  \/ (c = 62%N /\ entity c = [38; 103; 116; 59]%N)
  \/ (c <> 38%N /\ c <> 60%N /\ c <> 62%N /\ entity c = [c]).
Proof.
  unfold entity.
  destruct (c =? 38)%N eqn:E1; codes; [now left|].
  destruct (c =? 60)%N eqn:E2; codes; [now right; left|].
  destruct (c =? 62)%N eqn:E3; codes; [now right; right; left|].
  now right; right; right.
Qed.

(** The texts of two characters do not start one another. *)
Lemma entity_prefix_free (c1 c2 : N) (r1 r2 : ustr) :
  entity c1 ++ r1 = entity c2 ++ r2 -> c1 = c2 /\ r1 = r2.
Proof.
  destruct (entity_cases c1) as [[-> ->]|[[-> ->]|[[-> ->]|(A1 & A2 & A3 & ->)]]];
  destruct (entity_cases c2) as [[-> ->]|[[-> ->]|[[-> ->]|(B1 & B2 & B3 & ->)]]];
  cbn [app]; intros H; try discriminate H;
    try (injection H as <-; now split);
    try (injection H as E1 E2; subst; congruence).
Qed.

Lemma flat_map_entity_injective (s1 : ustr) :
  forall s2, flat_map entity s1 = flat_map entity s2 -> s1 = s2.
Proof.
  induction s1 as [|c1 s1 IH]; intros [|c2 s2]; cbn [flat_map]; intros H.
  - reflexivity.
  - exfalso.
    destruct (entity_cases c2) as [[_ E]|[[_ E]|[[_ E]|(_ & _ & _ & E)]]];
      rewrite E in H; discriminate H.
  - exfalso.
    destruct (entity_cases c1) as [[_ E]|[[_ E]|[[_ E]|(_ & _ & _ & E)]]];
      rewrite E in H; discriminate H.
  - apply entity_prefix_free in H. destruct H as [-> H].
    now rewrite (IH s2 H).
Qed.

Lemma entity_no_markup (c x : N) :
  In x (entity c) -> x <> 60%N /\ x <> 62%N.
Proof.
  destruct (entity_cases c) as [[_ E]|[[_ E]|[[_ E]|(_ & A2 & A3 & E)]]];
    rewrite E; cbn [In]; intros H;
    repeat (destruct H as [<-|H]; [split; (discriminate || assumption)|]);
    contradiction.
Qed.

End Escape.

(** X3.  [html_escape] gives the empty text for [None] and for the empty
    string.  On a string it replaces each character by its text, [&amp;]
    for [&], [&lt;] for [<], [&gt;] for [>] and the character itself
    otherwise: the three replacements one after the other do not touch
    the [&] that an earlier one has written.  The result holds neither
    [<] nor [>], and a string without the three characters is returned
    as it is. *)
Theorem html_escape_by_character :
  ReportText.html_escape None = []
  /\ ReportText.html_escape (Some []) = []
  /\ forall s : ustr,
       ReportText.html_escape (Some s) = flat_map ReportText.entity s
       /\ ~ In 60%N (ReportText.html_escape (Some s))
       /\ ~ In 62%N (ReportText.html_escape (Some s))
       /\ (~ In 38%N s /\ ~ In 60%N s /\ ~ In 62%N s ->
           ReportText.html_escape (Some s) = s).
Proof.
  split; [reflexivity|]. split; [reflexivity|]. intros s.
  rewrite html_escape_flat_map. split; [reflexivity|].
  split; [|split].
  - intros H. apply in_flat_map in H. destruct H as (c & _ & H).
    apply entity_no_markup in H. now destruct H.
  - intros H. apply in_flat_map in H. destruct H as (c & _ & H).
    apply entity_no_markup in H. now destruct H.
  - intros (H1 & H2 & H3). induction s as [|c s IH]; [reflexivity|].
    cbn [flat_map]. rewrite entity_plain.
    + cbn [app]. f_equal. apply IH; intros H; [apply H1|apply H2|apply H3];
        now right.
    + intros ->. apply H1. now left.
    + intros ->. apply H2. now left.
    + intros ->. apply H3. now left.
Qed.

(** X4.  [html_escape] loses nothing: two strings have the same escaped text
    only when they are the same string. *)
Theorem html_escape_injective (s1 s2 : ustr) :
  ReportText.html_escape (Some s1) = ReportText.html_escape (Some s2)
  <-> s1 = s2.
Proof.
  split; [|now intros ->].
  rewrite !html_escape_flat_map. apply flat_map_entity_injective.
Qed.
